(** * Quorumnet: blink quorum protocol of [src/cryptonote_protocol/quorumnet.cpp]

    A shallow embedding of the quorum network layer: the peer topology
    ([peer_info]), the vote wire format ([serialize_vote],
    [deserialize_vote]), blink quorum construction ([get_blink_quorums]),
    signature processing ([process_blink_signatures]), the inbound
    handlers ([handle_blink], [handle_blink_signature]) and the
    submitter's response aggregation ([send_blink],
    [common_blink_response]).

    Conventions.  Fixed-size binary values of the source (public keys,
    x25519 keys, hashes, signatures) are held as the [string] of their
    bytes, so [get_data_as_string] is the identity.  Machine integers
    are [Z] with the wrap-around of their width written out.  Functions
    that throw return an [outcome]; functions that send messages return
    the list of messages sent. *)

From Stdlib Require Import ZArith Lia Ascii.
From stdpp Require Import gmap strings list fin_maps pretty.

Open Scope string_scope.
Open Scope Z_scope.

(** ** Machine integers *)

Definition u8_max : Z := 255.
Definition u16_max : Z := 65535.
Definition u64_max : Z := 18446744073709551615.
Definition int_min : Z := -2147483648.
Definition int_max : Z := 2147483647.

(** Arithmetic on [uint64_t] is modulo 2^64. *)
Definition wrap64 (z : Z) : Z := z mod 18446744073709551616.
Definition add64 (a b : Z) : Z := wrap64 (a + b).
Definition sub64 (a b : Z) : Z := wrap64 (a - b).

(** [++] on a [std::atomic<int>]: two's complement wrap-around. *)
Definition wrap_int (z : Z) : Z := (z - int_min) mod 4294967296 + int_min.

(** ** Exceptions and outcomes *)

Inductive exn :=
| invalid_argument (what : string)
| runtime_error (what : string)
| out_of_range (key : string)      (* std::map::at on a missing key *)
| bad_get                          (* boost::get on the wrong alternative *)
| bad_integer.                     (* get_int on a value that does not fit *)

(** What running a piece of the source yields: a value, an exception, or
    behaviour the language leaves undefined. *)
Inductive outcome (A : Type) :=
| Ret (a : A)
| Throw (e : exn)
| Undefined (what : string).
Arguments Ret {A} a.
Arguments Throw {A} e.
Arguments Undefined {A} what.

Definition obind {A B} (m : outcome A) (k : A → outcome B) : outcome B :=
  match m with
  | Ret a => k a
  | Throw e => Throw e
  | Undefined w => Undefined w
  end.

Notation "x ←! m ; k" := (obind m (λ x, k))
  (at level 20, m at level 100, k at level 200, right associativity,
   format "x  ←!  m ;  '/' k").

(** ** bt-encoded values *)

#[warnings="-register-all"]
Inductive bt_value :=
| bt_string (s : string)
| bt_int (z : Z)
| bt_list (l : list bt_value)
| bt_dict (d : list (string * bt_value)).

(** A [bt_dict] is a [std::map]: its entries are kept in key order. *)
Abbreviation bt_dict_t := (list (string * bt_value)).

Fixpoint dict_find (d : bt_dict_t) (key : string) : option bt_value :=
  match d with
  | [] => None
  | (k, v) :: d' => if decide (k = key) then Some v else dict_find d' key
  end.

(** [d.at(key)] *)
Definition dict_at (d : bt_dict_t) (key : string) : outcome bt_value :=
  match dict_find d key with
  | Some v => Ret v
  | None => Throw (out_of_range key)
  end.

(** [d[key] = v]: replaces the entry or inserts it at its place in key order. *)
Fixpoint dict_set (key : string) (v : bt_value) (d : bt_dict_t) : bt_dict_t :=
  match d with
  | [] => [(key, v)]
  | (k, w) :: d' =>
      if decide (k = key) then (key, v) :: d'
      else if String.ltb key k then (key, v) :: (k, w) :: d'
      else (k, w) :: dict_set key v d'
  end.

(** Construction from an initializer list: later duplicates are ignored. *)
Definition dict_emplace (key : string) (v : bt_value) (d : bt_dict_t) : bt_dict_t :=
  match dict_find d key with
  | Some _ => d
  | None => dict_set key v d
  end.

Definition dict_of_list (l : list (string * bt_value)) : bt_dict_t :=
  foldl (λ d kv, dict_emplace kv.1 kv.2 d) [] l.

(** Modelled from the spec: [get_int<I>] of the absent bt_serialize.h.  A
    field of the wrong type is malformed, and, as the comment on [get_or]
    has it, [get_int<I>] succeeds when the stored integer fits [I], whose
    range is [lo..hi]. *)
Definition get_int (lo hi : Z) (v : bt_value) : outcome Z :=
  match v with
  | bt_int z => if decide (lo ≤ z ≤ hi) then Ret z else Throw bad_integer
  | _ => Throw bad_get
  end.

(** [boost::get<std::string>], [boost::get<bt_dict>], [boost::get<bt_list>] *)
Definition get_string (v : bt_value) : outcome string :=
  match v with bt_string s => Ret s | _ => Throw bad_get end.
Definition get_dict (v : bt_value) : outcome bt_dict_t :=
  match v with bt_dict d => Ret d | _ => Throw bad_get end.
Definition get_list (v : bt_value) : outcome (list bt_value) :=
  match v with bt_list l => Ret l | _ => Throw bad_get end.

Definition bt_bool (b : bool) : bt_value := bt_int (if b then 1 else 0).

(** [get_or<I>(d, key, fallback)] *)
Definition get_or (lo hi : Z) (d : bt_dict_t) (key : string) (fallback : Z) : Z :=
  match dict_find d key with
  | Some v => match get_int lo hi v with Ret z => z | _ => fallback end
  | None => fallback
  end.

(** Length of a byte string, as [std::string::size]. *)
Definition str_size (s : string) : Z := Z.of_nat (String.length s).

(** ** Quorum votes *)

(** Modelled from the spec: the enumerations of the absent
    service_node_voting.h, with the enumerators in the order the spec lists
    them and [_count] one past the last. *)
Inductive quorum_type := obligations | checkpointing | blink.
Inductive quorum_group := invalid | validator | worker.
Inductive new_state := deregister | decommission | recommission | ip_change_penalty.

#[global] Instance quorum_type_eq_dec : EqDecision quorum_type.
Proof. solve_decision. Defined.
#[global] Instance quorum_group_eq_dec : EqDecision quorum_group.
Proof. solve_decision. Defined.
#[global] Instance new_state_eq_dec : EqDecision new_state.
Proof. solve_decision. Defined.

Definition quorum_type_code (t : quorum_type) : Z :=
  match t with obligations => 0 | checkpointing => 1 | blink => 2 end.
Definition quorum_group_code (g : quorum_group) : Z :=
  match g with invalid => 0 | validator => 1 | worker => 2 end.
Definition new_state_code (s : new_state) : Z :=
  match s with
  | deregister => 0 | decommission => 1 | recommission => 2 | ip_change_penalty => 3
  end.

Definition quorum_type_of_code (z : Z) : option quorum_type :=
  match z with
  | 0 => Some obligations | 1 => Some checkpointing | 2 => Some blink | _ => None
  end.
Definition quorum_group_of_code (z : Z) : option quorum_group :=
  match z with
  | 0 => Some invalid | 1 => Some validator | 2 => Some worker | _ => None
  end.
Definition new_state_of_code (z : Z) : option new_state :=
  match z with
  | 0 => Some deregister | 1 => Some decommission | 2 => Some recommission
  | 3 => Some ip_change_penalty | _ => None
  end.

(** [get_enum<E>(d, key)]: the integer of the underlying type, accepted when
    below [E::_count]. *)
Definition get_enum {E : Type} (underlying_max : Z) (of_code : Z → option E)
    (d : bt_dict_t) (key : string) : outcome E :=
  v ←! dict_at d key;
  z ←! get_int 0 underlying_max v;
  match of_code z with
  | Some e => Ret e
  | None => Throw (invalid_argument ("invalid enum value for field " +:+ key))
  end.

(** [quorum_vote_t].  The source keeps [state_change] and [checkpoint] in one
    union; the record holds both members, and [vote_eq] compares the one the
    vote's type selects. *)
Record quorum_vote_t := {
  version : Z;                      (* uint8_t *)
  type : quorum_type;
  block_height : Z;                 (* uint64_t *)
  group : quorum_group;
  index_in_group : Z;               (* uint16_t *)
  signature : string;               (* crypto::signature, 64 bytes *)
  state_change_worker_index : Z;    (* uint16_t *)
  state_change_state : new_state;
  checkpoint_block_hash : string;   (* crypto::hash, 32 bytes *)
}.

Definition serialize_vote (vote : quorum_vote_t) : bt_dict_t :=
  let result := dict_of_list [
    ("v", bt_int (version vote));
    ("t", bt_int (quorum_type_code (type vote)));
    ("h", bt_int (block_height vote));
    ("g", bt_int (quorum_group_code (group vote)));
    ("i", bt_int (index_in_group vote));
    ("s", bt_string (signature vote)) ] in
  if decide (type vote = checkpointing) then
    dict_set "bh" (bt_string (checkpoint_block_hash vote)) result
  else
    dict_set "sc" (bt_int (new_state_code (state_change_state vote)))
      (dict_set "wi" (bt_int (state_change_worker_index vote)) result).

(** [deserialize_vote].  The local [quorum_vote_t vote;] starts out
    uninitialised: [uninit] stands for whatever its storage holds.  Every
    field the function assigns is taken from the dictionary; a field it
    never assigns keeps the value of [uninit]. *)
Definition deserialize_vote (uninit : quorum_vote_t) (v : bt_value) : outcome quorum_vote_t :=
  d ←! get_dict v;
  ver ←! (x ←! dict_at d "v"; get_int 0 u8_max x);
  ty ←! get_enum u8_max quorum_type_of_code d "t";
  h ←! (x ←! dict_at d "h"; get_int 0 u64_max x);
  g ←! get_enum u8_max quorum_group_of_code d "g";
  if decide (g = invalid) then Throw (invalid_argument "invalid vote group") else
  i ←! (x ←! dict_at d "i"; get_int 0 u16_max x);
  sig ←! (x ←! dict_at d "s"; get_string x);
  if decide (str_size sig ≠ 64) then Throw (invalid_argument "invalid vote signature size") else
  if decide (ty = checkpointing) then
    bh ←! (x ←! dict_at d "bh"; get_string x);
    if decide (str_size bh ≠ 32) then
      Throw (invalid_argument "invalid vote checkpoint block hash")
    else
      Ret {| version := ver; type := ty; block_height := h; group := g;
             index_in_group := i; signature := sig;
             state_change_worker_index := state_change_worker_index uninit;
             state_change_state := state_change_state uninit;
             checkpoint_block_hash := bh |}
  else
    wi ←! (x ←! dict_at d "wi"; get_int 0 u16_max x);
    _ ←! get_enum u16_max new_state_of_code d "sc";   (* result discarded *)
    Ret {| version := ver; type := ty; block_height := h; group := g;
           index_in_group := i; signature := sig;
           state_change_worker_index := wi;
           state_change_state := state_change_state uninit;
           checkpoint_block_hash := checkpoint_block_hash uninit |}.

(** A vote the protocol can carry. *)
Definition legal_vote (v : quorum_vote_t) : Prop :=
  0 ≤ version v ≤ u8_max ∧ 0 ≤ block_height v ≤ u64_max ∧
  group v ≠ invalid ∧ 0 ≤ index_in_group v ≤ u16_max ∧
  str_size (signature v) = 64 ∧
  if decide (type v = checkpointing) then str_size (checkpoint_block_hash v) = 32
  else 0 ≤ state_change_worker_index v ≤ u16_max.

(** Equality of votes on the common fields and on the active union member. *)
Definition vote_eq (a b : quorum_vote_t) : Prop :=
  version a = version b ∧ type a = type b ∧ block_height a = block_height b ∧
  group a = group b ∧ index_in_group a = index_in_group b ∧
  signature a = signature b ∧
  if decide (type a = checkpointing) then
    checkpoint_block_hash a = checkpoint_block_hash b
  else
    state_change_worker_index a = state_change_worker_index b ∧
    state_change_state a = state_change_state b.


(** ** Keys, quorums and the service node directory *)

(** Number of elements of a container, as the [int] or [size_t] the source
    reads it into. *)
Definition len {A} (l : list A) : Z := Z.of_nat (length l).

(** [v[j]] for an integer index.  An index outside the vector has no defined
    behaviour in the source; every caller below that depends on the element
    checks the bound first, and the model gives [None] otherwise. *)
Definition index_Z {A} (l : list A) (j : Z) : option A :=
  if decide (0 ≤ j) then l !! Z.to_nat j else None.

(** A key is null when all of its bytes are zero ([operator bool] of the key
    types). *)
Fixpoint is_null (key : string) : bool :=
  match key with
  | EmptyString => true
  | String c rest => bool_decide (c = Ascii.zero) && is_null rest
  end.

Fixpoint zero_bytes (n : nat) : string :=
  match n with O => EmptyString | S n' => String Ascii.zero (zero_bytes n') end.

(** [x25519_from_string] *)
Definition x25519_from_string (pubkey : string) : string :=
  if decide (str_size pubkey = 32) then pubkey else zero_bytes 32.

(** [service_nodes::quorum]; only the validators are read here. *)
Record quorum := { validators : list string }.

(** What the directory holds of a registered service node (the fields of
    [service_node_info] and its proof that this file reads). *)
Record service_node_info := {
  is_active : bool;
  pubkey_x25519 : string;
  public_ip : Z;          (* uint32_t *)
  quorumnet_port : Z;     (* uint16_t *)
}.

(** [service_node_list], as far as it is queried. *)
Record service_node_list := {
  get_quorum : quorum_type → Z → option quorum;    (* null when there is none *)
  sn_infos : gmap string service_node_info;         (* registered nodes by pubkey *)
  get_pubkey_from_x25519 : string → string;         (* null key when unknown *)
}.

(** [cryptonote::core], as far as it is queried.  The code paths that use
    [my_keys] assert that the node has service node keys. *)
Record core := {
  get_current_blockchain_height : Z;    (* uint64_t *)
  my_pub : string;                      (* keys->pub *)
  my_key : string;                      (* keys->key *)
  get_service_node_list : service_node_list;
}.

(** Code of this repository that is not among the sources (conn_matrix.h,
    service_node_rules.h, tx_blink.h, the crypto and transaction libraries),
    taken as parameters of the model. *)
Record collaborators := {
  quorum_outgoing_conns : Z → Z → list Z;       (* index, size *)
  quorum_incoming_conns : Z → Z → list Z;
  BLINK_SUBQUORUM_SIZE : Z;
  BLINK_MIN_VOTES : Z;
  quorum_height : Z → Z → Z;                    (* blink_tx::quorum_height *)
  quorum_checksum : list string → Z → Z;        (* validators, offset *)
  blink_hash : Z → string → bool → string;      (* blink_tx::hash: height, tx hash, approval *)
  check_signature : string → string → string → bool;   (* hash, pubkey, signature *)
  generate_signature : string → string → string → string; (* hash, pub, sec *)
  parse_and_validate_tx_from_blob : string → option string;  (* the tx hash *)
  add_blink : string → bool;                    (* tx_memory_pool::add_blink, by tx hash *)
  get_ip_string_from_int32 : Z → string;
}.

(** Modelled from the spec: [NUM_BLINK_QUORUMS], the number of enumerators of
    the absent [blink_tx::subquorum]; a blink uses the two subquorums Q and
    Q'. *)
Definition NUM_BLINK_QUORUMS : Z := 2.

(** ** Messages handed to the transport *)

Inductive send_option :=
| optional                 (* send_option::optional: only if already connected *)
| hint (addr : string).    (* send_option::hint: connect there if needed *)

Inductive sent :=
| Send (to : string) (cmd : string) (data : bt_value) (opt : send_option)
| Reply (cmd : string) (data : bt_value).       (* m.reply *)

(** ** Peer topology *)

Record peer_info := {
  remotes : gmap string (string * string);   (* pubkey -> (x25519, address) *)
  peers : gmap string string;                (* x25519 -> address, empty when weak *)
  strong_peers : Z;
  my_position : list Z;                      (* -1 when not in the quorum *)
  my_position_count : Z;
}.

Definition set_peers (pi : peer_info) (p : gmap string string) (n : Z) : peer_info :=
  {| remotes := remotes pi; peers := p; strong_peers := n;
     my_position := my_position pi; my_position_count := my_position_count pi |}.

(** [peer_info::add_peer] *)
Definition add_peer (pi : peer_info) (pubkey : string) (strong : bool) : peer_info * bool :=
  match remotes pi !! pubkey with
  | Some (x25519, addr) =>
      let remote_addr := if strong then addr else "" in
      match peers pi !! x25519 with
      | Some existing =>
          if strong && bool_decide (existing = "") then
            (set_peers pi (<[x25519 := addr]> (peers pi)) (strong_peers pi + 1), true)
          else (pi, false)
      | None =>
          (set_peers pi (<[x25519 := remote_addr]> (peers pi))
             (if strong then strong_peers pi + 1 else strong_peers pi), true)
      end
  | None => (pi, false)
  end.

(** [add_peer(v[j], strong)] *)
Definition add_peer_at (v : list string) (j : Z) (strong : bool) (pi : peer_info) : peer_info :=
  match index_Z v j with
  | Some pubkey => (add_peer pi pubkey strong).1
  | None => pi
  end.

(** [for (int j : conns) add_peer(v[j], strong)] *)
Definition add_peers (v : list string) (conns : list Z) (strong : bool) (pi : peer_info) : peer_info :=
  foldl (λ pi j, add_peer_at v j strong pi) pi conns.

Definition quorum_at (qs : list quorum) (i : nat) : list string :=
  match qs !! i with Some q => validators q | None => [] end.

Definition position_at (pos : list Z) (i : nat) : Z := default (-1) (pos !! i).

(** The block of the loop body that links a quorum to the next one: taken
    when there is a next quorum and the node is not in it. *)
Definition forward_bridge (qs : list quorum) (i : nat) (pos : Z) (pi : peer_info) : peer_info :=
  let validators := quorum_at qs i in
  if decide ((S i < length qs)%nat ∧ position_at (my_position pi) (S i) < 0) then
    let next_validators := quorum_at qs (S i) in
    let half := Z.quot (Z.min (len validators) (len next_validators)) 2 in
    if decide (pos >= half ∧ pos < half * 2) then
      add_peer_at validators (pos - half) true pi
    else pi
  else pi.

(** The block of the loop body that links a quorum to the previous one:
    taken when there is a previous quorum and the node is not in it. *)
Definition reverse_bridge (qs : list quorum) (i : nat) (pos : Z) (pi : peer_info) : peer_info :=
  let validators := quorum_at qs i in
  if decide (i ≠ O ∧ position_at (my_position pi) (pred i) < 0) then
    let prev_validators := quorum_at qs (pred i) in
    let half := Z.quot (Z.min (len validators) (len prev_validators)) 2 in
    if decide (pos < half) then
      add_peer_at prev_validators (half + pos) true pi
    else pi
  else pi.

(** One iteration of the loop of [peer_info::compute_peers], for the quorum
    at index [i]: the outgoing connections within the quorum (strong), the
    incoming ones (weak), and the two bridges. *)
Definition compute_peers_step (E : collaborators) (qs : list quorum) (pi : peer_info) (i : nat)
    : peer_info :=
  let pos := position_at (my_position pi) i in
  if decide (pos < 0) then pi else
  let validators := quorum_at qs i in
  let pi := add_peers validators (quorum_outgoing_conns E pos (len validators)) true pi in
  let pi := add_peers validators (quorum_incoming_conns E pos (len validators)) false pi in
  reverse_bridge qs i pos (forward_bridge qs i pos pi).

(** [peer_info::compute_peers] *)
Definition compute_peers (E : collaborators) (qs : list quorum) (opportunistic : bool)
    (pi : peer_info) : peer_info :=
  foldl (compute_peers_step E qs) (set_peers pi (peers pi) 0) (seq 0 (length qs)).

(** [std::find] followed by [std::distance]: the first index of [key]. *)
Fixpoint find_index (v : list string) (key : string) : option nat :=
  match v with
  | [] => None
  | k :: v' => if decide (k = key) then Some O else S <$> find_index v' key
  end.

Definition position_in (my_pubkey : string) (q : quorum) : Z :=
  match find_index (validators q) my_pubkey with
  | Some n => Z.of_nat n
  | None => -1
  end.

(** The pubkeys [v[j]], [j] in [conns], that are not excluded. *)
Definition wanted (v : list string) (conns : list Z) (exclude : gset string) : gset string :=
  list_to_set (filter (λ k, k ∉ exclude) (omap (index_Z v) conns)).

(** The remotes the constructor needs to look up. *)
Definition need_remotes (E : collaborators) (qs : list quorum) (pos : list Z)
    (opportunistic : bool) (exclude : gset string) : gset string :=
  ⋃ (imap (λ i q,
        let v := validators q in
        wanted v (quorum_outgoing_conns E (position_at pos i) (len v)) exclude ∪
        (if opportunistic
         then wanted v (quorum_incoming_conns E (position_at pos i) (len v)) exclude
         else ∅)) qs).

(** The entry the constructor's callback stores for a node, if any. *)
Definition remote_of (E : collaborators) (info : service_node_info) : option (string * string) :=
  if negb (is_active info) then None
  else if is_null (pubkey_x25519 info) || bool_decide (quorumnet_port info = 0)
          || bool_decide (public_ip info = 0) then None
  else Some (pubkey_x25519 info,
             "tcp://" +:+ get_ip_string_from_int32 E (public_ip info) +:+ ":" +:+
             pretty (quorumnet_port info)).

(** The constructor of [peer_info] over the quorums [qs]. *)
Definition new_peer_info (E : collaborators) (c : core) (qs : list quorum)
    (opportunistic : bool) (exclude : gset string) : peer_info :=
  let my_pubkey := my_pub c in
  let exclude := exclude ∪ {[ my_pubkey ]} in
  let pos := position_in my_pubkey <$> qs in
  let need := need_remotes E qs pos opportunistic exclude in
  let found := omap (remote_of E)
                 (filter (λ kv, kv.1 ∈ need) (sn_infos (get_service_node_list c))) in
  compute_peers E qs opportunistic
    {| remotes := found; peers := ∅; strong_peers := 0; my_position := pos;
       my_position_count := len (filter (λ p, p ≠ -1) pos) |}.

(** [peer_info::relay_to_peers] *)
Definition relay_to_peers (pi : peer_info) (cmd : string) (data : bt_value) : list sent :=
  (λ peer, if decide (peer.2 = "") then Send peer.1 cmd data optional
           else Send peer.1 cmd data (hint peer.2)) <$> map_to_list (peers pi).

(** ** Blink quorums *)

(** The loop of [get_blink_quorums] over the subquorum indices [qis], with the
    quorums collected so far and the running checksum. *)
Fixpoint get_blink_quorums_loop (E : collaborators) (snl : service_node_list)
    (blink_height : Z) (qis : list Z) (result : list quorum) (local_checksum : Z)
    : outcome (list quorum * Z) :=
  match qis with
  | [] => Ret (result, local_checksum)
  | qi :: rest =>
      let height := quorum_height E blink_height qi in
      if decide (height = 0) then
        Throw (runtime_error "too early in blockchain to create a quorum")
      else
        match get_quorum snl blink height with
        | None => Undefined "result[qi]->validators through a null quorum pointer"
        | Some q =>
            let v := validators q in
            if decide (len v < BLINK_MIN_VOTES E ∨ len v > BLINK_SUBQUORUM_SIZE E) then
              Throw (runtime_error "not enough blink nodes to form a quorum")
            else
              get_blink_quorums_loop E snl blink_height rest (result ++ [q])%list
                (add64 local_checksum (quorum_checksum E v (qi * BLINK_SUBQUORUM_SIZE E)))
        end
  end.

(** [get_blink_quorums].  [input_checksum] is [None] for a null pointer; the
    computed checksum is returned beside the quorums (the source writes it
    through [output_checksum] when that is given). *)
Definition get_blink_quorums (E : collaborators) (blink_height : Z) (snl : service_node_list)
    (input_checksum : option Z) : outcome (list quorum * Z) :=
  r ←! get_blink_quorums_loop E snl blink_height (seqZ 0 NUM_BLINK_QUORUMS) [] 0;
  match input_checksum with
  | Some c =>
      if decide (c ≠ r.2) then
        Throw (runtime_error ("wrong quorum checksum: expected " +:+ pretty r.2 +:+
                              ", received " +:+ pretty c))
      else Ret r
  | None => Ret r
  end.

(** ** Blink transactions *)

(** [blink_tx::signature_status] *)
Inductive signature_status := status_none | status_approved | status_rejected.

#[global] Instance signature_status_eq_dec : EqDecision signature_status.
Proof. solve_decision. Defined.

(** Modelled from the spec: the [blink_tx] class of the absent tx_blink.h.
    A blink tx holds its authorization height, the transaction (here its
    hash) and, per subquorum, one slot per position; a slot is empty or
    holds an approval or rejection with its signature. *)
Record blink_tx := {
  btx_height : Z;
  btx_tx_hash : string;
  btx_signatures : list (list (option (bool * string)));
}.

(** Modelled from the spec: the constructor [blink_tx(height)], which leaves
    every slot empty. *)
Definition new_blink_tx (E : collaborators) (height : Z) : blink_tx :=
  {| btx_height := height; btx_tx_hash := zero_bytes 32;
     btx_signatures := replicate (Z.to_nat NUM_BLINK_QUORUMS)
                         (replicate (Z.to_nat (BLINK_SUBQUORUM_SIZE E)) None) |}.

Definition btx_slot (btx : blink_tx) (subquorum position : Z) : option (option (bool * string)) :=
  row ← index_Z (btx_signatures btx) subquorum; index_Z row position.

(** Modelled from the spec: [get_signature_status(subquorum, position)]. *)
Definition get_signature_status (btx : blink_tx) (subquorum position : Z) : signature_status :=
  match btx_slot btx subquorum position with
  | Some (Some (true, _)) => status_approved
  | Some (Some (false, _)) => status_rejected
  | _ => status_none
  end.

(** Modelled from the spec: [add_prechecked_signature]: "if the slot is
    currently none, store (approval, sig) and return true; otherwise return
    false". *)
Definition add_prechecked_signature (btx : blink_tx) (subquorum position : Z)
    (approval : bool) (sig : string) : blink_tx * bool :=
  match btx_slot btx subquorum position with
  | Some None =>
      ({| btx_height := btx_height btx; btx_tx_hash := btx_tx_hash btx;
          btx_signatures :=
            alter (λ row, <[Z.to_nat position := Some (approval, sig)]> row)
                  (Z.to_nat subquorum) (btx_signatures btx) |}, true)
  | _ => (btx, false)
  end.

Definition slot_is (approval : bool) (s : option (bool * string)) : bool :=
  match s with
  | Some (a, _) => bool_decide (a = approval)
  | None => false
  end.

Definition count_slots (approval : bool) (row : list (option (bool * string))) : Z :=
  len (filter (λ s, slot_is approval s = true) row).

(** Modelled from the spec: "approved iff each subquorum has at least
    BLINK_MIN_VOTES approvals". *)
Definition approved (E : collaborators) (btx : blink_tx) : bool :=
  forallb (λ row, bool_decide (BLINK_MIN_VOTES E ≤ count_slots true row)) (btx_signatures btx).

(** Modelled from the spec: "rejected iff for some subquorum ...
    rejections > size - BLINK_MIN_VOTES". *)
Definition rejected (E : collaborators) (btx : blink_tx) : bool :=
  existsb (λ row, bool_decide (count_slots false row > len row - BLINK_MIN_VOTES E))
          (btx_signatures btx).

(** ** Processing blink signatures *)

(** [pending_signature]: approval, subquorum, subquorum position, signature. *)
Record pending_signature := {
  sig_approval : bool;
  sig_subquorum : Z;      (* uint8_t *)
  sig_position : Z;       (* int *)
  sig_signature : string;
}.

#[global] Instance pending_signature_eq_dec : EqDecision pending_signature.
Proof. solve_decision. Defined.

(** The first loop of [process_blink_signatures]: keeps a signature whose
    position is valid for its subquorum and whose slot is still empty. *)
Definition slot_open (btx : blink_tx) (blink_quorums : list quorum) (s : pending_signature) : bool :=
  let validators := quorum_at blink_quorums (Z.to_nat (sig_subquorum s)) in
  if decide (sig_position s < 0 ∨ sig_position s >= len validators) then false
  else if decide (get_signature_status btx (sig_subquorum s) (sig_position s) ≠ status_none)
  then false else true.

(** The second loop: keeps a signature that verifies against the validator
    at its position. *)
Definition signature_valid (E : collaborators) (btx : blink_tx) (blink_quorums : list quorum)
    (s : pending_signature) : bool :=
  let validators := quorum_at blink_quorums (Z.to_nat (sig_subquorum s)) in
  match index_Z validators (sig_position s) with
  | Some pubkey =>
      check_signature E (blink_hash E (btx_height btx) (btx_tx_hash btx) (sig_approval s))
        pubkey (sig_signature s)
  | None => false
  end.

(** The third loop: stores each signature, dropping one whose slot was filled
    in the meantime. *)
Fixpoint store_signatures (btx : blink_tx) (signatures : list pending_signature)
    : blink_tx * list pending_signature :=
  match signatures with
  | [] => (btx, [])
  | s :: rest =>
      let r := add_prechecked_signature btx (sig_subquorum s) (sig_position s)
                 (sig_approval s) (sig_signature s) in
      let r' := store_signatures r.1 rest in
      (r'.1, if r.2 then s :: r'.2 else r'.2)
  end.

Definition blink_sign_data (btx : blink_tx) (quorum_checksum : Z)
    (signatures : list pending_signature) : bt_dict_t :=
  dict_of_list [
    ("h", bt_int (btx_height btx));
    ("#", bt_string (btx_tx_hash btx));
    ("q", bt_int quorum_checksum);
    ("i", bt_list ((λ s, bt_int (sig_subquorum s)) <$> signatures));
    ("p", bt_list ((λ s, bt_int (sig_position s)) <$> signatures));
    ("r", bt_list ((λ s, bt_bool (sig_approval s)) <$> signatures));
    ("s", bt_list ((λ s, bt_string (sig_signature s)) <$> signatures)) ].

(** The message that reports a verdict to the submitter. *)
Definition verdict_message (reply_pubkey cmd : string) (reply_tag : Z) : sent :=
  Send reply_pubkey cmd (bt_dict (dict_of_list [("!", bt_int reply_tag)])) optional.

(** [process_blink_signatures]: the updated blink tx and the messages sent. *)
Definition process_blink_signatures (E : collaborators) (c : core) (btx : blink_tx)
    (blink_quorums : list quorum) (quorum_checksum : Z) (signatures : list pending_signature)
    (reply_tag : Z) (reply_pubkey : string) (received_from : string)
    : blink_tx * list sent :=
  let signatures := List.filter (slot_open btx blink_quorums) signatures in
  let already_approved := approved E btx in
  let already_rejected := rejected E btx in
  if decide (signatures = []) then (btx, []) else
  let signatures := List.filter (signature_valid E btx blink_quorums) signatures in
  if decide (signatures = []) then (btx, []) else
  let stored := store_signatures btx signatures in
  let btx := stored.1 in
  let signatures := stored.2 in
  let now_approved := if decide (signatures = []) then already_approved else approved E btx in
  let now_rejected := if decide (signatures = []) then already_rejected else rejected E btx in
  if decide (signatures = []) then (btx, []) else
  let relay_exclude : gset string :=
    if decide (received_from = "") then (∅ : gset string)
    else
      let pubkey := get_pubkey_from_x25519 (get_service_node_list c)
                      (x25519_from_string received_from) in
      if is_null pubkey then (∅ : gset string) else ({[ pubkey ]} : gset string) in
  let pinfo := new_peer_info E c blink_quorums true relay_exclude in
  let relayed := relay_to_peers pinfo "blink_sign"
                   (bt_dict (blink_sign_data btx quorum_checksum signatures)) in
  let verdict :=
    if decide (reply_tag ≠ 0 ∧ reply_pubkey ≠ "") then
      if now_approved && negb already_approved then
        [verdict_message reply_pubkey "bl_good" reply_tag]
      else if now_rejected && negb already_rejected then
        [verdict_message reply_pubkey "bl_bad" reply_tag]
      else []
    else [] in
  (btx, (relayed ++ verdict)%list).

(** ** The blink cache of [SNNWrapper] *)

Record blink_metadata := {
  btxptr : option blink_tx;
  pending_sigs : list pending_signature;    (* a set: no duplicates *)
  reply_pubkey : string;
  reply_tag : Z;
}.

Definition empty_metadata : blink_metadata :=
  {| btxptr := None; pending_sigs := []; reply_pubkey := ""; reply_tag := 0 |}.

(** [{ height => { txhash => {blink_tx, sigs, reply} } }] *)
Abbreviation blinks_t := (gmap Z (gmap string blink_metadata)).

Definition blinks_find (blinks : blinks_t) (height : Z) (tx_hash : string)
    : option blink_metadata :=
  umap ← blinks !! height; umap !! tx_hash.

(** [blinks[height][tx_hash] = md] *)
Definition blinks_set (blinks : blinks_t) (height : Z) (tx_hash : string)
    (md : blink_metadata) : blinks_t :=
  <[height := <[tx_hash := md]> (default ∅ (blinks !! height))]> blinks.

(** A message as the transport delivers it. *)
Record message := {
  m_pubkey : string;          (* x25519 pubkey of the sender *)
  m_sn : bool;
  m_data : list bt_value;
}.

Definition nostart (tag : Z) (e : string) : list sent :=
  if decide (tag ≠ 0) then
    [Reply "bl_nostart" (bt_dict (dict_of_list [("!", bt_int tag); ("e", bt_string e)]))]
  else [].

(** The part of [handle_blink] that follows the construction of the quorums
    (from the [peer_info] on). *)
Definition handle_blink_with_quorums (E : collaborators) (c : core) (blinks : blinks_t)
    (m : message) (tag blink_height checksum : Z) (tx_data tx_hash : string)
    (blink_quorums : list quorum) : blinks_t * list sent :=
  let snl := get_service_node_list c in
  let pinfo := new_peer_info E c blink_quorums true
                 {[ get_pubkey_from_x25519 snl (x25519_from_string (m_pubkey m)) ]} in
  if decide (¬ my_position_count pinfo > 0) then
    (blinks, nostart tag "Blink tx relayed to non-blink quorum member")
  else
  match parse_and_validate_tx_from_blob E tx_data with
  | None => (blinks, nostart tag "Failed to parse transaction data")
  | Some tx_hash_actual =>
  if decide (tx_hash ≠ tx_hash_actual) then
    (blinks, nostart tag "Invalid transaction hash")
  else if decide (strong_peers pinfo = 0) then
    (blinks, nostart tag "No quorum peers are currently reachable")
  else
  let btx := {| btx_height := blink_height; btx_tx_hash := tx_hash_actual;
                btx_signatures := btx_signatures (new_blink_tx E blink_height) |} in
  let bl_info := default empty_metadata (blinks_find blinks blink_height tx_hash) in
  if bool_decide (is_Some (btxptr bl_info)) then
    (blinks_set blinks blink_height tx_hash bl_info, [])
  else
  let signatures := pending_sigs bl_info in
  let installed (b : blink_tx) :=
    {| btxptr := Some b; pending_sigs := [];
       reply_pubkey := if decide (tag > 0) then m_pubkey m else reply_pubkey bl_info;
       reply_tag := if decide (tag > 0) then tag else reply_tag bl_info |} in
  let relayed := relay_to_peers pinfo "blink"
    (bt_dict (dict_of_list [("h", bt_int blink_height); ("q", bt_int checksum);
                            ("t", bt_string tx_data); ("#", bt_string tx_hash)])) in
  let approved := add_blink E tx_hash_actual in
  let sig := generate_signature E (blink_hash E blink_height tx_hash_actual approved)
               (my_pub c) (my_key c) in
  let own := omap (λ qi,
      let pos := position_at (my_position pinfo) (Z.to_nat qi) in
      if decide (pos < 0) then None
      else Some {| sig_approval := approved; sig_subquorum := qi;
                   sig_position := pos; sig_signature := sig |})
    (seqZ 0 NUM_BLINK_QUORUMS) in
  let r := process_blink_signatures E c btx blink_quorums checksum (signatures ++ own)%list
             tag (m_pubkey m) "" in
  (blinks_set blinks blink_height tx_hash (installed r.1), (relayed ++ r.2)%list)
  end.

(** The part of [handle_blink] for a blink tx that is not in the cache yet
    (from the construction of the quorums on). *)
Definition handle_blink_new (E : collaborators) (c : core) (blinks : blinks_t)
    (m : message) (tag blink_height : Z) (data : bt_dict_t) (tx_data tx_hash : string)
    : outcome (blinks_t * list sent) :=
  checksum ←! (x ←! dict_at data "q"; get_int 0 u64_max x);
  match get_blink_quorums E blink_height (get_service_node_list c) (Some checksum) with
  | Throw (runtime_error what) =>
      Ret (blinks, nostart tag ("Unable to retrieve blink quorum: " +:+ what))
  | Throw e => Throw e
  | Undefined w => Undefined w
  | Ret (blink_quorums, _) =>
      Ret (handle_blink_with_quorums E c blinks m tag blink_height checksum
             tx_data tx_hash blink_quorums)
  end.

(** [handle_blink]: the cache after the message and the messages sent. *)
Definition handle_blink (E : collaborators) (c : core) (blinks : blinks_t) (m : message)
    : outcome (blinks_t * list sent) :=
  if decide (len (m_data m) ≠ 1) then Ret (blinks, []) else
  data ←! get_dict (default (bt_int 0) (m_data m !! O));
  let tag := get_or 0 u64_max data "!" 0 in
  blink_height ←! (x ←! dict_at data "h"; get_int 0 u64_max x);
  let local_height := get_current_blockchain_height c in
  if decide (blink_height < sub64 local_height 2) then
    Ret (blinks, nostart tag "Invalid blink authorization height")
  else if decide (blink_height > add64 local_height 2) then
    Ret (blinks, nostart tag "Invalid blink authorization height")
  else
  match dict_find data "t" with
  | None => Ret (blinks, nostart tag "No transaction included in blink request")
  | Some t =>
  tx_data ←! get_string t;
  tx_hash ←! (x ←! dict_at data "#"; get_string x);
  if decide (str_size tx_hash ≠ 32) then
    Ret (blinks, nostart tag "Invalid transaction hash")
  else
  match blinks_find blinks blink_height tx_hash with
  | Some md =>
      if bool_decide (is_Some (btxptr md)) then
        if decide (tag ≠ 0 ∧ reply_tag md = 0) then
          Ret (blinks_set blinks blink_height tx_hash
                 {| btxptr := btxptr md; pending_sigs := pending_sigs md;
                    reply_pubkey := m_pubkey m; reply_tag := tag |}, [])
        else Ret (blinks, [])
      else
        handle_blink_new E c blinks m tag blink_height data tx_data tx_hash
  | None => handle_blink_new E c blinks m tag blink_height data tx_data tx_hash
  end
  end.

(** ** Inbound blink signatures *)

(** A value-initialised [pending_signature], as [signatures.resize] makes. *)
Definition default_pending_signature : pending_signature :=
  {| sig_approval := false; sig_subquorum := 0; sig_position := 0;
     sig_signature := zero_bytes 64 |}.

(** The copying loop of [copy_signature_values]: [copy_value] on each pair of
    a signature and a list element, in order. *)
Fixpoint copy_each (copy_value : pending_signature → bt_value → outcome pending_signature)
    (signatures : list pending_signature) (results : list bt_value)
    : outcome (list pending_signature) :=
  match signatures, results with
  | s :: signatures', r :: results' =>
      s' ←! copy_value s r;
      rest ←! copy_each copy_value signatures' results';
      Ret (s' :: rest)
  | _, _ => Ret signatures
  end.

(** [copy_signature_values] *)
Definition copy_signature_values
    (copy_value : pending_signature → bt_value → outcome pending_signature)
    (signatures : list pending_signature) (val : bt_value)
    : outcome (list pending_signature) :=
  results ←! get_list val;
  if decide (signatures = []) then
    copy_each copy_value (replicate (length results) default_pending_signature) results
  else if decide (results = []) then
    Throw (invalid_argument "Invalid blink signature data: no signatures sent")
  else if decide (len signatures ≠ len results) then
    Throw (invalid_argument "Invalid blink signature data: i, p, r, s lengths must be identical")
  else copy_each copy_value signatures results.

Definition with_subquorum (s : pending_signature) (qi : Z) : pending_signature :=
  {| sig_approval := sig_approval s; sig_subquorum := qi;
     sig_position := sig_position s; sig_signature := sig_signature s |}.
Definition with_approval (s : pending_signature) (r : bool) : pending_signature :=
  {| sig_approval := r; sig_subquorum := sig_subquorum s;
     sig_position := sig_position s; sig_signature := sig_signature s |}.
Definition with_position (s : pending_signature) (p : Z) : pending_signature :=
  {| sig_approval := sig_approval s; sig_subquorum := sig_subquorum s;
     sig_position := p; sig_signature := sig_signature s |}.
Definition with_signature (s : pending_signature) (sig : string) : pending_signature :=
  {| sig_approval := sig_approval s; sig_subquorum := sig_subquorum s;
     sig_position := sig_position s; sig_signature := sig |}.

(** The four [copy_value] lambdas of [handle_blink_signature]. *)
Definition copy_i (s : pending_signature) (v : bt_value) : outcome pending_signature :=
  dest ←! get_int 0 u8_max v;
  if decide (dest >= NUM_BLINK_QUORUMS) then
    Throw (invalid_argument
             ("Invalid blink signature data: invalid quorum index " +:+ pretty dest))
  else Ret (with_subquorum s dest).

Definition copy_r (s : pending_signature) (v : bt_value) : outcome pending_signature :=
  dest ←! get_int 0 1 v;
  Ret (with_approval s (bool_decide (dest ≠ 0))).

Definition copy_p (E : collaborators) (s : pending_signature) (v : bt_value)
    : outcome pending_signature :=
  dest ←! get_int int_min int_max v;
  if decide (dest < 0 ∨ dest >= BLINK_SUBQUORUM_SIZE E) then
    Throw (invalid_argument
             ("Invalid blink signature data: invalid quorum position " +:+ pretty dest))
  else Ret (with_position s dest).

Definition copy_s (s : pending_signature) (v : bt_value) : outcome pending_signature :=
  sig_str ←! get_string v;
  if decide (str_size sig_str ≠ 64) then
    Throw (invalid_argument "Invalid blink signature data: invalid signature")
  else if is_null sig_str then
    Throw (invalid_argument "Invalid blink signature data: invalid null signature")
  else Ret (with_signature s sig_str).

(** The locals of [handle_blink_signature] that its parsing loop fills in. *)
Record blink_sign_fields := {
  f_blink_height : Z;
  f_checksum : Z;
  f_tx_hash : string;
  saw_checksum : bool;
  saw_hash : bool;
  saw_i : bool;
  saw_r : bool;
  saw_p : bool;
  saw_s : bool;
  f_signatures : list pending_signature;
}.

(** The locals as declared.  [blink_height], [checksum], [saw_checksum] and
    [saw_hash] have initialisers; [tx_hash], [saw_i], [saw_r], [saw_p] and
    [saw_s] have none, and [hash0], [i0], [r0], [p0], [s0] stand for whatever
    their storage holds. *)
Definition declared_fields (hash0 : string) (i0 r0 p0 s0 : bool) : blink_sign_fields :=
  {| f_blink_height := 0; f_checksum := 0; f_tx_hash := hash0;
     saw_checksum := false; saw_hash := false;
     saw_i := i0; saw_r := r0; saw_p := p0; saw_s := s0;
     f_signatures := [] |}.

Definition set_signatures (f : blink_sign_fields) (which : Ascii.ascii)
    (sigs : list pending_signature) : blink_sign_fields :=
  {| f_blink_height := f_blink_height f; f_checksum := f_checksum f;
     f_tx_hash := f_tx_hash f; saw_checksum := saw_checksum f; saw_hash := saw_hash f;
     saw_i := if decide (which = "i"%char) then true else saw_i f;
     saw_r := if decide (which = "r"%char) then true else saw_r f;
     saw_p := if decide (which = "p"%char) then true else saw_p f;
     saw_s := if decide (which = "s"%char) then true else saw_s f;
     f_signatures := sigs |}.

(** The body of the parsing loop, for one entry of the dictionary. *)
Definition parse_blink_sign_entry (E : collaborators) (f : blink_sign_fields)
    (input : string * bt_value) : outcome blink_sign_fields :=
  let unrecognized :=
    Throw (invalid_argument
             ("Invalid blink signature data: invalid/unrecognized key " +:+ input.1)) in
  match input.1 with
  | String key EmptyString =>
      let val := input.2 in
      if decide (key = "h"%char) then
        h ←! get_int 0 u64_max val;
        Ret {| f_blink_height := h; f_checksum := f_checksum f; f_tx_hash := f_tx_hash f;
               saw_checksum := saw_checksum f; saw_hash := saw_hash f;
               saw_i := saw_i f; saw_r := saw_r f; saw_p := saw_p f; saw_s := saw_s f;
               f_signatures := f_signatures f |}
      else if decide (key = "#"%char) then
        hash_str ←! get_string val;
        if decide (str_size hash_str ≠ 32) then
          Throw (invalid_argument "Invalid blink signature data: invalid tx hash")
        else
          Ret {| f_blink_height := f_blink_height f; f_checksum := f_checksum f;
                 f_tx_hash := hash_str;
                 saw_checksum := saw_checksum f; saw_hash := true;
                 saw_i := saw_i f; saw_r := saw_r f; saw_p := saw_p f; saw_s := saw_s f;
                 f_signatures := f_signatures f |}
      else if decide (key = "q"%char) then
        q ←! get_int 0 u64_max val;
        Ret {| f_blink_height := f_blink_height f; f_checksum := q; f_tx_hash := f_tx_hash f;
               saw_checksum := true; saw_hash := saw_hash f;
               saw_i := saw_i f; saw_r := saw_r f; saw_p := saw_p f; saw_s := saw_s f;
               f_signatures := f_signatures f |}
      else if decide (key = "i"%char) then
        sigs ←! copy_signature_values copy_i (f_signatures f) val;
        Ret (set_signatures f key sigs)
      else if decide (key = "r"%char) then
        sigs ←! copy_signature_values copy_r (f_signatures f) val;
        Ret (set_signatures f key sigs)
      else if decide (key = "p"%char) then
        sigs ←! copy_signature_values (copy_p E) (f_signatures f) val;
        Ret (set_signatures f key sigs)
      else if decide (key = "s"%char) then
        sigs ←! copy_signature_values copy_s (f_signatures f) val;
        Ret (set_signatures f key sigs)
      else unrecognized
  | _ => unrecognized
  end.

(** The parsing loop over the dictionary, in key order. *)
Fixpoint parse_blink_sign (E : collaborators) (f : blink_sign_fields) (data : bt_dict_t)
    : outcome blink_sign_fields :=
  match data with
  | [] => Ret f
  | input :: rest => f' ←! parse_blink_sign_entry E f input; parse_blink_sign E f' rest
  end.

(** [delayed.insert(sig)] into the set of pending signatures. *)
Definition insert_pending (delayed : list pending_signature) (s : pending_signature)
    : list pending_signature :=
  if decide (s ∈ delayed) then delayed else (delayed ++ [s])%list.

(** [handle_blink_signature].  [hash0], [i0], [r0], [p0], [s0] are the
    indeterminate initial contents of the uninitialised locals. *)
Definition handle_blink_signature (E : collaborators) (c : core) (blinks : blinks_t)
    (hash0 : string) (i0 r0 p0 s0 : bool) (m : message)
    : outcome (blinks_t * list sent) :=
  if decide (len (m_data m) ≠ 1) then
    Throw (runtime_error ("Rejecting blink signature: expected one data entry not " +:+
                          pretty (len (m_data m))))
  else
  data ←! get_dict (default (bt_int 0) (m_data m !! O));
  f ←! parse_blink_sign E (declared_fields hash0 i0 r0 p0 s0) data;
  if negb (bool_decide (f_blink_height f ≠ 0) && saw_hash f && saw_checksum f &&
           saw_i f && saw_r f && saw_p f && saw_s f) then
    Throw (invalid_argument "Invalid blink signature data: missing required fields")
  else
  q ←! get_blink_quorums E (f_blink_height f) (get_service_node_list c) (Some (f_checksum f));
  let blink_quorums := q.1 in
  match blinks_find blinks (f_blink_height f) (f_tx_hash f) with
  | Some {| btxptr := Some btx; pending_sigs := ps; reply_pubkey := rp; reply_tag := rt |} =>
      let r := process_blink_signatures E c btx blink_quorums (f_checksum f)
                 (f_signatures f) rt rp (m_pubkey m) in
      Ret (blinks_set blinks (f_blink_height f) (f_tx_hash f)
             {| btxptr := Some r.1; pending_sigs := ps; reply_pubkey := rp; reply_tag := rt |},
           r.2)
  | found =>
      let md := default empty_metadata found in
      Ret (blinks_set blinks (f_blink_height f) (f_tx_hash f)
             {| btxptr := btxptr md;
                pending_sigs := foldl insert_pending (pending_sigs md) (f_signatures f);
                reply_pubkey := reply_pubkey md; reply_tag := reply_tag md |},
           [])
  end.

(** ** The submitter's pending blink results *)

(** [cryptonote::blink_result] *)
Module blink_result.
Inductive t := accepted | rejected | timeout.
End blink_result.

Abbreviation blink_response := (blink_result.t * string)%type.

(** [blink_result_data].  [promise] is [None] until the promise is given its
    value; time points are ticks of the clock. *)
Record blink_result_data := {
  brd_hash : string;
  promise : option blink_response;
  expiry : Z;
  remote_count : Z;       (* int *)
  nostart_count : Z;      (* std::atomic<int> *)
  bad_count : Z;
  good_count : Z;
}.

(** [pending_blink_results], by tag. *)
Abbreviation pending_t := (gmap Z blink_result_data).

Definition MAX_ACTIVE_PROMISES : Z := 1000.

(** 30 s in ticks of the clock (nanoseconds). *)
Definition thirty_seconds : Z := 30000000000.

(** A promise of an earlier submission given its value: the tag of the entry
    and the value its future receives. *)
Abbreviation fulfilled_t := (list (Z * blink_response)).

(** The condition under which the sweep of [send_blink] resolves and erases
    an entry. *)
Definition swept (now : Z) (brd : blink_result_data) : Prop := expiry brd >= now.

#[global] Instance swept_dec now brd : Decision (swept now brd).
Proof. unfold swept. apply _. Defined.

(** The sweep of [send_blink] over the table: the entries that stay, the
    promises it resolves, and whether an entry that stays has the hash of
    the new transaction. *)
Definition sweep (now : Z) (tx_hash : string) (pending : pending_t)
    : pending_t * fulfilled_t * bool :=
  let erased := filter (λ kv, swept now kv.2) pending in
  let kept := filter (λ kv, ¬ swept now kv.2) pending in
  let resolved :=
    omap (λ kv : Z * blink_result_data,
            match promise kv.2 with
            | None => Some (kv.1, (blink_result.timeout, "Blink quorum timeout"))
            | Some _ => None      (* std::future_error, ignored *)
            end) (map_to_list erased) in
  let found := existsb (λ kv : Z * blink_result_data, bool_decide (brd_hash kv.2 = tx_hash))
                 (map_to_list kept) in
  (kept, resolved, found).

(** What the submitter's random number generator yields during one call: the
    successive values of [tools::rng()] and the permutation [std::shuffle]
    applies. *)
Record randomness := {
  draws : list Z;                       (* uint64_t values *)
  shuffle : list nat → list nat;
}.

(** The loop that chooses the tag: the first draw that is non-zero and not in
    use.  On draws without such a value the loop does not end. *)
Definition choose_tag (rng_draws : list Z) (pending : pending_t) : option Z :=
  List.find (λ t, negb (bool_decide (t = 0 ∨ is_Some (pending !! t)))) rng_draws.

(** What a call of [send_blink] leaves behind. *)
Record send_blink_result := {
  sb_pending : pending_t;                 (* the table after the call *)
  sb_fulfilled : fulfilled_t;             (* promises of earlier entries resolved *)
  sb_sent : list sent;
  sb_future : outcome (option blink_response);
    (* the value of the returned future, [None] while it is pending; or the
       exception that leaves the function *)
}.

(** The second half of [send_blink], for a submission stored under
    [blink_tag]: choosing the entry nodes and sending the blink. *)
Definition send_to_quorum (E : collaborators) (c : core) (rnd : randomness)
    (pending : pending_t) (fulfilled : fulfilled_t) (blink_tag : Z)
    (tx_hash tx_blob : string) : send_blink_result :=
  let height := get_current_blockchain_height c in
  let snl := get_service_node_list c in
  match get_blink_quorums E height snl None with
  | Throw e =>
      {| sb_pending := pending; sb_fulfilled := fulfilled; sb_sent := [];
         sb_future := Throw e |}
  | Undefined w =>
      {| sb_pending := pending; sb_fulfilled := fulfilled; sb_sent := [];
         sb_future := Undefined w |}
  | Ret (quorums, checksum) =>
      let candidates : gset string := list_to_set (quorums ≫= validators) in
      let remotes :=
        omap (λ pubkey, info ← sn_infos snl !! pubkey; remote_of E info)
             (elements candidates) in
      let indices := take 4 (shuffle rnd (seq 0 (length remotes))) in
      let data := bt_dict (dict_of_list [
        ("!", bt_int blink_tag); ("#", bt_string tx_hash); ("h", bt_int height);
        ("q", bt_int checksum); ("t", bt_string tx_blob) ]) in
      {| sb_pending :=
           alter (λ brd, {| brd_hash := brd_hash brd; promise := promise brd;
                            expiry := expiry brd; remote_count := len indices;
                            nostart_count := nostart_count brd;
                            bad_count := bad_count brd; good_count := good_count brd |})
                 blink_tag pending;
         sb_fulfilled := fulfilled;
         sb_sent := omap (λ i, r ← remotes !! i; Some (Send r.1 "blink" data (hint r.2)))
                         indices;
         sb_future := Ret None |}
  end.

(** [send_blink].  [now] is the clock at the sweep and [now_created] the
    clock when the new entry is made. *)
Definition send_blink (E : collaborators) (c : core) (rnd : randomness)
    (now now_created : Z) (pending : pending_t) (tx_blob : string) : send_blink_result :=
  match parse_and_validate_tx_from_blob E tx_blob with
  | None =>
      {| sb_pending := pending; sb_fulfilled := []; sb_sent := [];
         sb_future := Ret (Some (blink_result.rejected, "Could not parse transaction data")) |}
  | Some tx_hash =>
      let '(kept, resolved, found) := sweep now tx_hash pending in
      if found then
        {| sb_pending := kept; sb_fulfilled := resolved; sb_sent := [];
           sb_future :=
             Ret (Some (blink_result.rejected, "Transaction was already submitted")) |}
      else if decide (Z.of_nat (size kept) >= MAX_ACTIVE_PROMISES) then
        {| sb_pending := kept; sb_fulfilled := resolved; sb_sent := [];
           sb_future := Ret (Some (blink_result.rejected, "Node is busy, try again later")) |}
      else
        match choose_tag (draws rnd) kept with
        | None =>
            {| sb_pending := kept; sb_fulfilled := resolved; sb_sent := [];
               sb_future := Undefined "the tag loop does not end on these draws" |}
        | Some blink_tag =>
            let brd := {| brd_hash := tx_hash; promise := None;
                          expiry := now_created + thirty_seconds; remote_count := 0;
                          nostart_count := 0; bad_count := 0; good_count := 0 |} in
            send_to_quorum E c rnd (<[blink_tag := brd]> kept) resolved blink_tag
              tx_hash tx_blob
        end
  end.

(** ** Responses of the entry nodes *)

Definition bump (nostart bad good : bool) (pbr : blink_result_data) : blink_result_data :=
  {| brd_hash := brd_hash pbr; promise := promise pbr; expiry := expiry pbr;
     remote_count := remote_count pbr;
     nostart_count := if nostart then wrap_int (nostart_count pbr + 1) else nostart_count pbr;
     bad_count := if nostart then bad_count pbr
                  else if bad then wrap_int (bad_count pbr + 1) else bad_count pbr;
     good_count := if nostart then good_count pbr
                   else if bad then good_count pbr else wrap_int (good_count pbr + 1) |}.

(** The counter [common_blink_response] selects. *)
Definition selected_count (nostart bad good : bool) (pbr : blink_result_data) : Z :=
  if nostart then nostart_count pbr else if bad then bad_count pbr else good_count pbr.

(** [common_blink_response]: the table after the response and the promise it
    resolved, if any. *)
Definition common_blink_response (tag : Z) (res : blink_result.t) (msg : string)
    (nostart bad good : bool) (pending : pending_t) : pending_t * fulfilled_t :=
  match pending !! tag with
  | None => (pending, [])
  | Some pbr =>
      let pbr' := bump nostart bad good pbr in
      let count_same := selected_count nostart bad good pbr' in
      if decide (count_same > Z.quot (remote_count pbr) 2) then
        match promise pbr with
        | None => (delete tag pending, [(tag, (res, msg))])
        | Some _ => (<[tag := pbr']> pending, [])   (* std::future_error, ignored *)
        end
      else (<[tag := pbr']> pending, [])
  end.

(** [handle_blink_not_started] *)
Definition handle_blink_not_started (m : message) (pending : pending_t)
    : outcome (pending_t * fulfilled_t) :=
  if decide (len (m_data m) ≠ 1) then Ret (pending, []) else
  data ←! get_dict (default (bt_int 0) (m_data m !! O));
  tag ←! (x ←! dict_at data "!"; get_int 0 u64_max x);
  error ←! (x ←! dict_at data "e"; get_string x);
  Ret (common_blink_response tag blink_result.rejected error true false false pending).

(** [handle_blink_failure] *)
Definition handle_blink_failure (m : message) (pending : pending_t)
    : outcome (pending_t * fulfilled_t) :=
  if decide (len (m_data m) ≠ 1) then Ret (pending, []) else
  data ←! get_dict (default (bt_int 0) (m_data m !! O));
  tag ←! (x ←! dict_at data "!"; get_int 0 u64_max x);
  Ret (common_blink_response tag blink_result.rejected "Transaction rejected by quorum"
         false true false pending).

(** [handle_blink_success] *)
Definition handle_blink_success (m : message) (pending : pending_t)
    : outcome (pending_t * fulfilled_t) :=
  if decide (len (m_data m) ≠ 1) then Ret (pending, []) else
  data ←! get_dict (default (bt_int 0) (m_data m !! O));
  tag ←! (x ←! dict_at data "!"; get_int 0 u64_max x);
  Ret (common_blink_response tag blink_result.accepted "" false false true pending).

(** ** Predicates and notions used in the statements *)

(** What [deserialize_vote] yields from the serialization of [v]: every field
    of [v] that the function assigns, and the contents of [uninit] in the
    others. *)
Definition restored (uninit v : quorum_vote_t) : quorum_vote_t :=
  {| version := version v; type := type v; block_height := block_height v;
     group := group v; index_in_group := index_in_group v; signature := signature v;
     state_change_worker_index :=
       if decide (type v = checkpointing) then state_change_worker_index uninit
       else state_change_worker_index v;
     state_change_state := state_change_state uninit;
     checkpoint_block_hash :=
       if decide (type v = checkpointing) then checkpoint_block_hash v
       else checkpoint_block_hash uninit |}.

(** The subquorum sizes [get_blink_quorums] accepts. *)
Definition size_in_range (E : collaborators) (q : quorum) : Prop :=
  BLINK_MIN_VOTES E ≤ len (validators q) ≤ BLINK_SUBQUORUM_SIZE E.

(** The checksum [get_blink_quorums] computes over Q and Q': the sum modulo
    2^64 of the subquorum checksums, each offset by its index times
    [BLINK_SUBQUORUM_SIZE]. *)
Definition blink_checksum (E : collaborators) (q0 q1 : quorum) : Z :=
  add64 (add64 0 (quorum_checksum E (validators q0) (0 * BLINK_SUBQUORUM_SIZE E)))
        (quorum_checksum E (validators q1) (1 * BLINK_SUBQUORUM_SIZE E)).

(** The conditions under which [get_blink_quorums] throws, given the quorums
    [q0], [q1] the directory holds for the two subquorums. *)
Definition quorums_refused (E : collaborators) (blink_height : Z) (q0 q1 : quorum)
    (checksum : Z) : Prop :=
  quorum_height E blink_height 0 = 0 ∨ quorum_height E blink_height 1 = 0 ∨
  ¬ size_in_range E q0 ∨ ¬ size_in_range E q1 ∨
  checksum ≠ blink_checksum E q0 q1.

(** An inbound blink message that reaches the construction of the quorums in
    [handle_blink]: one dictionary with a height within the accepted range,
    the transaction, a 32-byte hash that is not in the cache with a blink tx
    yet, and a checksum. *)
Definition reaches_quorums (c : core) (blinks : blinks_t) (m : message)
    (tag blink_height checksum : Z) (tx_data tx_hash : string) : Prop :=
  ∃ data,
    m_data m = [bt_dict data] ∧
    tag = get_or 0 u64_max data "!" 0 ∧
    dict_find data "h" = Some (bt_int blink_height) ∧ 0 ≤ blink_height ≤ u64_max ∧
    ¬ blink_height < sub64 (get_current_blockchain_height c) 2 ∧
    ¬ blink_height > add64 (get_current_blockchain_height c) 2 ∧
    dict_find data "t" = Some (bt_string tx_data) ∧
    dict_find data "#" = Some (bt_string tx_hash) ∧ str_size tx_hash = 32 ∧
    (∀ md, blinks_find blinks blink_height tx_hash = Some md → btxptr md = None) ∧
    dict_find data "q" = Some (bt_int checksum) ∧ 0 ≤ checksum ≤ u64_max.

(** The [bl_nostart] reply with tag [tag] and reason [e]. *)
Definition bl_nostart (tag : Z) (e : string) : sent :=
  Reply "bl_nostart" (bt_dict [("!", bt_int tag); ("e", bt_string e)]).

(** [x] is in [peers] with a connection address: a strong peer, to which
    [relay_to_peers] sends with a connection hint. *)
Definition strong_peer (x : string) (pi : peer_info) : Prop :=
  ∃ addr, peers pi !! x = Some addr ∧ addr ≠ "".

(** Every remote has a connection address (the constructor stores
    ["tcp://" + ip + ":" + port]). *)
Definition remotes_addressed (pi : peer_info) : Prop :=
  ∀ pubkey x addr, remotes pi !! pubkey = Some (x, addr) → addr ≠ "".

(** Every peer is the remote of one of the validators [v]. *)
Definition peers_among (v : list string) (pi : peer_info) : Prop :=
  ∀ x, is_Some (peers pi !! x) →
       ∃ pubkey addr, pubkey ∈ v ∧ remotes pi !! pubkey = Some (x, addr).

(** The three responses an entry node sends to the submitter. *)
Inductive response :=
| bl_nostart_response (e : string)
| bl_bad_response
| bl_good_response.

(** The response as a message from [sender] carrying [tag]. *)
Definition response_message (sender : string) (r : response) (tag : Z) : message :=
  {| m_pubkey := sender; m_sn := true;
     m_data := [bt_dict (match r with
                         | bl_nostart_response e => [("!", bt_int tag); ("e", bt_string e)]
                         | _ => [("!", bt_int tag)]
                         end)] |}.

(** The handler registered for the response. *)
Definition handle_response (r : response) : message → pending_t → outcome (pending_t * fulfilled_t) :=
  match r with
  | bl_nostart_response _ => handle_blink_not_started
  | bl_bad_response => handle_blink_failure
  | bl_good_response => handle_blink_success
  end.

(** The result pair the response resolves the promise with. *)
Definition response_result (r : response) : blink_response :=
  match r with
  | bl_nostart_response e => (blink_result.rejected, e)
  | bl_bad_response => (blink_result.rejected, "Transaction rejected by quorum")
  | bl_good_response => (blink_result.accepted, "")
  end.

(** The counter of the response, and the entry with that counter set. *)
Definition response_count (r : response) (pbr : blink_result_data) : Z :=
  match r with
  | bl_nostart_response _ => nostart_count pbr
  | bl_bad_response => bad_count pbr
  | bl_good_response => good_count pbr
  end.

Definition with_response_count (r : response) (n : Z) (pbr : blink_result_data)
    : blink_result_data :=
  {| brd_hash := brd_hash pbr; promise := promise pbr; expiry := expiry pbr;
     remote_count := remote_count pbr;
     nostart_count := match r with bl_nostart_response _ => n | _ => nostart_count pbr end;
     bad_count := match r with bl_bad_response => n | _ => bad_count pbr end;
     good_count := match r with bl_good_response => n | _ => good_count pbr end |}.

(** The value the sweep gives a promise. *)
Definition timed_out : blink_response := (blink_result.timeout, "Blink quorum timeout").

(** Whether a sent message is the command [cmd]. *)
Definition is_cmd (cmd : string) (s : sent) : bool :=
  match s with
  | Send _ c _ _ => bool_decide (c = cmd)
  | Reply _ _ => false
  end.

(** The verdicts ([bl_good], [bl_bad]) among the messages sent. *)
Definition verdicts (out : list sent) : list sent :=
  List.filter (λ s, is_cmd "bl_good" s || is_cmd "bl_bad" s) out.

(** The arguments of one call of [process_blink_signatures] on a blink tx. *)
Record call := {
  call_quorums : list quorum;
  call_checksum : Z;
  call_signatures : list pending_signature;
  call_reply_tag : Z;
  call_reply_pubkey : string;
  call_received_from : string;
}.

(** Where a call of [process_blink_signatures] stands between its lock
    regions, with the locals that are live there. *)
Inductive progress :=
| at_entry
    (* before [btx.shared_lock()] *)
| checked (signatures : list pending_signature) (already_approved already_rejected : bool)
    (* the block under the shared lock is done, signatures are left *)
| verified (signatures : list pending_signature) (already_approved already_rejected : bool)
    (* the signature checks are done, signatures are left *)
| stored (signatures : list pending_signature)
    (already_approved already_rejected now_approved now_rejected : bool)
    (* the block under the unique lock is done *)
| returned.

(** One step of a call [k] on the shared blink tx: the code from where the
    call stands to the end of its next lock region, or to its return.  The
    block under the shared lock only reads the blink tx, the signature checks
    read its height and hash, which no call changes, and the block under the
    unique lock excludes every other block; so the blocks of concurrent calls
    take effect one at a time, in some order. *)
Definition call_step (E : collaborators) (c : core) (k : call) (btx : blink_tx)
    (p : progress) : blink_tx * progress * list sent :=
  match p with
  | at_entry =>
      let signatures := List.filter (slot_open btx (call_quorums k)) (call_signatures k) in
      let already_approved := approved E btx in
      let already_rejected := rejected E btx in
      if decide (signatures = []) then (btx, returned, [])
      else (btx, checked signatures already_approved already_rejected, [])
  | checked signatures already_approved already_rejected =>
      let signatures := List.filter (signature_valid E btx (call_quorums k)) signatures in
      if decide (signatures = []) then (btx, returned, [])
      else (btx, verified signatures already_approved already_rejected, [])
  | verified signatures already_approved already_rejected =>
      let added := store_signatures btx signatures in
      let now_approved :=
        if decide (added.2 = []) then already_approved else approved E added.1 in
      let now_rejected :=
        if decide (added.2 = []) then already_rejected else rejected E added.1 in
      (added.1, stored added.2 already_approved already_rejected now_approved now_rejected, [])
  | stored signatures already_approved already_rejected now_approved now_rejected =>
      if decide (signatures = []) then (btx, returned, []) else
      let relay_exclude : gset string :=
        if decide (call_received_from k = "") then (∅ : gset string)
        else
          let pubkey := get_pubkey_from_x25519 (get_service_node_list c)
                          (x25519_from_string (call_received_from k)) in
          if is_null pubkey then (∅ : gset string) else ({[ pubkey ]} : gset string) in
      let pinfo := new_peer_info E c (call_quorums k) true relay_exclude in
      let relayed := relay_to_peers pinfo "blink_sign"
                       (bt_dict (blink_sign_data btx (call_checksum k) signatures)) in
      let verdict :=
        if decide (call_reply_tag k ≠ 0 ∧ call_reply_pubkey k ≠ "") then
          if now_approved && negb already_approved then
            [verdict_message (call_reply_pubkey k) "bl_good" (call_reply_tag k)]
          else if now_rejected && negb already_rejected then
            [verdict_message (call_reply_pubkey k) "bl_bad" (call_reply_tag k)]
          else []
        else [] in
      (btx, returned, (relayed ++ verdict)%list)
  | returned => (btx, returned, [])
  end.

(** Calls of [process_blink_signatures] running on one blink tx: the blink
    tx, each call with its progress, and the messages sent so far. *)
Record running := {
  r_btx : blink_tx;
  r_calls : list (call * progress);
  r_sent : list sent;
}.

Definition start (btx : blink_tx) (calls : list call) : running :=
  {| r_btx := btx; r_calls := (λ k, (k, at_entry)) <$> calls; r_sent := [] |}.

(** The call at index [i] takes its next step. *)
Definition schedule_step (E : collaborators) (c : core) (s : running) (i : nat) : running :=
  match r_calls s !! i with
  | None => s
  | Some (k, p) =>
      let r := call_step E c k (r_btx s) p in
      {| r_btx := r.1.1; r_calls := <[i := (k, r.1.2)]> (r_calls s);
         r_sent := (r_sent s ++ r.2)%list |}
  end.

(** The calls take their steps in the order [schedule] gives. *)
Definition run_schedule (E : collaborators) (c : core) (s : running) (schedule : list nat)
    : running :=
  foldl (schedule_step E c) s schedule.

(** The calls with their shared-lock blocks, signature checks, unique-lock
    blocks and sends interleaved, and the calls one after the other. *)
Definition interleaved : list nat := [0; 1; 0; 1; 0; 1; 0; 1]%nat.
Definition in_turn : list nat := [0; 0; 0; 0; 1; 1; 1; 1]%nat.

(** The verdict of a blink tx is settled. *)
Definition decided (E : collaborators) (btx : blink_tx) : bool :=
  approved E btx || rejected E btx.

(** What holds of every table the submitter can reach: no stored promise has
    a value, at most four entry nodes were contacted, and no counter has
    passed half of that number. *)
Definition pending_wf (pending : pending_t) : Prop :=
  ∀ tag pbr, pending !! tag = Some pbr →
    promise pbr = None ∧ 0 ≤ remote_count pbr ≤ 4 ∧
    0 ≤ nostart_count pbr ≤ Z.quot (remote_count pbr) 2 ∧
    0 ≤ bad_count pbr ≤ Z.quot (remote_count pbr) 2 ∧
    0 ≤ good_count pbr ≤ Z.quot (remote_count pbr) 2.


(** ** A small concrete network, for the examples *)

(** A string of [n] copies of the byte [c]. *)
Fixpoint bytes (n : nat) (c : Ascii.ascii) : string :=
  match n with O => EmptyString | S n' => String c (bytes n' c) end.

(** The 32-byte key made of the byte [c]. *)
Definition key32 (c : Ascii.ascii) : string := bytes 32 c.

(** Stand-ins for the absent collaborators: a ring as connection matrix
    (each member sends to its successor and hears from its predecessor),
    quorums of at most 10 with 7 votes needed (the sizes of the spec's
    scenarios), a quorum schedule of interval 5 and lag 35 that has no
    quorum before the lag, a positional checksum, and a signature scheme in
    which the signature of [hash] by [pub] is [pub] followed by [hash]. *)
Definition sample_E : collaborators :=
  {| quorum_outgoing_conns := λ index size,
       if decide (0 ≤ index < size) then [(index + 1) mod size] else [];
     quorum_incoming_conns := λ index size,
       if decide (0 ≤ index < size) then [(index - 1) mod size] else [];
     BLINK_SUBQUORUM_SIZE := 10;
     BLINK_MIN_VOTES := 7;
     quorum_height := λ h qi,
       let bh := h - h mod 5 - 35 + qi * 5 in if decide (bh < 0) then 0 else bh;
     quorum_checksum := λ v offset,
       wrap64 (foldr Z.add 0
                 (imap (λ i k, str_size k * (offset + Z.of_nat i + 1) +
                               match k with String c _ => Z.of_nat (nat_of_ascii c)
                                          | EmptyString => 0 end) v));
     blink_hash := λ height tx_hash approval,
       String (if approval then "A"%char else "R"%char)
              (String.substring 1 31 tx_hash);
     check_signature := λ hash pubkey sig, bool_decide (sig = pubkey +:+ hash);
     generate_signature := λ hash pub sec, pub +:+ hash;
     parse_and_validate_tx_from_blob := λ blob,
       if decide (blob = "") then None
       else Some (String.substring 0 32 (blob +:+ zero_bytes 32));
     add_blink := λ _, true;
     get_ip_string_from_int32 := λ ip, pretty ip |}.

(** Sixteen service nodes A..P with x25519 keys a..p. *)
Definition sample_nodes : list (string * service_node_info) :=
  (λ cx : Ascii.ascii * Ascii.ascii * Z,
     (key32 cx.1.1, {| is_active := true; pubkey_x25519 := key32 cx.1.2;
                       public_ip := cx.2; quorumnet_port := 22020 |}))
  <$> [("A", "a", 1); ("B", "b", 2); ("C", "c", 3); ("D", "d", 4);
       ("E", "e", 5); ("F", "f", 6); ("G", "g", 7); ("H", "h", 8);
       ("I", "i", 9); ("J", "j", 10); ("K", "k", 11); ("L", "l", 12);
       ("M", "m", 13); ("N", "n", 14); ("O", "o", 15); ("P", "p", 16)]%char.

(** Q = [A..H] and Q' = [I..P]. *)
Definition sample_Q : quorum :=
  {| validators := key32 <$> ["A"; "B"; "C"; "D"; "E"; "F"; "G"; "H"]%char |}.
Definition sample_Q' : quorum :=
  {| validators := key32 <$> ["I"; "J"; "K"; "L"; "M"; "N"; "O"; "P"]%char |}.

(** Overlapping subquorums: Q with J in place of E, and Q' with F in place
    of I. *)
Definition sample_Q_with_J : quorum :=
  {| validators := key32 <$> ["A"; "B"; "C"; "D"; "J"; "F"; "G"; "H"]%char |}.
Definition sample_Q'_with_F : quorum :=
  {| validators := key32 <$> ["F"; "J"; "K"; "L"; "M"; "N"; "O"; "P"]%char |}.

(** The remotes of all sixteen nodes, as the constructor's callback stores
    them. *)
Definition sample_remotes : gmap string (string * string) :=
  omap (remote_of sample_E) (list_to_map sample_nodes).

(** The [peer_info] of the node [me] over Q and Q' before [compute_peers]
    runs, with every node's connection details known. *)
Definition sample_peer_info (me : string) : peer_info :=
  {| remotes := sample_remotes; peers := ∅; strong_peers := 0;
     my_position := position_in me <$> [sample_Q; sample_Q'];
     my_position_count :=
       len (filter (λ p, p ≠ -1) (position_in me <$> [sample_Q; sample_Q'])) |}.

(** A directory in which the blink quorum is Q at the heights that are
    multiples of 10 and Q' at the others. *)
Definition sample_snl : service_node_list :=
  {| get_quorum := λ t height,
       if decide (height mod 10 = 0) then Some sample_Q else Some sample_Q';
     sn_infos := list_to_map sample_nodes;
     get_pubkey_from_x25519 := λ x,
       default (zero_bytes 32)
         (fst <$> List.find (λ kv : string * service_node_info,
                               bool_decide (pubkey_x25519 kv.2 = x)) sample_nodes) |}.

(** A directory that has no quorum at any height. *)
Definition quorumless_snl : service_node_list :=
  {| get_quorum := λ _ _, None;
     sn_infos := list_to_map sample_nodes;
     get_pubkey_from_x25519 := get_pubkey_from_x25519 sample_snl |}.

(** The node [me] at chain height [height]. *)
Definition sample_core (me : string) (height : Z) (snl : service_node_list) : core :=
  {| get_current_blockchain_height := height; my_pub := me;
     my_key := bytes 32 "k"; get_service_node_list := snl |}.

(** A blink submission as a client sends it. *)
Definition sample_tx_blob : string := "a blink transaction".
Definition sample_tx_hash : string :=
  String.substring 0 32 (sample_tx_blob +:+ zero_bytes 32).

Definition blink_data (tag blink_height checksum : Z) : bt_dict_t :=
  dict_of_list [
    ("!", bt_int tag); ("#", bt_string sample_tx_hash); ("h", bt_int blink_height);
    ("q", bt_int checksum); ("t", bt_string sample_tx_blob) ].

Definition blink_message (sender : string) (tag blink_height checksum : Z) : message :=
  {| m_pubkey := sender; m_sn := false;
     m_data := [bt_dict (blink_data tag blink_height checksum)] |}.

(** A pending submission sent to four entry nodes, two of which have
    answered [bl_good]. *)
Definition sample_pending (expires : Z) : blink_result_data :=
  {| brd_hash := sample_tx_hash; promise := None; expiry := expires; remote_count := 4;
     nostart_count := 0; bad_count := 0; good_count := 2 |}.

(** The submitter's randomness in the examples: the draws 0 (refused), 5 and
    9, and no reordering. *)
Definition sample_rnd : randomness := {| draws := [0; 5; 9]; shuffle := λ l, l |}.

(** A [blink_sign] message that carries the lists [i], [p] and [r] and no
    list [s]. *)
Definition blink_sign_without_s : message :=
  {| m_pubkey := key32 "b"; m_sn := true;
     m_data := [bt_dict (dict_of_list [
       ("h", bt_int 100); ("#", bt_string sample_tx_hash);
       ("q", bt_int (blink_checksum sample_E sample_Q' sample_Q));
       ("i", bt_list [bt_int 0]); ("p", bt_list [bt_int 3]);
       ("r", bt_list [bt_int 1]) ])] |}.

(** The blink quorums of the examples at height 100, a fresh blink tx for
    the sample transaction, and the approval of the validator at position
    [pos] of subquorum [qi]. *)
Definition sample_quorums : list quorum := [sample_Q'; sample_Q].

Definition sample_btx : blink_tx :=
  {| btx_height := 100; btx_tx_hash := sample_tx_hash;
     btx_signatures := btx_signatures (new_blink_tx sample_E 100) |}.

Definition approval_by (qi pos : Z) : pending_signature :=
  {| sig_approval := true; sig_subquorum := qi; sig_position := pos;
     sig_signature :=
       generate_signature sample_E (blink_hash sample_E 100 sample_tx_hash true)
         (default "" (index_Z (quorum_at sample_quorums (Z.to_nat qi)) pos)) "" |}.

(** The blink tx with seven approvals in the first subquorum and six in the
    second: one approval short of being approved. *)
Definition sample_btx13 : blink_tx :=
  (store_signatures sample_btx
     ((approval_by 0 <$> seqZ 0 7) ++ (approval_by 1 <$> seqZ 0 6))%list).1.

(** ** Connection lookup for the transport *)

(** [get_connect_string]: the address at which the node with the x25519 key
    [x25519_pub] listens, empty when none is known.
    [get_service_node_list_state] of one pubkey yields the state of the
    registered node, if there is one. *)
Definition get_connect_string (E : collaborators) (sn_list : service_node_list)
    (x25519_pub : string) : string :=
  if is_null x25519_pub then ""
  else
    let pubkey := get_pubkey_from_x25519 sn_list x25519_pub in
    if is_null pubkey then ""
    else
      match sn_infos sn_list !! pubkey with
      | None => ""
      | Some info =>
          if bool_decide (public_ip info = 0) || bool_decide (quorumnet_port info = 0) then ""
          else "tcp://" +:+ get_ip_string_from_int32 E (public_ip info) +:+ ":" +:+
               pretty (quorumnet_port info)
      end.

(** The [peer_lookup] callback that [new_snnwrapper] hands to the transport. *)
Definition peer_lookup (E : collaborators) (sn_list : service_node_list)
    (x25519_pub : string) : string :=
  get_connect_string E sn_list (x25519_from_string x25519_pub).

(** The two answers the [allow] callback of [new_snnwrapper] gives. *)
Inductive allow := allow_service_node | allow_client.

(** The [allow] callback: an incoming connection is authenticated as a
    service node when its x25519 key belongs to one, and as a client
    otherwise. *)
Definition allow_connection (sn_list : service_node_list) (ip x25519_pubkey_str : string)
    : allow :=
  let x25519_pubkey := x25519_from_string x25519_pubkey_str in
  let pubkey := get_pubkey_from_x25519 sn_list x25519_pubkey in
  if negb (is_null pubkey) then allow_service_node else allow_client.

(** ** Relaying and receiving votes *)

(** [cryptonote::vote_verification_context], as far as it is read. *)
Record vote_verification_context := {
  m_verification_failed : bool;
  m_added_to_pool : bool;
}.

(** Code of this repository that the vote path calls and that is not among
    the sources (service_node_rules.h, cryptonote_core.h), taken as
    parameters of the model. *)
Record voting := {
  min_votes_for_quorum_type : quorum_type → Z;
  add_service_node_vote : quorum_vote_t → vote_verification_context;
}.

(** The body of the loop of [relay_votes], for one vote: the messages it
    sends. *)
Definition relay_vote (E : collaborators) (V : voting) (c : core) (vote : quorum_vote_t)
    : list sent :=
  match get_quorum (get_service_node_list c) (type vote) (block_height vote) with
  | None => []
  | Some quorum =>
      let quorum_voters := validators quorum in
      if decide (len quorum_voters < min_votes_for_quorum_type V (type vote)) then []
      else
        let pinfo := new_peer_info E c [quorum] true ∅ in
        if decide (my_position_count pinfo = 0) then []
        else relay_to_peers pinfo "vote" (bt_dict (serialize_vote vote))
  end.

(** [relay_votes] *)
Definition relay_votes (E : collaborators) (V : voting) (c : core)
    (votes : list quorum_vote_t) : list sent :=
  votes ≫= relay_vote E V c.

(** What a call of [handle_vote] does: the votes it hands to
    [core.add_service_node_vote] and the messages it sends. *)
Record handled_vote := {
  hv_submitted : list quorum_vote_t;
  hv_sent : list sent;
}.

Definition vote_ignored : handled_vote := {| hv_submitted := []; hv_sent := [] |}.

(** [handle_vote].  [uninit] is the indeterminate content of the local
    [quorum_vote_t] of [deserialize_vote].  Every exception of the body is a
    [std::exception] and ends in the handler's [catch]. *)
Definition handle_vote (E : collaborators) (V : voting) (c : core) (uninit : quorum_vote_t)
    (m : message) : outcome handled_vote :=
  if decide (len (m_data m) ≠ 1) then Ret vote_ignored
  else
    match deserialize_vote uninit (default (bt_int 0) (m_data m !! O)) with
    | Ret vote =>
        if decide (block_height vote > get_current_blockchain_height c) then Ret vote_ignored
        else
          let vvc := add_service_node_vote V vote in
          if m_verification_failed vvc then
            Ret {| hv_submitted := [vote]; hv_sent := [] |}
          else if m_added_to_pool vvc then
            Ret {| hv_submitted := [vote]; hv_sent := relay_votes E V c [vote] |}
          else Ret {| hv_submitted := [vote]; hv_sent := [] |}
    | Throw _ => Ret vote_ignored
    | Undefined w => Undefined w
    end.

(** ** Rendering the known signatures *)

Definition status_letter (st : signature_status) : Ascii.ascii :=
  match st with
  | status_approved => "A"%char
  | status_rejected => "R"%char
  | status_none => "-"%char
  end.

(** The items separated by single spaces ([if (i > 0) os << ' ']). *)
Fixpoint spaced (items : list string) : string :=
  match items with
  | [] => ""
  | [s] => s
  | s :: rest => s +:+ " " +:+ spaced rest
  end.

(** [debug_known_signatures]: [[x x x ...] [x x x ...]], one letter per
    position of each subquorum. *)
Definition debug_known_signatures (btx : blink_tx) (blink_quorums : list quorum) : string :=
  spaced (imap (λ qi q,
            let slots := len (validators q) in
            "[" +:+ spaced ((λ i, String (status_letter
                                            (get_signature_status btx (Z.of_nat qi) i)) "")
                            <$> seqZ 0 slots) +:+ "]")
          blink_quorums).

(** Reading a rendering back: the status each of its letters stands for. *)
Definition status_of_letter (a : Ascii.ascii) : option signature_status :=
  if decide (a = "A"%char) then Some status_approved
  else if decide (a = "R"%char) then Some status_rejected
  else if decide (a = "-"%char) then Some status_none
  else None.

Definition rendered_statuses (s : string) : list signature_status :=
  omap status_of_letter (String.list_ascii_of_string s).

(** ** Sequences of events *)

(** One response of an entry node as it arrives at the submitter. *)
Record arrival := {
  arr_response : response;
  arr_sender : string;
  arr_tag : Z;
}.

(** The responses handled one after the other: the table after the last one
    and the promises resolved on the way.  A response whose handler throws
    leaves the table as it is. *)
Fixpoint run_responses (arrivals : list arrival) (pending : pending_t)
    : pending_t * fulfilled_t :=
  match arrivals with
  | [] => (pending, [])
  | a :: rest =>
      match handle_response (arr_response a)
              (response_message (arr_sender a) (arr_response a) (arr_tag a)) pending with
      | Ret (pending', resolved) =>
          let r := run_responses rest pending' in (r.1, (resolved ++ r.2)%list)
      | _ => run_responses rest pending
      end
  end.

(** ** Further notions used in the statements *)

(** The peers stored with a connection address. *)
Definition strong_entries (pi : peer_info) : gmap string string :=
  filter (λ kv, kv.2 ≠ "") (peers pi).

(** Every peer is the x25519 key of a remote, stored with that remote's
    address or with none. *)
Definition peers_known (pi : peer_info) : Prop :=
  ∀ x a, peers pi !! x = Some a →
         ∃ pubkey addr, remotes pi !! pubkey = Some (x, addr) ∧ (a = "" ∨ a = addr).

(** [strong_peers] is the number of peers with a connection address, and
    every remote has one. *)
Definition strong_peers_counted (pi : peer_info) : Prop :=
  remotes_addressed pi ∧ strong_peers pi = Z.of_nat (size (strong_entries pi)).

(** Whether a message was sent with a connection hint. *)
Definition is_hinted (s : sent) : bool :=
  match s with
  | Send _ _ _ (hint _) => true
  | _ => false
  end.

(** A signature entry that [process_blink_signatures] can put into a
    [blink_sign] dictionary and whose subquorum, position and length pass the
    receiver's input validation: the position is an [int]. *)
Definition relayable_signature (E : collaborators) (s : pending_signature) : Prop :=
  0 ≤ sig_subquorum s < NUM_BLINK_QUORUMS ∧
  0 ≤ sig_position s < BLINK_SUBQUORUM_SIZE E ∧ sig_position s ≤ int_max ∧
  str_size (sig_signature s) = 64.

(** The fields [handle_blink_signature] has read when every field of the
    message was present. *)
Definition fields_read (blink_height checksum : Z) (tx_hash : string)
    (signatures : list pending_signature) : blink_sign_fields :=
  {| f_blink_height := blink_height; f_checksum := checksum; f_tx_hash := tx_hash;
     saw_checksum := true; saw_hash := true;
     saw_i := true; saw_r := true; saw_p := true; saw_s := true;
     f_signatures := signatures |}.

(** What [process_blink_signatures] relies on in its arguments: there is one
    quorum per subquorum, and every signature names one of them (the array
    of quorums is indexed with the subquorum unchecked). *)
Definition subquorums_in_range (blink_quorums : list quorum)
    (signatures : list pending_signature) : Prop :=
  length blink_quorums = Z.to_nat NUM_BLINK_QUORUMS ∧
  Forall (λ s, 0 ≤ sig_subquorum s < NUM_BLINK_QUORUMS) signatures.

(** A signature entry as the parsing loop of [handle_blink_signature] leaves
    it: the subquorum and the position are within the validated ranges, and
    the signature is 64 bytes long - not null when it was read from the
    message, all zero when it is still the value-initialised one. *)
Definition validated_signature (E : collaborators) (s : pending_signature) : Prop :=
  0 ≤ sig_subquorum s < NUM_BLINK_QUORUMS ∧
  0 ≤ sig_position s < BLINK_SUBQUORUM_SIZE E ∧
  str_size (sig_signature s) = 64 ∧
  (sig_signature s = zero_bytes 64 ∨ is_null (sig_signature s) = false).

(** A [blink_sign] dictionary with all seven keys, in key order. *)
Definition blink_sign_message (hash height : bt_value) (i_list p_list : list bt_value)
    (checksum : bt_value) (r_list s_list : list bt_value) : bt_dict_t :=
  [ ("#", hash); ("h", height); ("i", bt_list i_list); ("p", bt_list p_list);
    ("q", checksum); ("r", bt_list r_list); ("s", bt_list s_list) ].

(** The [peer_info] that [handle_blink] builds over the blink quorums,
    excluding the sender of the message. *)
Definition blink_pinfo (E : collaborators) (c : core) (m : message) (blink_quorums : list quorum)
    : peer_info :=
  new_peer_info E c blink_quorums true
    {[ get_pubkey_from_x25519 (get_service_node_list c) (x25519_from_string (m_pubkey m)) ]}.

(** The blink tx [handle_blink] creates for a new submission. *)
Definition blink_tx_for (E : collaborators) (blink_height : Z) (tx_hash : string) : blink_tx :=
  {| btx_height := blink_height; btx_tx_hash := tx_hash;
     btx_signatures := btx_signatures (new_blink_tx E blink_height) |}.

(** This node's own signatures on a submission: one for each subquorum it is
    in, approving when the mempool accepted the transaction. *)
Definition own_signatures (E : collaborators) (c : core) (pinfo : peer_info)
    (blink_height : Z) (tx_hash : string) : list pending_signature :=
  let approved := add_blink E tx_hash in
  let sig := generate_signature E (blink_hash E blink_height tx_hash approved)
               (my_pub c) (my_key c) in
  omap (λ qi,
      let pos := position_at (my_position pinfo) (Z.to_nat qi) in
      if decide (pos < 0) then None
      else Some {| sig_approval := approved; sig_subquorum := qi;
                   sig_position := pos; sig_signature := sig |})
    (seqZ 0 NUM_BLINK_QUORUMS).

(** The [blink] message [handle_blink] relays to its peers. *)
Definition blink_relay_data (blink_height checksum : Z) (tx_data tx_hash : string) : bt_value :=
  bt_dict (dict_of_list [("h", bt_int blink_height); ("q", bt_int checksum);
                         ("t", bt_string tx_data); ("#", bt_string tx_hash)]).

(** What [handle_blink] does with a submission it accepts: the blink tx is
    stored in the cache with the signatures processed so far and the reply
    tag, the submission is relayed, and the pending and own signatures are
    processed. *)
Definition accepted_blink (E : collaborators) (c : core) (blinks : blinks_t) (m : message)
    (tag blink_height checksum : Z) (tx_data tx_hash : string) (blink_quorums : list quorum)
    : blinks_t * list sent :=
  let pinfo := blink_pinfo E c m blink_quorums in
  let bl_info := default empty_metadata (blinks_find blinks blink_height tx_hash) in
  let r := process_blink_signatures E c (blink_tx_for E blink_height tx_hash) blink_quorums
             checksum
             (pending_sigs bl_info ++ own_signatures E c pinfo blink_height tx_hash)%list
             tag (m_pubkey m) "" in
  (blinks_set blinks blink_height tx_hash
     {| btxptr := Some r.1; pending_sigs := [];
        reply_pubkey := if decide (tag > 0) then m_pubkey m else reply_pubkey bl_info;
        reply_tag := if decide (tag > 0) then tag else reply_tag bl_info |},
   (relay_to_peers pinfo "blink" (blink_relay_data blink_height checksum tx_data tx_hash)
    ++ r.2)%list).

(** The conditions under which [handle_blink] accepts a submission that
    reached the construction of the quorums. *)
Definition blink_acceptable (E : collaborators) (c : core) (m : message)
    (tx_data tx_hash : string) (blink_quorums : list quorum) : Prop :=
  my_position_count (blink_pinfo E c m blink_quorums) > 0 ∧
  parse_and_validate_tx_from_blob E tx_data = Some tx_hash ∧
  strong_peers (blink_pinfo E c m blink_quorums) ≠ 0.

(** The blink cache is consistent: a blink tx is stored under its own height
    and transaction hash, and the signatures waiting for a transaction passed
    the input validation. *)
Definition cache_wf (E : collaborators) (blinks : blinks_t) : Prop :=
  ∀ height tx_hash md, blinks_find blinks height tx_hash = Some md →
    Forall (validated_signature E) (pending_sigs md) ∧
    ∀ btx, btxptr md = Some btx → btx_height btx = height ∧ btx_tx_hash btx = tx_hash.

(** The [blink] message of a submission, as [send_blink] builds it. *)
Definition blink_submission (tag : Z) (tx_hash : string) (height checksum : Z)
    (tx_blob : string) : bt_value :=
  bt_dict (dict_of_list [
    ("!", bt_int tag); ("#", bt_string tx_hash); ("h", bt_int height);
    ("q", bt_int checksum); ("t", bt_string tx_blob) ]).

(** The entry [send_blink] makes for a submission sent to [n] entry nodes. *)
Definition new_submission (tx_hash : string) (now_created : Z) (n : Z) : blink_result_data :=
  {| brd_hash := tx_hash; promise := None; expiry := now_created + thirty_seconds;
     remote_count := n; nostart_count := 0; bad_count := 0; good_count := 0 |}.

(** [x] at [addr] is an entry node [send_blink] may choose: the x25519 key
    and address of an active, registered validator of one of the quorums. *)
Definition entry_node (E : collaborators) (snl : service_node_list) (qs : list quorum)
    (x addr : string) : Prop :=
  ∃ pubkey info, pubkey ∈ (qs ≫= validators) ∧ sn_infos snl !! pubkey = Some info ∧
                 remote_of E info = Some (x, addr).

(** The arrival is a [bl_good] for the submission [tag]. *)
Definition good_for (tag : Z) (a : arrival) : Prop :=
  arr_tag a = tag ∧ arr_response a = bl_good_response.

#[global] Instance response_eq_dec : EqDecision response.
Proof. solve_decision. Defined.

#[global] Instance good_for_dec tag a : Decision (good_for tag a).
Proof. unfold good_for. apply _. Defined.

(** A vote as [deserialize_vote] returns it: the fields it reads are within
    the ranges of their types, the group is not [invalid], and the signature
    and, for a checkpointing vote, the block hash have their sizes. *)
Definition validated_vote (v : quorum_vote_t) : Prop :=
  0 ≤ version v ≤ u8_max ∧ 0 ≤ block_height v ≤ u64_max ∧
  group v ≠ invalid ∧ 0 ≤ index_in_group v ≤ u16_max ∧
  str_size (signature v) = 64 ∧
  (type v = checkpointing → str_size (checkpoint_block_hash v) = 32) ∧
  (type v ≠ checkpointing → 0 ≤ state_change_worker_index v ≤ u16_max).

(** ** Further examples *)

(** Stand-ins for the vote rules: seven votes needed in every quorum, and a
    pool that verifies every vote and takes it as new. *)
Definition sample_V : voting :=
  {| min_votes_for_quorum_type := λ _, 7;
     add_service_node_vote := λ _, {| m_verification_failed := false;
                                       m_added_to_pool := true |} |}.

(** A checkpointing vote of node A for height 20, where the quorum is Q. *)
Definition sample_vote : quorum_vote_t :=
  {| version := 0; type := checkpointing; block_height := 20; group := validator;
     index_in_group := 0; signature := bytes 64 "s";
     state_change_worker_index := 0; state_change_state := deregister;
     checkpoint_block_hash := bytes 32 "h" |}.

(** * Properties *)

(** ** Vote wire format *)

Lemma quorum_type_code_inv t : quorum_type_of_code (quorum_type_code t) = Some t.
Proof. by destruct t. Qed.

Lemma quorum_group_code_inv g : quorum_group_of_code (quorum_group_code g) = Some g.
Proof. by destruct g. Qed.

Lemma new_state_code_inv s : new_state_of_code (new_state_code s) = Some s.
Proof. by destruct s. Qed.

(** Deserializing a serialized legal vote succeeds and restores every field
    except [state_change.state], which is parsed and thrown away. *)
Lemma deserialize_serialize_vote uninit v :
  legal_vote v →
  deserialize_vote uninit (bt_dict (serialize_vote v)) = Ret (restored uninit v).
Proof.
  destruct v as [ver ty h g i sig wi st bh].
  unfold legal_vote, restored; simpl.
  intros (Hver & Hh & Hg & Hi & Hsig & Hpay).
  unfold deserialize_vote, serialize_vote; simpl.
  destruct (decide (ty = checkpointing)) as [->|Hty]; simpl.
  - destruct g; try done; cbn; repeat case_decide; cbn; try done; try lia.
  - destruct ty; try done; destruct g; try done; destruct st; cbn;
      repeat case_decide; cbn; try done; try lia.
Qed.

(** For checkpointing votes the round trip holds. *)
Lemma checkpoint_vote_round_trip uninit v :
  legal_vote v → type v = checkpointing →
  ∃ w, deserialize_vote uninit (bt_dict (serialize_vote v)) = Ret w ∧ vote_eq w v.
Proof.
  intros Hv Hty. exists (restored uninit v). split.
  - by apply deserialize_serialize_vote.
  - unfold vote_eq, restored; simpl. rewrite !decide_True by done. done.
Qed.

(** C3 (the code departs from the claim): whatever the uninitialised local of
    [deserialize_vote] holds, there is a legal non-checkpointing vote whose
    round trip succeeds and comes back with a different
    [state_change.state]; so [deserialize_vote (serialize_vote v)] is not
    [v] for every legal vote. *)
Theorem deserialize_vote_drops_state (uninit : quorum_vote_t) :
  ∃ v w, legal_vote v ∧ type v ≠ checkpointing ∧
         deserialize_vote uninit (bt_dict (serialize_vote v)) = Ret w ∧
         state_change_state w ≠ state_change_state v ∧ ¬ vote_eq w v.
Proof.
  set (st := if decide (state_change_state uninit = deregister)
             then recommission else deregister).
  set (v := {| version := 0; type := obligations; block_height := 100;
               group := validator; index_in_group := 3;
               signature := bytes 64 "s"; state_change_worker_index := 5;
               state_change_state := st; checkpoint_block_hash := zero_bytes 32 |}).
  assert (Hlegal : legal_vote v) by (repeat split; vm_compute; congruence).
  exists v, (restored uninit v). split; [done|]. split; [done|].
  split; [by apply deserialize_serialize_vote|].
  assert (Hst : state_change_state uninit ≠ st).
  { subst st. destruct (decide _) as [->|]; [done|]. by intros ?. }
  split; [done|].
  unfold vote_eq. simpl. intros (_ & _ & _ & _ & _ & _ & _ & ?). done.
Qed.

(** ** Blink quorum construction *)

Lemma get_blink_quorums_unfold E h snl cs :
  get_blink_quorums E h snl cs =
  (r ←! get_blink_quorums_loop E snl h [0; 1] [] 0;
   match cs with
   | Some c =>
      if decide (c ≠ r.2) then
        Throw (runtime_error ("wrong quorum checksum: expected " +:+ pretty r.2 +:+
                              ", received " +:+ pretty c))
      else Ret r
   | None => Ret r
   end).
Proof. reflexivity. Qed.

(** C10 (the code departs from the claim): when the directory has no quorum
    for a subquorum that [get_blink_quorums] looks up - the first one, or
    the second one after the first passed the size check - the function
    reports no error; it reads the validators through the null pointer. *)
Theorem get_blink_quorums_null_quorum E snl h cs :
  (quorum_height E h 0 ≠ 0 ∧ get_quorum snl blink (quorum_height E h 0) = None) ∨
  (∃ q0, quorum_height E h 0 ≠ 0 ∧
         get_quorum snl blink (quorum_height E h 0) = Some q0 ∧ size_in_range E q0 ∧
         quorum_height E h 1 ≠ 0 ∧ get_quorum snl blink (quorum_height E h 1) = None) →
  get_blink_quorums E h snl cs =
    Undefined "result[qi]->validators through a null quorum pointer".
Proof.
  rewrite get_blink_quorums_unfold. simpl.
  intros [[Hh Hq]|(q0 & Hh0 & Hq0 & Hsize & Hh1 & Hq1)].
  - rewrite decide_False by done. by rewrite Hq.
  - rewrite decide_False by done. rewrite Hq0.
    rewrite decide_False by (unfold size_in_range in Hsize; lia).
    rewrite decide_False by done. by rewrite Hq1.
Qed.

(** When the directory has a quorum wherever one is looked up,
    [get_blink_quorums] throws under [quorums_refused] and returns both
    quorums otherwise. *)
Lemma get_blink_quorums_spec E snl h c q0 q1 :
  (quorum_height E h 0 ≠ 0 → get_quorum snl blink (quorum_height E h 0) = Some q0) →
  (quorum_height E h 1 ≠ 0 → get_quorum snl blink (quorum_height E h 1) = Some q1) →
  (quorums_refused E h q0 q1 c →
     ∃ what, get_blink_quorums E h snl (Some c) = Throw (runtime_error what)) ∧
  (¬ quorums_refused E h q0 q1 c →
     get_blink_quorums E h snl (Some c) = Ret ([q0; q1], c)).
Proof.
  intros H0 H1. rewrite get_blink_quorums_unfold. unfold quorums_refused, size_in_range.
  simpl.
  destruct (decide (quorum_height E h 0 = 0)) as [E0|N0].
  { split; [eauto|]. tauto. }
  rewrite (H0 N0).
  destruct (decide (len (validators q0) < BLINK_MIN_VOTES E ∨ _)) as [B0|G0].
  { split; [eauto|]. intros Hn; exfalso; apply Hn. right; right; left. lia. }
  destruct (decide (quorum_height E h 1 = 0)) as [E1|N1].
  { split; [eauto|]. tauto. }
  rewrite (H1 N1).
  destruct (decide (len (validators q1) < BLINK_MIN_VOTES E ∨ _)) as [B1|G1].
  { split; [eauto|]. intros Hn; exfalso; apply Hn. right; right; right; left. lia. }
  simpl. fold (blink_checksum E q0 q1).
  destruct (decide (c ≠ blink_checksum E q0 q1)) as [Hc|Hc].
  { split; [eauto|]. tauto. }
  split.
  - intros [?|[?|[?|[?|?]]]]; try done; exfalso; lia.
  - intros _. apply dec_stable in Hc. by rewrite Hc.
Qed.

(** A message that reaches quorum construction is answered from the outcome
    of [get_blink_quorums] alone. *)
Lemma handle_blink_reaches_quorums E c blinks m tag h cs tx_data tx_hash :
  reaches_quorums c blinks m tag h cs tx_data tx_hash →
  handle_blink E c blinks m =
    match get_blink_quorums E h (get_service_node_list c) (Some cs) with
    | Throw (runtime_error what) =>
        Ret (blinks, nostart tag ("Unable to retrieve blink quorum: " +:+ what))
    | Throw e => Throw e
    | Undefined w => Undefined w
    | Ret (blink_quorums, _) =>
        Ret (handle_blink_with_quorums E c blinks m tag h cs tx_data tx_hash blink_quorums)
    end.
Proof.
  intros (data & Hm & -> & Hh & Hhr & Hlo & Hhi & Ht & Hhash & Hsz & Hnew & Hq & Hqr).
  unfold handle_blink. rewrite Hm. simpl.
  unfold dict_at. rewrite Hh. simpl. rewrite decide_True by done. simpl.
  rewrite decide_False by done. rewrite decide_False by done.
  rewrite Ht. simpl. rewrite Hhash. simpl.
  rewrite decide_False by (intros Hne; apply Hne, Hsz).
  set (tag := get_or 0 u64_max data "!" 0).
  assert (Hnew' :
    handle_blink_new E c blinks m tag h data tx_data tx_hash =
    match get_blink_quorums E h (get_service_node_list c) (Some cs) with
    | Throw (runtime_error what) =>
        Ret (blinks, nostart tag ("Unable to retrieve blink quorum: " +:+ what))
    | Throw e => Throw e
    | Undefined w => Undefined w
    | Ret (blink_quorums, _) =>
        Ret (handle_blink_with_quorums E c blinks m tag h cs tx_data tx_hash blink_quorums)
    end).
  { unfold handle_blink_new, dict_at. rewrite Hq. simpl.
    rewrite decide_True by done. simpl. done. }
  destruct (blinks_find blinks h tx_hash) as [md|] eqn:Hfind; [|done].
  rewrite (Hnew md eq_refl). simpl. done.
Qed.

(** C6, amended: when the quorum source has a quorum for each subquorum whose
    quorum height is not zero, [get_blink_quorums] throws exactly when some
    subquorum's quorum height is zero, or some subquorum's validator count
    is below [BLINK_MIN_VOTES] or above [BLINK_SUBQUORUM_SIZE], or the
    checksum field differs from the computed sum; a new inbound blink with a
    non-zero tag is then answered with [bl_nostart] and the reason, and
    otherwise both subquorums are returned and the handler goes on with
    them. *)
Theorem blink_quorums_refused_iff E c blinks m tag h cs tx_data tx_hash q0 q1 :
  reaches_quorums c blinks m tag h cs tx_data tx_hash → tag ≠ 0 →
  (quorum_height E h 0 ≠ 0 →
     get_quorum (get_service_node_list c) blink (quorum_height E h 0) = Some q0) →
  (quorum_height E h 1 ≠ 0 →
     get_quorum (get_service_node_list c) blink (quorum_height E h 1) = Some q1) →
  (quorums_refused E h q0 q1 cs ↔
     ∃ what, get_blink_quorums E h (get_service_node_list c) (Some cs)
             = Throw (runtime_error what)) ∧
  (quorums_refused E h q0 q1 cs →
     ∃ what, get_blink_quorums E h (get_service_node_list c) (Some cs)
               = Throw (runtime_error what) ∧
             handle_blink E c blinks m =
               Ret (blinks, [bl_nostart tag ("Unable to retrieve blink quorum: " +:+ what)])) ∧
  (¬ quorums_refused E h q0 q1 cs →
     get_blink_quorums E h (get_service_node_list c) (Some cs) = Ret ([q0; q1], cs) ∧
     handle_blink E c blinks m =
       Ret (handle_blink_with_quorums E c blinks m tag h cs tx_data tx_hash [q0; q1])).
Proof.
  intros Hreach Htag H0 H1.
  destruct (get_blink_quorums_spec E (get_service_node_list c) h cs q0 q1 H0 H1)
    as [Hbad Hgood].
  pose proof (handle_blink_reaches_quorums E c blinks m tag h cs tx_data tx_hash Hreach)
    as Hhb.
  split; [|split].
  - split; [exact Hbad|]. intros [what Hthrow].
    destruct (decide (quorum_height E h 0 = 0)) as [|N0]; [by left|].
    apply dec_stable. intros Hn. rewrite (Hgood Hn) in Hthrow. done.
  - intros Hr. destruct (Hbad Hr) as [what Hthrow]. exists what. split; [done|].
    rewrite Hhb, Hthrow. unfold nostart, bl_nostart. by rewrite decide_True.
  - intros Hn. split; [by apply Hgood|]. by rewrite Hhb, (Hgood Hn).
Qed.

(** ** The height check of [handle_blink] *)

(** Away from the ends of the [uint64_t] range the two comparisons are the
    test [|h - c| > 2]. *)
Lemma height_window_exact c h :
  2 ≤ c ≤ u64_max - 2 → 0 ≤ h ≤ u64_max →
  (h < sub64 c 2 ∨ h > add64 c 2) ↔ Z.abs (h - c) > 2.
Proof.
  unfold sub64, add64, wrap64, u64_max. intros Hc Hh.
  rewrite !Z.mod_small by lia. lia.
Qed.

(** C5 (the code departs from the claim): at a chain height below 2 the
    subtraction [local_height - 2] wraps around, and a blink whose height is
    within 2 of the chain height is rejected on height grounds. *)
Theorem handle_blink_height_wraps E c blinks pubkey sn data h :
  0 ≤ get_current_blockchain_height c < 2 →
  dict_find data "h" = Some (bt_int h) →
  0 ≤ h ≤ get_current_blockchain_height c + 2 →
  handle_blink E c blinks {| m_pubkey := pubkey; m_sn := sn; m_data := [bt_dict data] |} =
    Ret (blinks, nostart (get_or 0 u64_max data "!" 0) "Invalid blink authorization height").
Proof.
  intros Hc Hh Hr. unfold handle_blink. simpl.
  unfold dict_at. rewrite Hh. simpl.
  rewrite decide_True by (unfold u64_max; lia). simpl.
  rewrite decide_True; [done|].
  unfold sub64, wrap64.
  assert (get_current_blockchain_height c = 0 ∨ get_current_blockchain_height c = 1)
    as [->| ->] by lia.
  - change ((0 - 2) mod 18446744073709551616) with 18446744073709551614. lia.
  - change ((1 - 2) mod 18446744073709551616) with 18446744073709551615. lia.
Qed.

(** A node at chain height 1 rejects a blink for height 1. *)
Lemma handle_blink_height_wraps_witness :
  handle_blink sample_E (sample_core (key32 "A") 1 sample_snl) ∅
    (blink_message (key32 "z") 7 1 0) =
  Ret (∅, [bl_nostart 7 "Invalid blink authorization height"]).
Proof.
  apply (handle_blink_height_wraps sample_E (sample_core (key32 "A") 1 sample_snl) ∅
           (key32 "z") false (blink_data 7 1 0) 1); [simpl; lia | reflexivity | simpl; lia].
Defined.

(** At height 100 the first subquorum is looked up at height 65; with a
    directory that has no quorum there the function does not throw. *)
Lemma get_blink_quorums_null_quorum_witness :
  get_blink_quorums sample_E 100 quorumless_snl (Some 0) =
    Undefined "result[qi]->validators through a null quorum pointer".
Proof.
  apply (get_blink_quorums_null_quorum sample_E quorumless_snl 100 (Some 0)).
  left. split; [vm_compute; discriminate | reflexivity].
Defined.

(** The sample submission reaches quorum construction on an empty cache. *)
Lemma sample_reaches_quorums (h cs : Z) :
  0 ≤ h ≤ u64_max → 0 ≤ cs ≤ u64_max → 2 ≤ h ≤ 1000 →
  reaches_quorums (sample_core (key32 "A") h sample_snl) ∅
    (blink_message (key32 "z") 7 h cs) 7 h cs sample_tx_blob sample_tx_hash.
Proof.
  intros Hh Hcs Hh'. eexists. split; [reflexivity|].
  split; [reflexivity|]. split; [reflexivity|]. split; [done|].
  simpl. unfold sub64, add64, wrap64.
  rewrite !Z.mod_small by lia.
  split; [lia|]. split; [lia|].
  split; [reflexivity|]. split; [reflexivity|]. split; [reflexivity|].
  split; [|split; [reflexivity|done]].
  intros md Hmd. unfold blinks_find in Hmd. by rewrite lookup_empty in Hmd.
Qed.

(** At height 100, with sizes in range and a matching checksum, the handler
    goes on with both subquorums. *)
Lemma blink_quorums_refused_iff_witness :
  handle_blink sample_E (sample_core (key32 "A") 100 sample_snl) ∅
    (blink_message (key32 "z") 7 100 (blink_checksum sample_E sample_Q' sample_Q)) =
  Ret (handle_blink_with_quorums sample_E (sample_core (key32 "A") 100 sample_snl) ∅
         (blink_message (key32 "z") 7 100 (blink_checksum sample_E sample_Q' sample_Q))
         7 100 (blink_checksum sample_E sample_Q' sample_Q) sample_tx_blob sample_tx_hash
         [sample_Q'; sample_Q]).
Proof.
  apply (blink_quorums_refused_iff sample_E (sample_core (key32 "A") 100 sample_snl) ∅
           (blink_message (key32 "z") 7 100 (blink_checksum sample_E sample_Q' sample_Q))
           7 100 (blink_checksum sample_E sample_Q' sample_Q)
           sample_tx_blob sample_tx_hash sample_Q' sample_Q).
  - apply sample_reaches_quorums; vm_compute; split; discriminate.
  - lia.
  - intros _. reflexivity.
  - intros _. reflexivity.
  - unfold quorums_refused, size_in_range. vm_compute.
    intros [?|[?|[H|[H|H]]]]; try discriminate; apply H; split; discriminate.
Defined.

(** C6, counterexample: at blink height 12 both subquorums the directory
    holds have 8 validators (between 7 and 10) and the checksum field equals
    the computed sum, yet [get_blink_quorums] throws, and the blink is
    answered with [bl_nostart]. *)
Lemma blink_quorums_too_early :
  size_in_range sample_E sample_Q ∧
  get_quorum sample_snl blink (quorum_height sample_E 12 0) = Some sample_Q ∧
  get_quorum sample_snl blink (quorum_height sample_E 12 1) = Some sample_Q ∧
  get_blink_quorums sample_E 12 sample_snl (Some (blink_checksum sample_E sample_Q sample_Q)) =
    Throw (runtime_error "too early in blockchain to create a quorum") ∧
  handle_blink sample_E (sample_core (key32 "A") 12 sample_snl) ∅
    (blink_message (key32 "z") 7 12 (blink_checksum sample_E sample_Q sample_Q)) =
  Ret (∅, [bl_nostart 7
             "Unable to retrieve blink quorum: too early in blockchain to create a quorum"]).
Proof.
  split; [vm_compute; split; discriminate|].
  split; [reflexivity|]. split; [reflexivity|]. split; [reflexivity|].
  vm_compute. reflexivity.
Qed.

(** ** Peer topology *)

Lemma add_peer_remotes pi pk s : remotes (add_peer pi pk s).1 = remotes pi.
Proof.
  unfold add_peer. destruct (remotes pi !! pk) as [[x a]|]; [|done].
  destruct (peers pi !! x); [|done]. by destruct (s && _).
Qed.

Lemma add_peer_my_position pi pk s : my_position (add_peer pi pk s).1 = my_position pi.
Proof.
  unfold add_peer. destruct (remotes pi !! pk) as [[x a]|]; [|done].
  destruct (peers pi !! x); [|done]. by destruct (s && _).
Qed.

Lemma add_peer_keeps_strong x pi pk s :
  strong_peer x pi → strong_peer x (add_peer pi pk s).1.
Proof.
  intros (a & Ha & Hne). unfold add_peer, strong_peer.
  destruct (remotes pi !! pk) as [[x' a']|]; [|by eauto].
  destruct (peers pi !! x') as [e|] eqn:He.
  - destruct s; simpl; [|by eauto]. case_bool_decide as Hemp; simpl; [|by eauto].
    destruct (decide (x' = x)) as [->|Hx].
    + rewrite Ha in He. congruence.
    + rewrite lookup_insert_ne by done. eauto.
  - simpl. destruct (decide (x' = x)) as [->|Hx]; [congruence|].
    rewrite lookup_insert_ne by done. eauto.
Qed.

Lemma add_peer_strong_adds x addr pi pk :
  remotes pi !! pk = Some (x, addr) → addr ≠ "" →
  strong_peer x (add_peer pi pk true).1.
Proof.
  intros Hr Hne. unfold add_peer, strong_peer. rewrite Hr.
  destruct (peers pi !! x) as [e|] eqn:He; simpl.
  - case_bool_decide as Hemp; simpl.
    + rewrite lookup_insert_eq. eauto.
    + eauto.
  - rewrite lookup_insert_eq. eauto.
Qed.

Lemma add_peer_peers_among v pi pk s :
  pk ∈ v → peers_among v pi → peers_among v (add_peer pi pk s).1.
Proof.
  intros Hin Hinv y. pose proof (add_peer_remotes pi pk s) as Hrem. rewrite Hrem.
  unfold add_peer. destruct (remotes pi !! pk) as [[x a]|] eqn:Hr; [|by apply Hinv].
  destruct (peers pi !! x) as [e|] eqn:He.
  - destruct (s && _); simpl; [|by apply Hinv].
    destruct (decide (x = y)) as [->|Hx]; [eauto|].
    rewrite lookup_insert_ne by done. apply Hinv.
  - simpl. destruct (decide (x = y)) as [->|Hx]; [eauto|].
    rewrite lookup_insert_ne by done. apply Hinv.
Qed.

Lemma add_peer_at_remotes v j s pi : remotes (add_peer_at v j s pi) = remotes pi.
Proof. unfold add_peer_at. destruct (index_Z v j); [apply add_peer_remotes|done]. Qed.

Lemma add_peer_at_my_position v j s pi : my_position (add_peer_at v j s pi) = my_position pi.
Proof. unfold add_peer_at. destruct (index_Z v j); [apply add_peer_my_position|done]. Qed.

Lemma add_peer_at_keeps_strong x v j s pi :
  strong_peer x pi → strong_peer x (add_peer_at v j s pi).
Proof. unfold add_peer_at. destruct (index_Z v j); [apply add_peer_keeps_strong|done]. Qed.

Lemma index_Z_elem {A} (l : list A) j a : index_Z l j = Some a → a ∈ l.
Proof.
  unfold index_Z. case_decide; [|done]. intros Hl. by eapply list_elem_of_lookup_2.
Qed.

Lemma add_peer_at_peers_among v v' j s pi :
  v' ⊆ v → peers_among v pi → peers_among v (add_peer_at v' j s pi).
Proof.
  intros Hsub Hinv. unfold add_peer_at. destruct (index_Z v' j) eqn:Hj; [|done].
  apply add_peer_peers_among; [|done]. apply Hsub. by eapply index_Z_elem.
Qed.

Lemma add_peers_remotes v conns s pi : remotes (add_peers v conns s pi) = remotes pi.
Proof.
  unfold add_peers. revert pi. induction conns as [|j conns IH]; intros pi; [done|].
  simpl. rewrite IH. apply add_peer_at_remotes.
Qed.

Lemma add_peers_my_position v conns s pi :
  my_position (add_peers v conns s pi) = my_position pi.
Proof.
  unfold add_peers. revert pi. induction conns as [|j conns IH]; intros pi; [done|].
  simpl. rewrite IH. apply add_peer_at_my_position.
Qed.

Lemma add_peers_keeps_strong x v conns s pi :
  strong_peer x pi → strong_peer x (add_peers v conns s pi).
Proof.
  unfold add_peers. revert pi. induction conns as [|j conns IH]; intros pi H; [done|].
  simpl. apply IH. by apply add_peer_at_keeps_strong.
Qed.

Lemma add_peers_peers_among v v' conns s pi :
  v' ⊆ v → peers_among v pi → peers_among v (add_peers v' conns s pi).
Proof.
  intros Hsub. unfold add_peers. revert pi.
  induction conns as [|j conns IH]; intros pi H; [done|].
  simpl. apply IH. by apply add_peer_at_peers_among.
Qed.

Lemma forward_bridge_remotes qs i pos pi : remotes (forward_bridge qs i pos pi) = remotes pi.
Proof. unfold forward_bridge. repeat case_decide; rewrite ?add_peer_at_remotes; done. Qed.
Lemma forward_bridge_my_position qs i pos pi :
  my_position (forward_bridge qs i pos pi) = my_position pi.
Proof. unfold forward_bridge. repeat case_decide; rewrite ?add_peer_at_my_position; done. Qed.
Lemma forward_bridge_keeps_strong x qs i pos pi :
  strong_peer x pi → strong_peer x (forward_bridge qs i pos pi).
Proof.
  intros Hx. unfold forward_bridge. repeat case_decide; try done.
  by apply add_peer_at_keeps_strong.
Qed.
Lemma reverse_bridge_remotes qs i pos pi : remotes (reverse_bridge qs i pos pi) = remotes pi.
Proof. unfold reverse_bridge. repeat case_decide; rewrite ?add_peer_at_remotes; done. Qed.
Lemma reverse_bridge_my_position qs i pos pi :
  my_position (reverse_bridge qs i pos pi) = my_position pi.
Proof. unfold reverse_bridge. repeat case_decide; rewrite ?add_peer_at_my_position; done. Qed.
Lemma reverse_bridge_keeps_strong x qs i pos pi :
  strong_peer x pi → strong_peer x (reverse_bridge qs i pos pi).
Proof.
  intros Hx. unfold reverse_bridge. repeat case_decide; try done.
  by apply add_peer_at_keeps_strong.
Qed.

Lemma compute_peers_step_remotes E qs pi i :
  remotes (compute_peers_step E qs pi i) = remotes pi.
Proof.
  unfold compute_peers_step. case_decide; [done|].
  by rewrite reverse_bridge_remotes, forward_bridge_remotes, !add_peers_remotes.
Qed.

Lemma compute_peers_step_my_position E qs pi i :
  my_position (compute_peers_step E qs pi i) = my_position pi.
Proof.
  unfold compute_peers_step. case_decide; [done|].
  by rewrite reverse_bridge_my_position, forward_bridge_my_position, !add_peers_my_position.
Qed.

Lemma compute_peers_step_keeps_strong x E qs pi i :
  strong_peer x pi → strong_peer x (compute_peers_step E qs pi i).
Proof.
  intros Hx. unfold compute_peers_step. case_decide; [done|].
  by apply reverse_bridge_keeps_strong, forward_bridge_keeps_strong,
    add_peers_keeps_strong, add_peers_keeps_strong.
Qed.

Lemma foldl_steps_remotes E qs l pi :
  remotes (foldl (compute_peers_step E qs) pi l) = remotes pi
  ∧ my_position (foldl (compute_peers_step E qs) pi l) = my_position pi.
Proof.
  revert pi. induction l as [|j l IH]; intros pi; [done|]. simpl.
  destruct (IH (compute_peers_step E qs pi j)) as [-> ->].
  by rewrite compute_peers_step_remotes, compute_peers_step_my_position.
Qed.

Lemma foldl_steps_keep_strong x E qs l pi :
  strong_peer x pi → strong_peer x (foldl (compute_peers_step E qs) pi l).
Proof.
  revert pi. induction l as [|j l IH]; intros pi Hx; [done|]. simpl.
  by apply IH, compute_peers_step_keeps_strong.
Qed.

(** A step that makes [x] a strong peer whenever it runs decides the result
    of the whole loop. *)
Lemma foldl_steps_strong_at x E qs l pi j :
  j ∈ l →
  (∀ pi', remotes pi' = remotes pi → my_position pi' = my_position pi →
          strong_peer x (compute_peers_step E qs pi' j)) →
  strong_peer x (foldl (compute_peers_step E qs) pi l).
Proof.
  revert pi. induction l as [|k l IH]; intros pi Hin Hstep.
  - by apply elem_of_nil in Hin.
  - simpl. destruct (decide (k = j)) as [->|Hk].
    + apply foldl_steps_keep_strong. by apply Hstep.
    + apply elem_of_cons in Hin as [->|Hin]; [done|].
      apply IH; [done|]. intros pi' Hr Hp. apply Hstep.
      * by rewrite Hr, compute_peers_step_remotes.
      * by rewrite Hp, compute_peers_step_my_position.
Qed.

Lemma position_at_fmap me qs i q :
  qs !! i = Some q → position_at (position_in me <$> qs) i = position_in me q.
Proof. intros Hq. unfold position_at. by rewrite list_lookup_fmap, Hq. Qed.

Lemma quorum_at_lookup qs i q : qs !! i = Some q → quorum_at qs i = validators q.
Proof. intros Hq. unfold quorum_at. by rewrite Hq. Qed.

Lemma relay_to_strong_peer x pi cmd data :
  strong_peer x pi →
  ∃ addr, addr ≠ "" ∧ Send x cmd data (hint addr) ∈ relay_to_peers pi cmd data.
Proof.
  intros (a & Ha & Hne). exists a. split; [done|].
  unfold relay_to_peers. apply list_elem_of_fmap. exists (x, a). simpl.
  split; [by rewrite decide_False|]. by apply elem_of_map_to_list.
Qed.

(** C4, amended: a node that is in Q(i+1) at position [p] but not in Q(i),
    with [p < h], gets the validator at position [h + p] of Q(i) as a
    strong peer whenever that validator's connection details are among the
    remotes: the peer is stored with its address, and [relay_to_peers] sends
    to it with a connection hint rather than only over an open connection. *)
Theorem reverse_bridge_is_strong E qs opportunistic pi me i Qi Qnext p target x addr :
  qs !! i = Some Qi → qs !! S i = Some Qnext →
  my_position pi = position_in me <$> qs →
  position_in me Qi < 0 → position_in me Qnext = p → 0 ≤ p →
  p < Z.quot (Z.min (len (validators Qi)) (len (validators Qnext))) 2 →
  index_Z (validators Qi)
    (Z.quot (Z.min (len (validators Qi)) (len (validators Qnext))) 2 + p) = Some target →
  remotes pi !! target = Some (x, addr) →
  remotes_addressed pi →
  strong_peer x (compute_peers E qs opportunistic pi) ∧
  ∀ cmd data, ∃ a, a ≠ "" ∧
    Send x cmd data (hint a) ∈ relay_to_peers (compute_peers E qs opportunistic pi) cmd data.
Proof.
  intros Hi HSi Hpos Hout Hin Hp Hhalf Htarget Hremote Haddr.
  assert (Hstrong : strong_peer x (compute_peers E qs opportunistic pi)).
  { unfold compute_peers. apply (foldl_steps_strong_at x E qs _ _ (S i)).
    - apply elem_of_seq. apply lookup_lt_Some in HSi. lia.
    - simpl. intros pi' Hr Hmp. unfold compute_peers_step.
      rewrite Hmp, Hpos, (position_at_fmap me qs (S i) Qnext HSi), Hin.
      rewrite decide_False by lia.
      rewrite (quorum_at_lookup qs (S i) Qnext HSi).
      set (pi3 := forward_bridge _ _ _ _).
      assert (Hr3 : remotes pi3 = remotes pi).
      { subst pi3. by rewrite forward_bridge_remotes, !add_peers_remotes. }
      assert (Hp3 : my_position pi3 = position_in me <$> qs).
      { subst pi3. rewrite forward_bridge_my_position, !add_peers_my_position. congruence. }
      unfold reverse_bridge. rewrite Hp3. simpl.
      rewrite (position_at_fmap me qs i Qi Hi).
      rewrite decide_True by (split; [done|lia]).
      rewrite (quorum_at_lookup qs (S i) Qnext HSi), (quorum_at_lookup qs i Qi Hi).
      rewrite (Z.min_comm (len (validators Qnext))).
      rewrite decide_True by done.
      unfold add_peer_at. rewrite Htarget.
      apply (add_peer_strong_adds x addr); [by rewrite Hr3|].
      by eapply Haddr. }
  split; [done|]. intros cmd data. by apply relay_to_strong_peer.
Qed.

Lemma forward_bridge_peers_among v qs i pos pi :
  quorum_at qs i ⊆ v → peers_among v pi → peers_among v (forward_bridge qs i pos pi).
Proof.
  intros Hsub Hinv. unfold forward_bridge. repeat case_decide; try done.
  by apply add_peer_at_peers_among.
Qed.

Lemma remote_of_addressed E info x addr :
  remote_of E info = Some (x, addr) → addr ≠ "".
Proof.
  unfold remote_of. destruct (negb _); [done|]. destruct (_ || _); [done|].
  intros [= _ <-]. done.
Qed.

(** The remotes the constructor stores all have an address. *)
Lemma new_peer_info_remotes_addressed E c qs opportunistic exclude :
  remotes_addressed (new_peer_info E c qs opportunistic exclude).
Proof.
  intros pk x addr. unfold new_peer_info, compute_peers.
  rewrite (proj1 (foldl_steps_remotes E qs _ _)). simpl. rewrite lookup_omap.
  destruct (filter _ _ !! pk) as [info|]; simpl; [|done].
  apply remote_of_addressed.
Qed.

Lemma sample_remotes_addressed me : remotes_addressed (sample_peer_info me).
Proof.
  intros pk x addr. simpl. unfold sample_remotes. rewrite lookup_omap.
  destruct (list_to_map sample_nodes !! pk) as [info|]; simpl; [|done].
  apply remote_of_addressed.
Qed.

(** C2 (the code departs from the claim): for a node in Q at position [p]
    with [h ≤ p < 2h] that is not in Q', the bridge step looks up position
    [p - h] in Q itself.  The validator at that position of Q' is not made a
    peer (unless a member of Q shares its x25519 key), and the validator at
    that position of Q becomes a strong peer. *)
Theorem forward_bridge_targets_own_quorum E q0 q1 opportunistic pi me p target x addr :
  my_position pi = position_in me <$> [q0; q1] →
  peers pi = ∅ →
  position_in me q0 = p → position_in me q1 < 0 →
  Z.quot (Z.min (len (validators q0)) (len (validators q1))) 2 ≤ p
    < Z.quot (Z.min (len (validators q0)) (len (validators q1))) 2 * 2 →
  index_Z (validators q1)
    (p - Z.quot (Z.min (len (validators q0)) (len (validators q1))) 2) = Some target →
  remotes pi !! target = Some (x, addr) →
  (∀ pubkey x' a, pubkey ∈ validators q0 → remotes pi !! pubkey = Some (x', a) → x' ≠ x) →
  peers (compute_peers E [q0; q1] opportunistic pi) !! x = None ∧
  (∀ own x' a,
     index_Z (validators q0)
       (p - Z.quot (Z.min (len (validators q0)) (len (validators q1))) 2) = Some own →
     remotes pi !! own = Some (x', a) → a ≠ "" →
     strong_peer x' (compute_peers E [q0; q1] opportunistic pi)).
Proof.
  intros Hpos Hempty Hp Hout Hrange Htarget Hremote Hdistinct.
  remember (Z.quot (Z.min (len (validators q0)) (len (validators q1))) 2) as h eqn:Hhdef.
  assert (Hh : 0 ≤ h).
  { subst h. apply Z.quot_pos; [apply Z.min_glb; apply Nat2Z.is_nonneg | done]. }
  assert (Hp0 : ¬ p < 0) by (clear -Hh Hrange; lia).
  assert (Hp1 : p >= h ∧ p < h * 2) by (clear -Hrange; lia).
  unfold compute_peers. simpl.
  set (pi0 := set_peers pi (peers pi) 0).
  assert (Hstep1 : ∀ pi', my_position pi' = my_position pi →
                          compute_peers_step E [q0; q1] pi' 1%nat = pi').
  { intros pi' Hmp. unfold compute_peers_step. rewrite Hmp, Hpos. simpl.
    unfold position_at. simpl. by rewrite decide_True. }
  rewrite Hstep1 by (by rewrite compute_peers_step_my_position).
  assert (Hstep0 : compute_peers_step E [q0; q1] pi0 0%nat =
    add_peer_at (validators q0) (p - h) true
      (add_peers (validators q0) (quorum_incoming_conns E p (len (validators q0))) false
         (add_peers (validators q0) (quorum_outgoing_conns E p (len (validators q0))) true
            pi0))).
  { unfold compute_peers_step. simpl. rewrite Hpos. unfold position_at at 1. simpl.
    rewrite Hp. rewrite decide_False by done.
    unfold reverse_bridge. rewrite decide_False by (intros [? _]; done).
    unfold forward_bridge. rewrite !add_peers_my_position. simpl. rewrite Hpos.
    unfold position_at. simpl.
    rewrite decide_True by (split; [clear; lia|done]).
    change (quorum_at [q0; q1] 0) with (validators q0).
    change (quorum_at [q0; q1] 1) with (validators q1).
    rewrite <- Hhdef. rewrite decide_True by done. done. }
  rewrite Hstep0. split.
  - match goal with |- peers ?pi' !! x = None =>
      assert (Hamong : peers_among (validators q0) pi') end.
    { apply add_peer_at_peers_among; [done|].
      apply add_peers_peers_among; [done|]. apply add_peers_peers_among; [done|].
      intros y [a Hy]. simpl in Hy. rewrite Hempty in Hy. by rewrite lookup_empty in Hy. }
    destruct (peers _ !! x) as [a|] eqn:Hx; [|done]. exfalso.
    destruct (Hamong x) as (pk & a' & Hin & Hr); [by rewrite Hx; eauto|].
    rewrite add_peer_at_remotes, !add_peers_remotes in Hr. simpl in Hr.
    by eapply Hdistinct.
  - intros own x' a Hown Hr Ha. unfold add_peer_at at 1. rewrite Hown.
    apply (add_peer_strong_adds x' a); [|done].
    by rewrite !add_peers_remotes.
Qed.

(** J, at position 1 of Q' and not in Q, gets F = Q[4 + 1] as a strong
    peer. *)
Lemma reverse_bridge_is_strong_witness :
  strong_peer (key32 "f")
    (compute_peers sample_E [sample_Q; sample_Q'] true (sample_peer_info (key32 "J"))).
Proof.
  apply (reverse_bridge_is_strong sample_E [sample_Q; sample_Q'] true
           (sample_peer_info (key32 "J")) (key32 "J") 0 sample_Q sample_Q' 1
           (key32 "F") (key32 "f") "tcp://6:22020").
  - reflexivity.
  - reflexivity.
  - reflexivity.
  - reflexivity.
  - reflexivity.
  - lia.
  - reflexivity.
  - reflexivity.
  - reflexivity.
  - apply sample_remotes_addressed.
Defined.

(** C4, counterexample: J is at position 1 of Q' and not in Q, and 1 < h = 4;
    the validator at position 4 + 1 of Q is F, and [compute_peers] stores F
    with its address, as a strong peer and not as a weak one.  The same
    holds through the constructor when F is also J's predecessor in Q': the
    weak entry F has as incoming connection is upgraded to a strong one. *)
Lemma reverse_bridge_not_weak :
  position_in (key32 "J") sample_Q = -1 ∧
  position_in (key32 "J") sample_Q' = 1 ∧
  Z.quot (Z.min (len (validators sample_Q)) (len (validators sample_Q'))) 2 = 4 ∧
  index_Z (validators sample_Q) (4 + 1) = Some (key32 "F") ∧
  remotes (sample_peer_info (key32 "J")) !! key32 "F" = Some (key32 "f", "tcp://6:22020") ∧
  peers (compute_peers sample_E [sample_Q; sample_Q'] true (sample_peer_info (key32 "J")))
    !! key32 "f" = Some "tcp://6:22020" ∧
  relay_to_peers
    (compute_peers sample_E [sample_Q; sample_Q'] true (sample_peer_info (key32 "J")))
    "blink_sign" (bt_int 0) =
  [ Send (key32 "k") "blink_sign" (bt_int 0) (hint "tcp://11:22020");
    Send (key32 "i") "blink_sign" (bt_int 0) optional;
    Send (key32 "f") "blink_sign" (bt_int 0) (hint "tcp://6:22020") ] ∧
  position_in (key32 "J") sample_Q'_with_F = 1 ∧
  map_to_list (peers (new_peer_info sample_E (sample_core (key32 "J") 100 sample_snl)
                        [sample_Q; sample_Q'_with_F] true ∅)) =
  [ (key32 "k", "tcp://11:22020"); (key32 "f", "tcp://6:22020") ].
Proof. repeat split; vm_compute; reflexivity. Qed.

(** F, at position 5 of Q and not in Q', does not get J = Q'[5 - 4] as a
    peer. *)
Lemma forward_bridge_targets_own_quorum_witness :
  peers (compute_peers sample_E [sample_Q; sample_Q'] true (sample_peer_info (key32 "F")))
    !! key32 "j" = None.
Proof.
  apply (forward_bridge_targets_own_quorum sample_E sample_Q sample_Q' true
           (sample_peer_info (key32 "F")) (key32 "F") 5 (key32 "J") (key32 "j")
           "tcp://10:22020").
  - reflexivity.
  - reflexivity.
  - reflexivity.
  - reflexivity.
  - vm_compute. split; [discriminate | reflexivity].
  - reflexivity.
  - reflexivity.
  - intros pubkey x' a Hin.
    repeat (apply elem_of_cons in Hin as [->|Hin]);
      try (vm_compute; intros [= <- _]; discriminate).
    by apply elem_of_nil in Hin.
Defined.

(** Through the constructor, with J also F's predecessor in Q: F is at
    position 5 of Q and not in Q', and J = Q'[5 - 4] stays the weak peer it
    is as incoming connection; the bridge looked up B = Q[1], whose
    connection details were never requested. *)
Example forward_bridge_through_constructor :
  position_in (key32 "F") sample_Q_with_J = 5 ∧
  position_in (key32 "F") sample_Q' = -1 ∧
  index_Z (validators sample_Q') (5 - 4) = Some (key32 "J") ∧
  map_to_list (peers (new_peer_info sample_E (sample_core (key32 "F") 100 sample_snl)
                        [sample_Q_with_J; sample_Q'] true ∅)) =
  [ (key32 "g", "tcp://7:22020"); (key32 "j", "") ].
Proof. repeat split; vm_compute; reflexivity. Qed.

(** At the same input the bridge makes B, the validator at position 5 - 4 of
    Q itself, a strong peer. *)
Example forward_bridge_at_F :
  map_to_list (peers (compute_peers sample_E [sample_Q; sample_Q'] true
                        (sample_peer_info (key32 "F")))) =
  [ (key32 "g", "tcp://7:22020"); (key32 "e", ""); (key32 "b", "tcp://2:22020") ].
Proof. vm_compute. reflexivity. Qed.

(** ** Responses of the entry nodes *)

Lemma wrap_int_succ n : int_min ≤ n < int_max → wrap_int (n + 1) = n + 1.
Proof.
  unfold wrap_int, int_min, int_max. intros Hn.
  rewrite Z.mod_small by lia. lia.
Qed.

(** C8: a [bl_nostart], [bl_bad] or [bl_good] response for a tag without a
    pending submission changes nothing.  Otherwise its counter is
    incremented by one, and the promise is resolved with the response's
    result pair exactly when the incremented counter exceeds
    [remote_count / 2] and the promise has no value yet; after a resolution
    the entry is erased, and without one the entry stays with the new
    counter. *)
Theorem entry_node_response r sender tag pending :
  0 ≤ tag ≤ u64_max →
  ∃ pending' resolved,
    handle_response r (response_message sender r tag) pending = Ret (pending', resolved) ∧
    match pending !! tag with
    | None => pending' = pending ∧ resolved = []
    | Some pbr =>
        let incremented := wrap_int (response_count r pbr + 1) in
        (int_min ≤ response_count r pbr < int_max →
           incremented = response_count r pbr + 1) ∧
        (resolved = [(tag, response_result r)] ↔
           incremented > Z.quot (remote_count pbr) 2 ∧ promise pbr = None) ∧
        (resolved = [(tag, response_result r)] → pending' = delete tag pending) ∧
        (resolved ≠ [(tag, response_result r)] →
           resolved = [] ∧
           pending' = <[tag := with_response_count r incremented pbr]> pending)
    end.
Proof.
  intros Htag.
  destruct r as [e| |]; simpl;
    unfold handle_blink_not_started, handle_blink_failure, handle_blink_success; simpl;
    rewrite decide_True by done; simpl; unfold common_blink_response;
    (destruct (pending !! tag) as [pbr|] eqn:Hlook;
      [|eexists _, _; split; [reflexivity|done]]);
    simpl; unfold with_response_count;
    (case_decide as Hgt; [destruct (promise pbr) as [v|] eqn:Hprom|]);
    eexists _, _; (split; [reflexivity|]);
    (split; [apply wrap_int_succ|]); (split; [split|]);
    try done; try (intros [? ?]; done); try (split; done).
  all: split; [done|intros _; split; [done|]; unfold bump; simpl; by rewrite Hprom].
Qed.

(** The third [bl_good] out of four entry nodes resolves the promise with
    [(accepted, "")] and erases the entry. *)
Lemma entry_node_response_witness :
  handle_response bl_good_response (response_message (key32 "a") bl_good_response 5)
    {[ 5 := sample_pending 1000 ]} = Ret (∅, [(5, (blink_result.accepted, ""))]).
Proof.
  destruct (entry_node_response bl_good_response (key32 "a") 5 {[ 5 := sample_pending 1000 ]})
    as (pending' & resolved & Hrun & Hspec); [vm_compute; split; discriminate|].
  rewrite Hrun. rewrite lookup_singleton_eq in Hspec.
  destruct Hspec as (_ & Hres & Hdel & _).
  assert (Hr : resolved = [(5, response_result bl_good_response)]).
  { apply Hres. split; [reflexivity|reflexivity]. }
  rewrite (Hdel Hr), Hr. by rewrite delete_singleton_eq.
Defined.


(** ** The sweep of [send_blink] *)

Lemma sweep_kept now tx_hash pending tag brd :
  (sweep now tx_hash pending).1.1 !! tag = Some brd ↔
  pending !! tag = Some brd ∧ ¬ expiry brd >= now.
Proof. unfold sweep. simpl. rewrite map_lookup_filter_Some. done. Qed.

Lemma sweep_resolved now tx_hash pending tag v :
  (tag, v) ∈ (sweep now tx_hash pending).1.2 ↔
  v = timed_out ∧ ∃ brd, pending !! tag = Some brd ∧ expiry brd >= now ∧ promise brd = None.
Proof.
  unfold sweep. simpl. rewrite list_elem_of_omap. split.
  - intros ([t brd] & Hin & Hsome). apply elem_of_map_to_list in Hin.
    apply map_lookup_filter_Some in Hin as [Hl Hs]. simpl in *.
    destruct (promise brd) eqn:Hp; [done|]. injection Hsome as <- <-.
    split; [done|]. by exists brd.
  - intros (-> & brd & Hl & He & Hp). exists (tag, brd). split.
    + apply elem_of_map_to_list. apply map_lookup_filter_Some. done.
    + simpl. by rewrite Hp.
Qed.

Lemma choose_tag_unused rng_draws pending t :
  choose_tag rng_draws pending = Some t → t ≠ 0 ∧ pending !! t = None.
Proof.
  unfold choose_tag. intros H. apply find_some in H as [_ H].
  apply negb_true_iff, bool_decide_eq_false in H.
  split; [tauto|]. destruct (pending !! t) eqn:Hl; [|done].
  exfalso. apply H. right. eauto.
Qed.

Lemma send_to_quorum_fulfilled E c rnd pending fulfilled blink_tag tx_hash tx_blob :
  sb_fulfilled (send_to_quorum E c rnd pending fulfilled blink_tag tx_hash tx_blob) = fulfilled.
Proof.
  unfold send_to_quorum. destruct (get_blink_quorums _ _ _ _) as [[qs cs]| |]; done.
Qed.

Lemma send_to_quorum_pending E c rnd pending fulfilled blink_tag tx_hash tx_blob tag :
  tag ≠ blink_tag →
  sb_pending (send_to_quorum E c rnd pending fulfilled blink_tag tx_hash tx_blob) !! tag
  = pending !! tag.
Proof.
  intros Hne. unfold send_to_quorum.
  destruct (get_blink_quorums _ _ _ _) as [[qs cs]| |]; simpl; try done.
  by rewrite lookup_alter_ne.
Qed.

Lemma send_blink_fulfilled E c rnd now now_created pending tx_blob tx_hash :
  parse_and_validate_tx_from_blob E tx_blob = Some tx_hash →
  sb_fulfilled (send_blink E c rnd now now_created pending tx_blob)
  = (sweep now tx_hash pending).1.2.
Proof.
  intros Hparse. unfold send_blink. rewrite Hparse.
  destruct (sweep now tx_hash pending) as [[kept resolved] found]. simpl.
  destruct found; [done|]. case_decide; [done|].
  destruct (choose_tag _ _); [|done]. apply send_to_quorum_fulfilled.
Qed.

Lemma send_blink_kept E c rnd now now_created pending tx_blob tx_hash tag brd :
  parse_and_validate_tx_from_blob E tx_blob = Some tx_hash →
  (sweep now tx_hash pending).1.1 !! tag = Some brd →
  sb_pending (send_blink E c rnd now now_created pending tx_blob) !! tag = Some brd.
Proof.
  intros Hparse. unfold send_blink. rewrite Hparse.
  destruct (sweep now tx_hash pending) as [[kept resolved] found]. simpl. intros Hk.
  destruct found; [done|]. case_decide; [done|].
  destruct (choose_tag _ _) as [t|] eqn:Hc; [|done].
  apply choose_tag_unused in Hc as [_ Hfree].
  assert (tag ≠ t) by congruence.
  rewrite send_to_quorum_pending by done. by rewrite lookup_insert_ne.
Qed.

(** C1 (the code departs from the claim): on a call with a parseable
    transaction the sweep resolves with [(timeout, "Blink quorum timeout")]
    the pending entries whose expiry has not passed yet ([now ≤ expiry]), and
    it neither resolves nor erases an entry whose expiry has passed. *)
Theorem send_blink_sweep_inverted E c rnd now now_created pending tx_blob tx_hash tag brd :
  parse_and_validate_tx_from_blob E tx_blob = Some tx_hash →
  pending !! tag = Some brd → promise brd = None →
  (now ≤ expiry brd →
     (tag, timed_out) ∈ sb_fulfilled (send_blink E c rnd now now_created pending tx_blob)) ∧
  (expiry brd < now →
     ((tag, timed_out) ∉ sb_fulfilled (send_blink E c rnd now now_created pending tx_blob)) ∧
     sb_pending (send_blink E c rnd now now_created pending tx_blob) !! tag = Some brd).
Proof.
  intros Hparse Hl Hp.
  rewrite (send_blink_fulfilled E c rnd now now_created pending tx_blob tx_hash Hparse).
  split.
  - intros He. apply sweep_resolved. split; [done|]. exists brd. split; [done|].
    split; [lia|done].
  - intros He. split.
    + rewrite sweep_resolved. intros (_ & brd' & Hl' & He' & _).
      rewrite Hl in Hl'. injection Hl' as <-. lia.
    + apply (send_blink_kept E c rnd now now_created pending tx_blob tx_hash); [done|].
      apply sweep_kept. split; [done|lia].
Qed.

(** An entry that expires at 20000 is timed out by a call at time 1000. *)
Lemma send_blink_sweep_inverted_witness :
  (5, timed_out) ∈ sb_fulfilled
     (send_blink sample_E (sample_core (key32 "z") 100 sample_snl) sample_rnd
        1000 1001 {[ 5 := sample_pending 20000 ]} "another blink transaction").
Proof.
  refine (proj1 (send_blink_sweep_inverted sample_E (sample_core (key32 "z") 100 sample_snl)
                   sample_rnd 1000 1001 {[ 5 := sample_pending 20000 ]}
                   "another blink transaction" _ 5 (sample_pending 20000) _ _ _) _).
  - reflexivity.
  - apply lookup_singleton_eq.
  - reflexivity.
  - simpl. lia.
Defined.

(** At time 1000, with entry 5 expiring at 20000 and entry 6 expired since
    10: entry 5 is timed out and erased (its tag is then drawn again for the
    new submission), and entry 6 stays. *)
Example send_blink_resolves_live_entry :
  let r := send_blink sample_E (sample_core (key32 "z") 100 sample_snl) sample_rnd
             1000 1001 {[ 5 := sample_pending 20000 ; 6 := sample_pending 10 ]}
             "another blink transaction" in
  sb_fulfilled r = [(5, timed_out)] ∧
  sb_pending r !! 5 = Some {| brd_hash := String.substring 0 32 ("another blink transaction" +:+ zero_bytes 32);
                         promise := None; expiry := 1001 + thirty_seconds; remote_count := 4;
                         nostart_count := 0; bad_count := 0; good_count := 0 |} ∧
  sb_pending r !! 6 = Some (sample_pending 10).
Proof. vm_compute. repeat split; reflexivity. Qed.

(** ** Field presence in [handle_blink_signature] *)

Lemma parse_blink_sign_entry_keeps_saw_s E f input f' :
  parse_blink_sign_entry E f input = Ret f' → input.1 ≠ "s" → saw_s f' = saw_s f.
Proof.
  destruct input as [k v]. unfold parse_blink_sign_entry. simpl.
  destruct k as [|key [|]]; try done.
  intros Hparse Hk.
  repeat case_decide; subst;
    repeat match type of Hparse with
    | obind ?m _ = Ret _ => destruct m; simpl in Hparse; try done
    | (if ?b then _ else _) = Ret _ => destruct b; simpl in Hparse; try done
    end;
    try (injection Hparse as <-; simpl; try done);
    try done.
Qed.

Lemma parse_blink_sign_keeps_saw_s E f data f' :
  parse_blink_sign E f data = Ret f' → dict_find data "s" = None → saw_s f' = saw_s f.
Proof.
  revert f. induction data as [|[k v] data IH]; intros f; simpl.
  - by intros [= ->].
  - case_decide as Hk; [done|]. intros Hparse Hfind.
    destruct (parse_blink_sign_entry E f (k, v)) as [f1| |] eqn:Hentry; try done.
    simpl in Hparse. rewrite (IH f1 Hparse Hfind).
    by apply (parse_blink_sign_entry_keeps_saw_s E f (k, v)).
Qed.

(** When the message has no list [s], the flag [saw_s] that the final check
    reads is the indeterminate value the local started with. *)
Lemma absent_signature_list_flag E hash0 i0 r0 p0 s0 data f :
  parse_blink_sign E (declared_fields hash0 i0 r0 p0 s0) data = Ret f →
  dict_find data "s" = None → saw_s f = s0.
Proof. intros Hparse Hfind. by rewrite (parse_blink_sign_keeps_saw_s E _ data f Hparse Hfind). Qed.

(** C9 (the code departs from the claim): a [blink_sign] message with [h],
    [#], [q], [i], [p], [r] and no [s] is rejected only if the uninitialised
    [saw_s] happens to hold false.  When it holds true the message is
    accepted, and its entries, with the signature a value-initialised
    [crypto::signature], are stored as pending signatures of the
    transaction. *)
Theorem blink_sign_without_signatures_accepted (hash0 : string) (i0 r0 p0 : bool) :
  handle_blink_signature sample_E (sample_core (key32 "A") 100 sample_snl) ∅
    hash0 i0 r0 p0 true blink_sign_without_s =
  Ret (blinks_set ∅ 100 sample_tx_hash
         {| btxptr := None;
            pending_sigs := [ {| sig_approval := true; sig_subquorum := 0;
                                 sig_position := 3; sig_signature := zero_bytes 64 |} ];
            reply_pubkey := ""; reply_tag := 0 |}, []) ∧
  handle_blink_signature sample_E (sample_core (key32 "A") 100 sample_snl) ∅
    hash0 i0 r0 p0 false blink_sign_without_s =
  Throw (invalid_argument "Invalid blink signature data: missing required fields").
Proof. split; vm_compute; reflexivity. Qed.

(** ** Verdicts of [process_blink_signatures] *)

Lemma count_slots_cons b s row :
  count_slots b (s :: row) = (if slot_is b s then 1 else 0) + count_slots b row.
Proof.
  unfold count_slots, len. rewrite filter_cons.
  destruct (slot_is b s); case_decide; try done; simpl; lia.
Qed.

Lemma count_slots_nonneg b row : 0 ≤ count_slots b row.
Proof. unfold count_slots, len. lia. Qed.

Lemma count_slots_disjoint row :
  count_slots true row + count_slots false row ≤ len row.
Proof.
  induction row as [|s row IH]; [done|].
  rewrite !count_slots_cons. unfold len in *. simpl length.
  destruct s as [[[] sig]|]; simpl; lia.
Qed.

Lemma count_slots_insert b a sig row n :
  row !! n = Some None →
  count_slots b (<[n := Some (a, sig)]> row) =
  count_slots b row + (if bool_decide (a = b) then 1 else 0).
Proof.
  revert n. induction row as [|s row IH]; intros n Hn; [done|].
  destruct n as [|n]; simpl in *.
  - injection Hn as ->. rewrite !count_slots_cons. simpl. lia.
  - rewrite !count_slots_cons. rewrite (IH n Hn). lia.
Qed.

Lemma approved_rejected_exclusive E btx :
  approved E btx = true → rejected E btx = true → False.
Proof.
  unfold approved, rejected. intros Ha Hr.
  apply existsb_exists in Hr as (row & Hin & Hr). apply bool_decide_eq_true in Hr.
  rewrite forallb_forall in Ha. specialize (Ha row Hin). apply bool_decide_eq_true in Ha.
  pose proof (count_slots_disjoint row). lia.
Qed.

Lemma forallb_alter {A} (f : A → bool) (g : A → A) rows i :
  (∀ row, rows !! i = Some row → f row = true → f (g row) = true) →
  forallb f rows = true → forallb f (alter g i rows) = true.
Proof.
  revert i. induction rows as [|r rows IH]; intros i Hg Hall; [done|].
  simpl in Hall. apply andb_true_iff in Hall as [Hr Hrows].
  destruct i as [|i]; simpl.
  - rewrite (Hg r eq_refl Hr). done.
  - rewrite Hr. simpl. apply IH; [|done]. intros row Hl. by apply (Hg row).
Qed.

Lemma existsb_alter {A} (f : A → bool) (g : A → A) rows i :
  (∀ row, rows !! i = Some row → f row = true → f (g row) = true) →
  existsb f rows = true → existsb f (alter g i rows) = true.
Proof.
  revert i. induction rows as [|r rows IH]; intros i Hg Hex; [done|].
  simpl in Hex. apply orb_true_iff in Hex.
  destruct i as [|i]; simpl; apply orb_true_iff.
  - destruct Hex as [Hr|Hrows]; [left; by apply (Hg r)|by right].
  - destruct Hex as [Hr|Hrows]; [by left|right].
    apply IH; [|done]. intros row Hl. by apply (Hg row).
Qed.

Lemma index_Z_lookup {A} (l : list A) j a :
  index_Z l j = Some a → l !! Z.to_nat j = Some a.
Proof. unfold index_Z. by case_decide. Qed.

Lemma add_prechecked_unchanged btx sq pos a sig :
  (add_prechecked_signature btx sq pos a sig).2 = false →
  (add_prechecked_signature btx sq pos a sig).1 = btx.
Proof.
  unfold add_prechecked_signature. by destruct (btx_slot btx sq pos) as [[|]|].
Qed.

Lemma add_prechecked_approved E btx sq pos a sig :
  approved E btx = true →
  approved E (add_prechecked_signature btx sq pos a sig).1 = true.
Proof.
  unfold add_prechecked_signature.
  destruct (btx_slot btx sq pos) as [[|]|] eqn:Hslot; try done.
  unfold approved. simpl. apply forallb_alter. intros row Hrow Hf.
  unfold btx_slot in Hslot.
  destruct (index_Z (btx_signatures btx) sq) as [row'|] eqn:Hsq; [|done].
  simpl in Hslot. apply index_Z_lookup in Hsq, Hslot.
  rewrite Hrow in Hsq. injection Hsq as <-.
  apply bool_decide_eq_true in Hf. apply bool_decide_eq_true.
  rewrite (count_slots_insert true a sig row _ Hslot). case_bool_decide; lia.
Qed.

Lemma add_prechecked_rejected E btx sq pos a sig :
  rejected E btx = true →
  rejected E (add_prechecked_signature btx sq pos a sig).1 = true.
Proof.
  unfold add_prechecked_signature.
  destruct (btx_slot btx sq pos) as [[|]|] eqn:Hslot; try done.
  unfold rejected. simpl. apply existsb_alter. intros row Hrow Hf.
  unfold btx_slot in Hslot.
  destruct (index_Z (btx_signatures btx) sq) as [row'|] eqn:Hsq; [|done].
  simpl in Hslot. apply index_Z_lookup in Hsq, Hslot.
  rewrite Hrow in Hsq. injection Hsq as <-.
  apply bool_decide_eq_true in Hf. apply bool_decide_eq_true.
  rewrite (count_slots_insert false a sig row _ Hslot).
  unfold len in *. rewrite length_insert. case_bool_decide; lia.
Qed.

Lemma store_signatures_none btx sigs :
  (store_signatures btx sigs).2 = [] → (store_signatures btx sigs).1 = btx.
Proof.
  revert btx. induction sigs as [|s sigs IH]; intros btx; [done|]. simpl.
  destruct (add_prechecked_signature btx _ _ _ _) as [btx' ok] eqn:Hadd. simpl.
  destruct ok; [done|]. intros Hnil. rewrite (IH btx' Hnil).
  pose proof (add_prechecked_unchanged btx (sig_subquorum s) (sig_position s)
                (sig_approval s) (sig_signature s)) as Hun.
  rewrite Hadd in Hun. by apply Hun.
Qed.

Lemma store_signatures_approved E btx sigs :
  approved E btx = true → approved E (store_signatures btx sigs).1 = true.
Proof.
  revert btx. induction sigs as [|s sigs IH]; intros btx Ha; [done|]. simpl.
  apply IH. by apply add_prechecked_approved.
Qed.

Lemma store_signatures_rejected E btx sigs :
  rejected E btx = true → rejected E (store_signatures btx sigs).1 = true.
Proof.
  revert btx. induction sigs as [|s sigs IH]; intros btx Ha; [done|]. simpl.
  apply IH. by apply add_prechecked_rejected.
Qed.

(** What [process_blink_signatures] does, by the signatures that survive. *)
Lemma process_blink_signatures_cases E c btx qs cs sigs reply_tag reply_pubkey from :
  let r := process_blink_signatures E c btx qs cs sigs reply_tag reply_pubkey from in
  (r = (btx, [])) ∨
  (∃ sigs' relayed,
     r.1 = (store_signatures btx sigs').1 ∧
     Forall (λ s, is_cmd "blink_sign" s = true) relayed ∧
     r.2 = (relayed ++
            if decide (reply_tag ≠ 0 ∧ reply_pubkey ≠ "") then
              if approved E r.1 && negb (approved E btx) then
                [verdict_message reply_pubkey "bl_good" reply_tag]
              else if rejected E r.1 && negb (rejected E btx) then
                [verdict_message reply_pubkey "bl_bad" reply_tag]
              else []
            else [])%list).
Proof.
  unfold process_blink_signatures.
  set (s1 := List.filter (slot_open btx qs) sigs).
  destruct (decide (s1 = [])) as [|H1]; [by left|].
  set (s2 := List.filter (signature_valid E btx qs) s1).
  destruct (decide (s2 = [])) as [|H2]; [by left|].
  destruct (decide ((store_signatures btx s2).2 = [])) as [H3|H3].
  { left. cbv zeta. rewrite (store_signatures_none btx s2 H3). done. }
  right. cbv zeta. eexists s2, _. split; [reflexivity|]. split; [|reflexivity].
  unfold relay_to_peers. apply Forall_fmap, Forall_forall. intros [x a] _. simpl.
  by case_decide.
Qed.

Lemma process_blink_signatures_approved E c btx qs cs sigs reply_tag reply_pubkey from :
  approved E btx = true →
  approved E (process_blink_signatures E c btx qs cs sigs reply_tag reply_pubkey from).1 = true.
Proof.
  intros Ha.
  destruct (process_blink_signatures_cases E c btx qs cs sigs reply_tag reply_pubkey from)
    as [->|(sigs' & relayed & -> & _)]; [done|]. by apply store_signatures_approved.
Qed.

Lemma process_blink_signatures_rejected E c btx qs cs sigs reply_tag reply_pubkey from :
  rejected E btx = true →
  rejected E (process_blink_signatures E c btx qs cs sigs reply_tag reply_pubkey from).1 = true.
Proof.
  intros Ha.
  destruct (process_blink_signatures_cases E c btx qs cs sigs reply_tag reply_pubkey from)
    as [->|(sigs' & relayed & -> & _)]; [done|]. by apply store_signatures_rejected.
Qed.

Lemma verdict_not_relayed relayed reply_pubkey cmd reply_tag :
  cmd ≠ "blink_sign" →
  Forall (λ s, is_cmd "blink_sign" s = true) relayed →
  verdict_message reply_pubkey cmd reply_tag ∉ relayed.
Proof.
  intros Hcmd Hall Hin. rewrite Forall_forall in Hall. specialize (Hall _ Hin).
  simpl in Hall. by apply bool_decide_eq_true in Hall.
Qed.

Lemma verdicts_relayed relayed :
  Forall (λ s, is_cmd "blink_sign" s = true) relayed → verdicts relayed = [].
Proof.
  induction 1 as [|s l Hs _ IH]; [done|]. unfold verdicts in *. simpl. rewrite IH.
  destruct s as [to cmd data opt|cmd data]; simpl in *; [|done].
  apply bool_decide_eq_true in Hs as ->. done.
Qed.

Lemma verdicts_app out1 out2 : verdicts (out1 ++ out2) = (verdicts out1 ++ verdicts out2)%list.
Proof. unfold verdicts. apply List.filter_app. Qed.

(** One call sends at most one verdict, and only when it settles a blink tx
    that was not settled before. *)
Lemma process_blink_signatures_verdicts E c btx qs cs sigs reply_tag reply_pubkey from :
  let r := process_blink_signatures E c btx qs cs sigs reply_tag reply_pubkey from in
  verdicts r.2 = [] ∨
  (length (verdicts r.2) = 1%nat ∧ decided E btx = false ∧ decided E r.1 = true).
Proof.
  cbv zeta.
  pose proof (process_blink_signatures_approved E c btx qs cs sigs reply_tag reply_pubkey from) as Hma.
  pose proof (process_blink_signatures_rejected E c btx qs cs sigs reply_tag reply_pubkey from) as Hmr.
  destruct (process_blink_signatures_cases E c btx qs cs sigs reply_tag reply_pubkey from)
    as [->|(sigs' & relayed & _ & Hrel & Hout)]; [by left|].
  set (r := process_blink_signatures _ _ _ _ _ _ _ _ _) in *.
  rewrite Hout, verdicts_app, (verdicts_relayed relayed Hrel). simpl.
  pose proof (approved_rejected_exclusive E r.1) as Hex.
  unfold decided.
  case_decide; [|by left].
  destruct (approved E r.1) eqn:Ha', (approved E btx) eqn:Ha; simpl;
    destruct (rejected E r.1) eqn:Hr', (rejected E btx) eqn:Hr; simpl;
    try (by left); try (right; done); exfalso; auto.
  all: try (specialize (Hma eq_refl); congruence).
  all: try (specialize (Hmr eq_refl); congruence).
Qed.

(** One call with no other call in between: with [reply_tag > 0] and a
    non-empty [reply_pubkey], [bl_good] with that tag is sent to
    [reply_pubkey] exactly when [approved()] was false before the insertion
    and is true after it, and [bl_bad] exactly when [rejected()] went from
    false to true; with an empty [reply_pubkey] no verdict is sent. *)
Lemma verdict_of_one_call E c btx qs cs sigs reply_tag reply_pubkey from :
  reply_tag > 0 →
  let r := process_blink_signatures E c btx qs cs sigs reply_tag reply_pubkey from in
  (reply_pubkey ≠ "" →
     (verdict_message reply_pubkey "bl_good" reply_tag ∈ r.2 ↔
        approved E btx = false ∧ approved E r.1 = true) ∧
     (verdict_message reply_pubkey "bl_bad" reply_tag ∈ r.2 ↔
        rejected E btx = false ∧ rejected E r.1 = true)) ∧
  (reply_pubkey = "" → verdicts r.2 = []).
Proof.
  intros Htag. cbv zeta.
  split.
  - intros Hpk. split.
    + destruct (process_blink_signatures_cases E c btx qs cs sigs reply_tag reply_pubkey from)
        as [->|(sigs' & relayed & _ & Hrel & Hout)].
      { simpl. split; [by intros ?%elem_of_nil|]. intros [? ?]; congruence. }
      set (r := process_blink_signatures _ _ _ _ _ _ _ _ _) in *.
      rewrite Hout, elem_of_app. rewrite decide_True by (split; [lia|done]).
      split.
      * intros [Hin|Hin]; [by apply verdict_not_relayed in Hin|].
        destruct (approved E r.1), (approved E btx); simpl in Hin; try done;
          destruct (rejected E r.1 && negb (rejected E btx));
          try (by apply elem_of_nil in Hin);
          apply list_elem_of_singleton in Hin; discriminate.
      * intros [-> ->]. right. simpl. apply list_elem_of_singleton. done.
    + pose proof (approved_rejected_exclusive E
          (process_blink_signatures E c btx qs cs sigs reply_tag reply_pubkey from).1) as Hex.
      destruct (process_blink_signatures_cases E c btx qs cs sigs reply_tag reply_pubkey from)
        as [Heq|(sigs' & relayed & _ & Hrel & Hout)].
      { rewrite Heq. simpl. split; [by intros ?%elem_of_nil|]. intros [? ?]; congruence. }
      set (r := process_blink_signatures _ _ _ _ _ _ _ _ _) in *.
      rewrite Hout, elem_of_app. rewrite decide_True by (split; [lia|done]).
      split.
      * intros [Hin|Hin]; [by apply verdict_not_relayed in Hin|].
        destruct (approved E r.1 && negb (approved E btx)).
        { apply list_elem_of_singleton in Hin. discriminate. }
        destruct (rejected E r.1), (rejected E btx); simpl in Hin; try done;
          by apply elem_of_nil in Hin.
      * intros [-> Hr]. rewrite Hr in *. right.
        destruct (approved E r.1); [exfalso; by apply Hex|]. simpl.
        apply list_elem_of_singleton. done.
  - intros ->.
    destruct (process_blink_signatures_cases E c btx qs cs sigs reply_tag "" from)
      as [->|(sigs' & relayed & _ & Hrel & Hout)]; [done|].
    rewrite Hout, verdicts_app, (verdicts_relayed relayed Hrel).
    by rewrite decide_False by (intros [_ ?]; done).
Qed.

(** ** Concurrent calls of [process_blink_signatures] *)

Lemma store_signatures_nil_stored btx sigs :
  (store_signatures btx sigs).2 ≠ [] → sigs ≠ [].
Proof. by intros H ->. Qed.

Lemma filter_nonempty_source {A} (f : A → bool) l : List.filter f l ≠ [] → l ≠ [].
Proof. by intros H ->. Qed.

(** A call that runs with no other call in between does what
    [process_blink_signatures] does as a whole. *)
Lemma call_alone E c btx k :
  let r := process_blink_signatures E c btx (call_quorums k) (call_checksum k)
             (call_signatures k) (call_reply_tag k) (call_reply_pubkey k)
             (call_received_from k) in
  run_schedule E c (start btx [k]) [0; 0; 0; 0]%nat =
  {| r_btx := r.1; r_calls := [(k, returned)]; r_sent := r.2 |}.
Proof.
  cbv zeta. unfold process_blink_signatures, run_schedule, start. cbv zeta.
  cbn [foldl fmap list_fmap].
  unfold schedule_step at 4. cbn [r_calls r_btx r_sent lookup list_lookup call_step].
  destruct (decide (List.filter (slot_open btx (call_quorums k)) (call_signatures k) = []))
    as [H1|H1].
  { reflexivity. }
  cbn [fst snd list_insert insert].
  unfold schedule_step at 3. cbn [r_calls r_btx r_sent lookup list_lookup call_step].
  destruct (decide (List.filter (signature_valid E btx (call_quorums k))
                      (List.filter (slot_open btx (call_quorums k)) (call_signatures k)) = []))
    as [H2|H2].
  { reflexivity. }
  cbn [fst snd list_insert insert].
  unfold schedule_step at 2. cbn [r_calls r_btx r_sent lookup list_lookup call_step].
  cbn [fst snd list_insert insert].
  unfold schedule_step. cbn [r_calls r_btx r_sent lookup list_lookup call_step].
  set (added := store_signatures btx _).
  destruct (decide (added.2 = [])) as [H3|H3].
  { cbn [fst snd list_insert insert app]. reflexivity. }
  cbn [fst snd list_insert insert app]. reflexivity.
Qed.

Lemma schedule_step_at E c btx calls out i k p :
  calls !! i = Some (k, p) →
  schedule_step E c {| r_btx := btx; r_calls := calls; r_sent := out |} i =
  {| r_btx := (call_step E c k btx p).1.1;
     r_calls := <[i := (k, (call_step E c k btx p).1.2)]> calls;
     r_sent := (out ++ (call_step E c k btx p).2)%list |}.
Proof. intros Hl. unfold schedule_step. cbn [r_calls r_btx r_sent]. by rewrite Hl. Qed.

Lemma schedule_step_returned E c btx calls out i k :
  calls !! i = Some (k, returned) →
  schedule_step E c {| r_btx := btx; r_calls := calls; r_sent := out |} i =
  {| r_btx := btx; r_calls := calls; r_sent := out |}.
Proof.
  intros Hl. rewrite (schedule_step_at E c btx calls out i k returned Hl).
  cbn [call_step fst snd]. by rewrite app_nil_r, list_insert_id.
Qed.

Lemma call_run E c s i k :
  r_calls s !! i = Some (k, at_entry) →
  let r := process_blink_signatures E c (r_btx s) (call_quorums k) (call_checksum k)
             (call_signatures k) (call_reply_tag k) (call_reply_pubkey k)
             (call_received_from k) in
  run_schedule E c s [i; i; i; i] =
  {| r_btx := r.1; r_calls := <[i := (k, returned)]> (r_calls s);
     r_sent := (r_sent s ++ r.2)%list |}.
Proof.
  intros Hi. cbv zeta.
  assert (Hlt : (i < length (r_calls s))%nat) by (by eapply lookup_lt_Some).
  destruct s as [btx calls out]. cbn [r_btx r_calls r_sent] in *.
  unfold process_blink_signatures, run_schedule. cbv zeta. cbn [foldl].
  rewrite (schedule_step_at E c btx calls out i k at_entry Hi). cbn [call_step].
  destruct (decide (List.filter (slot_open btx (call_quorums k)) (call_signatures k) = []))
    as [H1|H1].
  { cbn [fst snd].
    rewrite !(schedule_step_returned E c _ _ _ i k) by (by rewrite list_lookup_insert_eq).
    done. }
  cbn [fst snd].
  erewrite schedule_step_at by (by rewrite list_lookup_insert_eq).
  cbn [call_step]. rewrite list_insert_insert_eq.
  destruct (decide (List.filter (signature_valid E btx (call_quorums k))
                      (List.filter (slot_open btx (call_quorums k)) (call_signatures k)) = []))
    as [H2|H2].
  { cbn [fst snd].
    rewrite !(schedule_step_returned E c _ _ _ i k) by (by rewrite list_lookup_insert_eq).
    by rewrite ?app_nil_r. }
  cbn [fst snd].
  erewrite schedule_step_at by (by rewrite list_lookup_insert_eq).
  cbn [call_step fst snd]. rewrite list_insert_insert_eq.
  erewrite schedule_step_at by (by rewrite list_lookup_insert_eq).
  cbn [call_step fst snd]. rewrite list_insert_insert_eq.
  set (added := store_signatures btx _).
  destruct (decide (added.2 = [])) as [H3|H3]; cbn [fst snd]; by rewrite ?app_nil_r.
Qed.

Lemma run_schedule_app E c s l1 l2 :
  run_schedule E c s (l1 ++ l2) = run_schedule E c (run_schedule E c s l1) l2.
Proof. unfold run_schedule. apply foldl_app. Qed.

Lemma relayed_are_blink_sign pi data :
  Forall (λ s, is_cmd "blink_sign" s = true) (relay_to_peers pi "blink_sign" data).
Proof.
  unfold relay_to_peers. apply Forall_fmap, Forall_forall. intros [x a] _. simpl.
  by case_decide.
Qed.

(** C7 (the code departs from the claim): two calls of
    [process_blink_signatures] on one blink tx, with the same non-zero reply
    tag and non-empty reply pubkey, whose blocks under the shared lock both
    run before either block under the unique lock.  If the blink tx is not
    approved at the start, the first call stores a signature that makes it
    approved, and the second call still stores a signature of its own, then
    both calls find [already_approved] false and [now_approved] true, and
    [bl_good] with that tag is sent to the reply pubkey twice: the verdict
    is emitted more than once for the blink tx.  The same two calls one
    after the other send it once. *)
Theorem concurrent_calls_send_the_verdict_twice E c btx qs cs1 cs2 sigs1 sigs2 from1 from2
    tag reply :
  let k1 := {| call_quorums := qs; call_checksum := cs1; call_signatures := sigs1;
               call_reply_tag := tag; call_reply_pubkey := reply;
               call_received_from := from1 |} in
  let k2 := {| call_quorums := qs; call_checksum := cs2; call_signatures := sigs2;
               call_reply_tag := tag; call_reply_pubkey := reply;
               call_received_from := from2 |} in
  let new1 := List.filter (signature_valid E btx qs) (List.filter (slot_open btx qs) sigs1) in
  let new2 := List.filter (signature_valid E btx qs) (List.filter (slot_open btx qs) sigs2) in
  tag ≠ 0 → reply ≠ "" →
  approved E btx = false →
  (store_signatures btx new1).2 ≠ [] →
  approved E (store_signatures btx new1).1 = true →
  (store_signatures (store_signatures btx new1).1 new2).2 ≠ [] →
  verdicts (r_sent (run_schedule E c (start btx [k1; k2]) interleaved)) =
    [verdict_message reply "bl_good" tag; verdict_message reply "bl_good" tag] ∧
  verdicts (r_sent (run_schedule E c (start btx [k1; k2]) in_turn)) =
    [verdict_message reply "bl_good" tag].
Proof.
  intros k1 k2 new1 new2 Htag Hreply Hbefore Hst1 Hafter Hst2. subst k1 k2.
  assert (Hnew1 : new1 ≠ []) by (by apply store_signatures_nil_stored in Hst1).
  assert (Hnew2 : new2 ≠ []) by (by apply store_signatures_nil_stored in Hst2).
  assert (Hopen1 : List.filter (slot_open btx qs) sigs1 ≠ [])
    by (by apply filter_nonempty_source in Hnew1).
  assert (Hopen2 : List.filter (slot_open btx qs) sigs2 ≠ [])
    by (by apply filter_nonempty_source in Hnew2).
  set (b1 := (store_signatures btx new1).1) in *.
  split.
  - unfold interleaved, run_schedule, start. cbn [foldl fmap list_fmap].
    (* the two blocks under the shared lock *)
    erewrite (schedule_step_at E c _ _ _ 0) by reflexivity.
    cbn [call_step call_quorums call_signatures list_insert insert].
    rewrite decide_False by done. cbn [fst snd app list_insert insert].
    erewrite (schedule_step_at E c _ _ _ 1) by reflexivity.
    cbn [call_step call_quorums call_signatures].
    rewrite decide_False by done. cbn [fst snd app list_insert insert].
    (* the signature checks *)
    erewrite (schedule_step_at E c _ _ _ 0) by reflexivity.
    cbn [call_step call_quorums call_signatures].
    rewrite decide_False by done. cbn [fst snd app list_insert insert].
    erewrite (schedule_step_at E c _ _ _ 1) by reflexivity.
    cbn [call_step call_quorums call_signatures].
    rewrite decide_False by done. cbn [fst snd app list_insert insert].
    (* the two blocks under the unique lock *)
    erewrite (schedule_step_at E c _ _ _ 0) by reflexivity.
    cbn [call_step call_quorums call_signatures]. cbn [fst snd app list_insert insert].
    erewrite (schedule_step_at E c _ _ _ 1) by reflexivity.
    cbn [call_step call_quorums call_signatures]. cbn [fst snd app list_insert insert].
    fold new1 new2. fold b1.
    rewrite !(decide_False (P := (store_signatures btx new1).2 = [])) by done.
    rewrite !(decide_False (P := (store_signatures b1 new2).2 = [])) by done.
    rewrite Hafter, (store_signatures_approved E b1 new2 Hafter), Hbefore.
    (* the sends *)
    erewrite (schedule_step_at E c _ _ _ 0) by reflexivity.
    cbn [call_step call_reply_tag call_reply_pubkey]. cbn [fst snd app list_insert insert].
    rewrite (decide_False (P := (store_signatures btx new1).2 = [])) by done.
    rewrite (decide_True (P := tag ≠ 0 ∧ reply ≠ "")) by done.
    erewrite (schedule_step_at E c _ _ _ 1) by reflexivity.
    cbn [call_step call_reply_tag call_reply_pubkey]. cbn [fst snd app list_insert insert r_sent].
    rewrite (decide_False (P := (store_signatures b1 new2).2 = [])) by done.
    rewrite (decide_True (P := tag ≠ 0 ∧ reply ≠ "")) by done.
    cbn [fst snd app r_sent andb negb].
    rewrite !verdicts_app, !(verdicts_relayed _ (relayed_are_blink_sign _ _)).
    reflexivity.
  - unfold in_turn.
    change [0; 0; 0; 0; 1; 1; 1; 1]%nat with ([0; 0; 0; 0] ++ [1; 1; 1; 1])%list%nat.
    rewrite run_schedule_app.
    erewrite (call_run E c (start btx _) 0) by reflexivity.
    erewrite (call_run E c _ 1) by reflexivity.
    cbn [r_sent r_btx start app]. rewrite verdicts_app.
    set (r1 := process_blink_signatures E c btx _ _ _ _ _ _).
    assert (Hr1 : r1.1 = b1 ∧ verdicts r1.2 = [verdict_message reply "bl_good" tag]).
    { subst r1. unfold process_blink_signatures. cbv zeta.
      cbn [call_quorums call_checksum call_signatures call_reply_tag call_reply_pubkey
           call_received_from].
      rewrite decide_False by done. rewrite decide_False by done.
      fold new1. fold b1. rewrite !(decide_False (P := (store_signatures btx new1).2 = [])) by done.
      cbn [fst snd]. split; [done|].
      rewrite verdicts_app, (verdicts_relayed _ (relayed_are_blink_sign _ _)).
      rewrite (decide_True (P := tag ≠ 0 ∧ reply ≠ "")) by done.
      rewrite Hafter, Hbefore. reflexivity. }
    destruct Hr1 as [Hb1 ->]. rewrite Hb1.
    cbn [call_quorums call_checksum call_signatures call_reply_tag call_reply_pubkey
         call_received_from].
    destruct (process_blink_signatures_verdicts E c b1 qs cs2 sigs2 tag reply from2)
      as [->|(_ & Hundec & _)]; [done|].
    unfold decided in Hundec. by rewrite Hafter in Hundec.
Qed.

(** The sample blink tx is one approval short; one handler brings the
    approval of position 6 of the second subquorum, the other that of
    position 7, both for the submitter z with tag 7. *)
Lemma concurrent_calls_send_the_verdict_twice_witness :
  let c := sample_core (key32 "A") 100 sample_snl in
  let cs := blink_checksum sample_E sample_Q' sample_Q in
  let k1 := {| call_quorums := sample_quorums; call_checksum := cs;
               call_signatures := [approval_by 1 6];
               call_reply_tag := 7; call_reply_pubkey := key32 "z";
               call_received_from := key32 "b" |} in
  let k2 := {| call_quorums := sample_quorums; call_checksum := cs;
               call_signatures := [approval_by 1 7];
               call_reply_tag := 7; call_reply_pubkey := key32 "z";
               call_received_from := key32 "c" |} in
  verdicts (r_sent (run_schedule sample_E c (start sample_btx13 [k1; k2]) interleaved)) =
    [verdict_message (key32 "z") "bl_good" 7; verdict_message (key32 "z") "bl_good" 7] ∧
  verdicts (r_sent (run_schedule sample_E c (start sample_btx13 [k1; k2]) in_turn)) =
    [verdict_message (key32 "z") "bl_good" 7].
Proof.
  intros c cs.
  apply (concurrent_calls_send_the_verdict_twice sample_E c sample_btx13 sample_quorums
           cs cs [approval_by 1 6] [approval_by 1 7] (key32 "b") (key32 "c") 7 (key32 "z")).
  - discriminate.
  - discriminate.
  - vm_compute. reflexivity.
  - vm_compute. discriminate.
  - vm_compute. reflexivity.
  - vm_compute. discriminate.
Defined.

(** The interleaved run of the two handlers, evaluated: each relays its
    signature and each sends [bl_good] to z. *)
Example two_handlers_send_bl_good_twice :
  let c := sample_core (key32 "A") 100 sample_snl in
  let cs := blink_checksum sample_E sample_Q' sample_Q in
  let k1 := {| call_quorums := sample_quorums; call_checksum := cs;
               call_signatures := [approval_by 1 6];
               call_reply_tag := 7; call_reply_pubkey := key32 "z";
               call_received_from := key32 "b" |} in
  let k2 := {| call_quorums := sample_quorums; call_checksum := cs;
               call_signatures := [approval_by 1 7];
               call_reply_tag := 7; call_reply_pubkey := key32 "z";
               call_received_from := key32 "c" |} in
  let s := run_schedule sample_E c (start sample_btx13 [k1; k2]) interleaved in
  approved sample_E sample_btx13 = false ∧ approved sample_E (r_btx s) = true ∧
  r_calls s = [(k1, returned); (k2, returned)] ∧
  is_cmd "bl_good" <$> r_sent s = [false; true; false; false; true].
Proof. vm_compute. repeat split; reflexivity. Qed.

(** ** Tables the submitter can reach *)

Lemma pending_wf_empty : pending_wf ∅.
Proof. intros tag pbr. by rewrite lookup_empty. Qed.

Lemma wrap_int_small n : 0 ≤ n ≤ 4 → wrap_int n = n.
Proof. intros Hn. unfold wrap_int, int_min. rewrite Z.mod_small by lia. lia. Qed.

Lemma common_blink_response_wf tag res msg nostart bad good pending :
  pending_wf pending →
  pending_wf (common_blink_response tag res msg nostart bad good pending).1.
Proof.
  intros Hwf. unfold common_blink_response.
  destruct (pending !! tag) as [pbr|] eqn:Hl; [|done].
  destruct (Hwf tag pbr Hl) as (Hp & Hrc & Hn & Hb & Hg).
  assert (Hq : 0 ≤ Z.quot (remote_count pbr) 2 ≤ 2).
  { split; [apply Z.quot_pos; lia|]. apply Z.quot_le_upper_bound; lia. }
  case_decide as Hgt.
  - rewrite Hp. simpl. intros t e He. apply lookup_delete_Some in He as [_ He].
    by apply (Hwf t).
  - simpl. intros t e He. apply lookup_insert_Some in He as [[<- <-]|[_ He]];
      [|by apply (Hwf t)].
    unfold selected_count, bump in *. simpl in *.
    destruct nostart; [|destruct bad]; simpl in *;
      rewrite wrap_int_small in * by lia; repeat split; try done; lia.
Qed.

Lemma send_to_quorum_wf E c rnd pending fulfilled blink_tag tx_hash tx_blob :
  pending_wf pending →
  (∀ pbr, pending !! blink_tag = Some pbr →
          nostart_count pbr = 0 ∧ bad_count pbr = 0 ∧ good_count pbr = 0) →
  pending_wf (sb_pending (send_to_quorum E c rnd pending fulfilled blink_tag tx_hash tx_blob)).
Proof.
  intros Hwf Hnew. unfold send_to_quorum.
  destruct (get_blink_quorums _ _ _ _) as [[qs cs]| |]; simpl; try done.
  intros t e He. apply lookup_alter_Some in He as [(<- & pbr & Hl & ->)|[_ He]];
    [|by apply (Hwf t)].
  destruct (Hwf _ _ Hl) as (Hp & _). destruct (Hnew _ Hl) as (Hn & Hb & Hg). simpl.
  rewrite Hn, Hb, Hg.
  set (indices := take 4 _).
  assert (Hlen : 0 ≤ len indices ≤ 4).
  { unfold len. subst indices. rewrite length_take. lia. }
  assert (0 ≤ Z.quot (len indices) 2) by (apply Z.quot_pos; lia).
  repeat split; try done; lia.
Qed.

Lemma send_blink_wf E c rnd now now_created pending tx_blob :
  pending_wf pending →
  pending_wf (sb_pending (send_blink E c rnd now now_created pending tx_blob)).
Proof.
  intros Hwf. unfold send_blink.
  destruct (parse_and_validate_tx_from_blob E tx_blob) as [tx_hash|]; [|done].
  destruct (sweep now tx_hash pending) as [[kept resolved] found] eqn:Hsweep.
  assert (Hkept : pending_wf kept).
  { intros t e He. apply (Hwf t).
    assert (kept = (sweep now tx_hash pending).1.1) as -> by (by rewrite Hsweep).
    by apply sweep_kept in He as [He _]. }
  destruct found; [done|]. case_decide; [done|].
  destruct (choose_tag _ _) as [t|] eqn:Hc; [|done].
  apply send_to_quorum_wf.
  - intros t' e He. apply lookup_insert_Some in He as [[<- <-]|[_ He]];
      [|by apply (Hkept t')].
    simpl. repeat split; done.
  - intros pbr. rewrite lookup_insert_eq. by intros [= <-].
Qed.

(** In a reachable table the response is resolved exactly when its counter,
    incremented by one, exceeds half of the entry nodes contacted. *)
Lemma entry_node_response_reachable r sender tag pending pbr :
  0 ≤ tag ≤ u64_max → pending_wf pending → pending !! tag = Some pbr →
  ∃ pending' resolved,
    handle_response r (response_message sender r tag) pending = Ret (pending', resolved) ∧
    pending_wf pending' ∧
    (response_count r pbr + 1 > Z.quot (remote_count pbr) 2 →
       resolved = [(tag, response_result r)] ∧ pending' = delete tag pending) ∧
    (¬ response_count r pbr + 1 > Z.quot (remote_count pbr) 2 →
       resolved = [] ∧
       pending' = <[tag := with_response_count r (response_count r pbr + 1) pbr]> pending).
Proof.
  intros Htag Hwf Hl.
  destruct (Hwf tag pbr Hl) as (Hp & Hrc & Hn & Hb & Hg).
  assert (Hq : 0 ≤ Z.quot (remote_count pbr) 2 ≤ 2).
  { split; [apply Z.quot_pos; lia|]. apply Z.quot_le_upper_bound; lia. }
  assert (Hinc : wrap_int (response_count r pbr + 1) = response_count r pbr + 1).
  { apply wrap_int_succ. unfold int_min, int_max. destruct r; simpl; lia. }
  assert (Hrun : handle_response r (response_message sender r tag) pending =
                 Ret (common_blink_response tag (response_result r).1 (response_result r).2
                        (match r with bl_nostart_response _ => true | _ => false end)
                        (match r with bl_bad_response => true | _ => false end)
                        (match r with bl_good_response => true | _ => false end) pending)).
  { destruct r; simpl;
      unfold handle_blink_not_started, handle_blink_failure, handle_blink_success; simpl;
      by rewrite decide_True. }
  eexists _, _. split; [by rewrite Hrun; apply f_equal, surjective_pairing|].
  split; [by apply common_blink_response_wf|].
  unfold common_blink_response. rewrite Hl, Hp.
  destruct r as [e| |]; simpl in *; rewrite Hinc; unfold with_response_count, bump; simpl;
    (split; intros Hc; [rewrite decide_True by done|rewrite decide_False by done]);
    simpl; rewrite ?Hinc, ?Hp; done.
Qed.

(** * Further properties *)

(** ** Connection lookup *)

Lemma is_null_zero_bytes n : is_null (zero_bytes n) = true.
Proof. induction n as [|n IH]; [done|]. simpl. by rewrite IH. Qed.

(** X1: the address [relay_to_peers] gives as connection hint for a peer is
    the one the transport's own [peer_lookup] finds for the peer's x25519
    key, when the directory maps that key back to the node. *)
Theorem peer_lookup_agrees_with_hint E snl pubkey info x addr :
  sn_infos snl !! pubkey = Some info →
  remote_of E info = Some (x, addr) →
  get_pubkey_from_x25519 snl x = pubkey → is_null pubkey = false →
  str_size x = 32 →
  peer_lookup E snl x = addr.
Proof.
  intros Hinfo Hremote Hback Hpk Hsize.
  unfold peer_lookup, x25519_from_string, get_connect_string.
  rewrite decide_True by done. rewrite Hback, Hpk, Hinfo.
  unfold remote_of in Hremote.
  destruct (is_active info); simpl in Hremote; [|done].
  destruct (is_null (pubkey_x25519 info)) eqn:Hnull; simpl in Hremote; [done|].
  destruct (bool_decide (quorumnet_port info = 0)) eqn:Hport; simpl in Hremote; [done|].
  destruct (bool_decide (public_ip info = 0)) eqn:Hip; simpl in Hremote; [done|].
  injection Hremote as <- <-. by rewrite Hnull.
Qed.

Lemma peer_lookup_agrees_with_hint_witness :
  peer_lookup sample_E sample_snl (key32 "a") = "tcp://1:22020".
Proof.
  apply (peer_lookup_agrees_with_hint sample_E sample_snl (key32 "A")
           {| is_active := true; pubkey_x25519 := key32 "a"; public_ip := 1;
              quorumnet_port := 22020 |}); reflexivity.
Defined.

(** X2: the lookup finds no address for a key that is not 32 bytes long, and
    whenever it finds one, it is a [tcp://] address and an incoming
    connection with that key is authenticated as a service node. *)
Theorem peer_lookup_only_service_nodes E snl ip x :
  (str_size x ≠ 32 → peer_lookup E snl x = "") ∧
  (peer_lookup E snl x ≠ "" →
     allow_connection snl ip x = allow_service_node ∧
     ∃ rest, peer_lookup E snl x = "tcp://" +:+ rest).
Proof.
  unfold peer_lookup, allow_connection, get_connect_string. split.
  - intros Hsize. unfold x25519_from_string. rewrite decide_False by done.
    by rewrite is_null_zero_bytes.
  - destruct (is_null (x25519_from_string x)); [done|].
    destruct (is_null (get_pubkey_from_x25519 snl _)); [done|].
    destruct (sn_infos snl !! _) as [info|]; [|done].
    destruct (_ || _); [done|]. intros _. split; [done|]. eauto.
Qed.


(** ** Peer topology: invariants of the constructor *)

Section add_peer_invariant.
Variable Inv : peer_info → Prop.
Hypothesis Inv_add_peer : ∀ pi pk s, Inv pi → Inv (add_peer pi pk s).1.

Lemma Inv_add_peer_at v j s pi : Inv pi → Inv (add_peer_at v j s pi).
Proof. intros H. unfold add_peer_at. destruct (index_Z v j); [by apply Inv_add_peer|done]. Qed.

Lemma Inv_add_peers v conns s pi : Inv pi → Inv (add_peers v conns s pi).
Proof.
  unfold add_peers. revert pi. induction conns as [|j conns IH]; intros pi H; [done|].
  simpl. by apply IH, Inv_add_peer_at.
Qed.

Lemma Inv_compute_peers_step E qs pi i : Inv pi → Inv (compute_peers_step E qs pi i).
Proof.
  intros H. unfold compute_peers_step. case_decide; [done|].
  unfold reverse_bridge, forward_bridge.
  repeat case_decide; repeat apply Inv_add_peer_at; by repeat apply Inv_add_peers.
Qed.

Lemma Inv_compute_peers E qs opportunistic pi :
  Inv (set_peers pi (peers pi) 0) → Inv (compute_peers E qs opportunistic pi).
Proof.
  unfold compute_peers. generalize (set_peers pi (peers pi) 0). clear pi.
  induction (seq 0 (length qs)) as [|i l IH]; intros pi H; [done|].
  simpl. by apply IH, Inv_compute_peers_step.
Qed.
End add_peer_invariant.

Lemma add_peer_peers_known pi pk s : peers_known pi → peers_known (add_peer pi pk s).1.
Proof.
  intros Hinv y a. pose proof (add_peer_remotes pi pk s) as Hrem. rewrite Hrem.
  unfold add_peer. destruct (remotes pi !! pk) as [[x addr]|] eqn:Hr; [|by apply Hinv].
  destruct (peers pi !! x) as [e|] eqn:He.
  - destruct (s && _); simpl; [|by apply Hinv].
    destruct (decide (x = y)) as [->|Hx].
    + rewrite lookup_insert_eq. intros [= <-]. eauto.
    + rewrite lookup_insert_ne by done. apply Hinv.
  - simpl. destruct (decide (x = y)) as [->|Hx].
    + rewrite lookup_insert_eq. intros [= <-]. exists pk, addr. split; [done|].
      destruct s; auto.
    + rewrite lookup_insert_ne by done. apply Hinv.
Qed.

Lemma add_peer_counted pi pk s :
  strong_peers_counted pi → strong_peers_counted (add_peer pi pk s).1.
Proof.
  intros [Haddr Hcount]. split.
  { intros k x a. rewrite add_peer_remotes. apply Haddr. }
  revert Hcount. unfold add_peer, strong_entries.
  destruct (remotes pi !! pk) as [[x addr]|] eqn:Hr; [|done].
  assert (Hne : addr ≠ "") by (by eapply Haddr).
  destruct (peers pi !! x) as [e|] eqn:He.
  - destruct s; simpl; [|done]. case_bool_decide as Hemp; simpl; [|done]. subst e.
    intros ->. rewrite map_filter_insert_True by done.
    rewrite map_size_insert_None; [lia|].
    apply map_lookup_filter_None. right. intros a Ha. rewrite He in Ha.
    injection Ha as <-. simpl. tauto.
  - simpl. intros ->. destruct s.
    + rewrite map_filter_insert_True by done.
      rewrite map_size_insert_None; [lia|].
      apply map_lookup_filter_None. by left.
    + rewrite map_filter_insert_False by (simpl; tauto).
      by rewrite delete_id.
Qed.

(** The fields the constructor fixes before [compute_peers] runs are those
    of the result. *)
Lemma new_peer_info_fields E c qs opportunistic exclude :
  let pi := new_peer_info E c qs opportunistic exclude in
  my_position pi = position_in (my_pub c) <$> qs ∧
  remotes pi =
    omap (remote_of E)
      (filter (λ kv, kv.1 ∈ need_remotes E qs (position_in (my_pub c) <$> qs) opportunistic
                              (exclude ∪ {[ my_pub c ]}))
         (sn_infos (get_service_node_list c))).
Proof.
  cbv zeta. unfold new_peer_info, compute_peers.
  destruct (foldl_steps_remotes E qs (seq 0 (length qs))
    (set_peers {| remotes := omap (remote_of E)
         (filter (λ kv, kv.1 ∈ need_remotes E qs (position_in (my_pub c) <$> qs) opportunistic
                              (exclude ∪ {[ my_pub c ]}))
         (sn_infos (get_service_node_list c)));
       peers := ∅; strong_peers := 0; my_position := position_in (my_pub c) <$> qs;
       my_position_count := len (filter (λ p, p ≠ -1) (position_in (my_pub c) <$> qs)) |}
       ∅ 0)) as [Hr Hp].
  simpl in *. by rewrite Hr, Hp.
Qed.

Lemma new_peer_info_counted E c qs opportunistic exclude :
  strong_peers_counted (new_peer_info E c qs opportunistic exclude).
Proof.
  apply (Inv_compute_peers strong_peers_counted add_peer_counted). split.
  - intros pk x addr. simpl. rewrite lookup_omap.
    destruct (filter _ _ !! pk) as [info|]; simpl; [|done]. apply remote_of_addressed.
  - simpl. unfold strong_entries. simpl. by rewrite map_filter_empty, map_size_empty.
Qed.

(** X3: in every [peer_info] the constructor builds, [strong_peers] is the
    number of entries of [peers] that carry a connection address. *)
Theorem strong_peers_counts_addressed_peers E c qs opportunistic exclude :
  strong_peers (new_peer_info E c qs opportunistic exclude) =
  Z.of_nat (size (strong_entries (new_peer_info E c qs opportunistic exclude))).
Proof. apply new_peer_info_counted. Qed.


Lemma hinted_relays_size (m : gmap string string) cmd data :
  length (List.filter is_hinted
            ((λ peer : string * string,
                if decide (peer.2 = "") then Send peer.1 cmd data optional
                else Send peer.1 cmd data (hint peer.2)) <$> map_to_list m)) =
  size (filter (λ kv : string * string, kv.2 ≠ "") m).
Proof.
  induction m as [|k a m Hk IH] using map_ind.
  { by rewrite map_to_list_empty, map_filter_empty, map_size_empty. }
  assert (Hperm : ∀ l1 l2 : list sent, l1 ≡ₚ l2 →
            length (List.filter is_hinted l1) = length (List.filter is_hinted l2)).
  { induction 1 as [|s l1 l2 _ IH'| |]; simpl; try done.
    - destruct (is_hinted s); simpl; congruence.
    - destruct (is_hinted x), (is_hinted y); done.
    - congruence. }
  rewrite (Hperm _ _ (fmap_Permutation _ _ _ (map_to_list_insert m k a Hk))).
  rewrite fmap_cons. cbn [fst snd].
  destruct (decide (a = "")) as [Ha|Ha]; cbn [List.filter is_hinted length].
  - rewrite map_filter_insert_False by (simpl; tauto). by rewrite IH, delete_id.
  - rewrite map_filter_insert_True by done. rewrite IH.
    rewrite map_size_insert_None; [done|]. apply map_lookup_filter_None. by left.
Qed.

(** X4: relaying through a [peer_info] the constructor built sends one
    message per peer, each with the given command and data: with the peer's
    connection address as hint when there is one, and only over an open
    connection otherwise; the number of hinted messages is [strong_peers]. *)
Theorem relay_to_peers_one_message_per_peer E c qs opportunistic exclude cmd data :
  let pi := new_peer_info E c qs opportunistic exclude in
  let out := relay_to_peers pi cmd data in
  length out = size (peers pi) ∧
  Z.of_nat (length (List.filter is_hinted out)) = strong_peers pi ∧
  ∀ s, s ∈ out ↔
       ∃ x a, peers pi !! x = Some a ∧
              s = Send x cmd data (if decide (a = "") then optional else hint a).
Proof.
  cbv zeta. split; [|split].
  - unfold relay_to_peers. by rewrite length_fmap, length_map_to_list.
  - rewrite (proj2 (new_peer_info_counted E c qs opportunistic exclude)).
    unfold relay_to_peers, strong_entries. by rewrite hinted_relays_size.
  - intros s. unfold relay_to_peers. rewrite list_elem_of_fmap. split.
    + intros ([x a] & -> & Hin). apply elem_of_map_to_list in Hin. exists x, a.
      split; [done|]. simpl. by case_decide.
    + intros (x & a & Hl & ->). exists (x, a). split; [simpl; by case_decide|].
      by apply elem_of_map_to_list.
Qed.

Lemma wanted_elem v conns exclude k :
  k ∈ wanted v conns exclude → k ∈ v ∧ k ∉ exclude.
Proof.
  unfold wanted. rewrite elem_of_list_to_set, list_elem_of_filter.
  intros [Hex Hin]. split; [|done]. apply list_elem_of_omap in Hin as (j & _ & Hj).
  by eapply index_Z_elem.
Qed.

Lemma need_remotes_elem E qs pos opportunistic exclude k :
  k ∈ need_remotes E qs pos opportunistic exclude →
  (k ∈ qs ≫= validators) ∧ k ∉ exclude.
Proof.
  unfold need_remotes. rewrite elem_of_union_list.
  intros (X & HX & Hk). apply elem_of_lookup_imap in HX as (i & q & -> & Hq).
  assert (Hsub : ∀ k', k' ∈ validators q → k' ∈ qs ≫= validators).
  { intros k' Hk'. apply list_elem_of_bind. exists q. split; [done|].
    by eapply list_elem_of_lookup_2. }
  apply elem_of_union in Hk as [Hk|Hk].
  - apply wanted_elem in Hk as [? ?]. auto.
  - destruct opportunistic; [|by apply elem_of_empty in Hk].
    apply wanted_elem in Hk as [? ?]. auto.
Qed.

Lemma new_peer_info_peer_origin E c qs opportunistic exclude x a :
  peers (new_peer_info E c qs opportunistic exclude) !! x = Some a →
  ∃ pubkey info,
    (pubkey ∈ qs ≫= validators) ∧ pubkey ≠ my_pub c ∧ (pubkey ∉ exclude) ∧
    sn_infos (get_service_node_list c) !! pubkey = Some info ∧
    is_active info = true ∧ pubkey_x25519 info = x ∧
    (a = "" ∨
     a = "tcp://" +:+ get_ip_string_from_int32 E (public_ip info) +:+ ":" +:+
         pretty (quorumnet_port info)).
Proof.
  intros Hx.
  assert (Hknown : peers_known (new_peer_info E c qs opportunistic exclude)).
  { apply (Inv_compute_peers peers_known add_peer_peers_known).
    intros y b. simpl. by rewrite lookup_empty. }
  destruct (Hknown x a Hx) as (pk & addr & Hr & Ha).
  rewrite (proj2 (new_peer_info_fields E c qs opportunistic exclude)) in Hr.
  rewrite lookup_omap in Hr.
  destruct (filter _ _ !! pk) as [info|] eqn:Hf; simpl in Hr; [|done].
  apply map_lookup_filter_Some in Hf as [Hinfo Hneed]. simpl in Hneed.
  apply need_remotes_elem in Hneed as [Hin Hex].
  exists pk, info. split; [done|].
  split; [intros ->; apply Hex, elem_of_union; right; by apply elem_of_singleton|].
  split; [intros ?; apply Hex, elem_of_union; by left|].
  split; [done|].
  unfold remote_of in Hr. destruct (is_active info); simpl in Hr; [|done].
  destruct (_ || _); [done|]. injection Hr as <- <-. done.
Qed.

(** X5: every peer of a [peer_info] the constructor built is the x25519 key
    of an active, registered validator of one of the quorums that is neither
    this node nor in the exclude set; its stored address is empty or the
    node's [tcp://] address. *)
Theorem peers_are_other_active_validators E c qs opportunistic exclude x a :
  peers (new_peer_info E c qs opportunistic exclude) !! x = Some a →
  ∃ pubkey info,
    (pubkey ∈ qs ≫= validators) ∧ pubkey ≠ my_pub c ∧ (pubkey ∉ exclude) ∧
    sn_infos (get_service_node_list c) !! pubkey = Some info ∧
    is_active info = true ∧ pubkey_x25519 info = x ∧
    (a = "" ∨
     a = "tcp://" +:+ get_ip_string_from_int32 E (public_ip info) +:+ ":" +:+
         pretty (quorumnet_port info)).
Proof. apply new_peer_info_peer_origin. Qed.

Lemma peers_are_other_active_validators_witness :
  ∃ pubkey info,
    (pubkey ∈ [sample_Q; sample_Q'] ≫= validators) ∧ pubkey ≠ key32 "F" ∧
    (pubkey ∉ ({[ key32 "E" ]} : gset string)) ∧
    sn_infos sample_snl !! pubkey = Some info ∧
    is_active info = true ∧ pubkey_x25519 info = key32 "g" ∧
    ("tcp://7:22020" = "" ∨
     "tcp://7:22020" = "tcp://" +:+ get_ip_string_from_int32 sample_E (public_ip info) +:+ ":" +:+
         pretty (quorumnet_port info)).
Proof.
  apply (peers_are_other_active_validators sample_E (sample_core (key32 "F") 100 sample_snl)
           [sample_Q; sample_Q'] true {[ key32 "E" ]} (key32 "g") "tcp://7:22020").
  vm_compute. reflexivity.
Defined.

Lemma find_index_spec v key :
  match find_index v key with
  | Some n => v !! n = Some key ∧ ∀ j, (j < n)%nat → v !! j ≠ Some key
  | None => key ∉ v
  end.
Proof.
  induction v as [|k v IH]; simpl; [by apply not_elem_of_nil|].
  case_decide as Hk.
  - subst. split; [done|]. intros j Hj. lia.
  - destruct (find_index v key) as [n|]; simpl.
    + destruct IH as [Hn Hfirst]. split; [done|]. intros [|j] Hj; simpl.
      * congruence.
      * apply Hfirst. lia.
    + rewrite not_elem_of_cons. auto.
Qed.

Lemma position_in_member me q : 0 ≤ position_in me q ↔ me ∈ validators q.
Proof.
  unfold position_in. pose proof (find_index_spec (validators q) me) as H.
  destruct (find_index (validators q) me) as [n|].
  - split; [|lia]. intros _. by eapply list_elem_of_lookup_2, H.
  - split; [lia|done].
Qed.

Lemma position_in_absent me q : position_in me q = -1 ↔ me ∉ validators q.
Proof.
  rewrite <- position_in_member. unfold position_in.
  destruct (find_index (validators q) me); lia.
Qed.

Lemma new_peer_info_position_count E c qs opportunistic exclude :
  my_position_count (new_peer_info E c qs opportunistic exclude) =
  len (filter (λ q, my_pub c ∈ validators q) qs).
Proof.
  unfold new_peer_info. cbv zeta.
  rewrite (Inv_compute_peers
             (λ pi, my_position_count pi =
                    len (filter (λ p, p ≠ -1) (position_in (my_pub c) <$> qs))));
    [| |done].
  2:{ intros pi pk s. unfold add_peer. destruct (remotes pi !! pk) as [[y b]|]; [|done].
      destruct (peers pi !! y); [|done]. by destruct (s && _). }
  unfold len. f_equal.
  induction qs as [|q qs IH]; [done|]. rewrite fmap_cons, !filter_cons.
  destruct (decide (my_pub c ∈ validators q)) as [Hin|Hout].
  - apply position_in_member in Hin as Hp. rewrite decide_True by lia.
    simpl. by rewrite IH.
  - apply position_in_absent in Hout as Hp. rewrite decide_False by lia. done.
Qed.

(** X6: the constructor records, for each quorum, the first position at which
    this node's key stands among the validators, or -1 when it is not among
    them; [my_position_count] is the number of quorums that contain the
    key. *)
Theorem my_position_locates_this_node E c qs opportunistic exclude :
  let pi := new_peer_info E c qs opportunistic exclude in
  length (my_position pi) = length qs ∧
  (∀ i q, qs !! i = Some q →
     let p := position_at (my_position pi) i in
     (my_pub c ∉ validators q → p = -1) ∧
     (my_pub c ∈ validators q →
        0 ≤ p ∧ validators q !! Z.to_nat p = Some (my_pub c) ∧
        ∀ j, (j < Z.to_nat p)%nat → validators q !! j ≠ Some (my_pub c))) ∧
  my_position_count pi = len (filter (λ q, my_pub c ∈ validators q) qs).
Proof.
  cbv zeta.
  destruct (new_peer_info_fields E c qs opportunistic exclude) as [Hpos _].
  rewrite Hpos. split; [by rewrite length_fmap|]. split.
  - intros i q Hq. rewrite (position_at_fmap _ _ _ _ Hq). split.
    + apply position_in_absent.
    + intros Hin. apply position_in_member in Hin as Hp. split; [done|].
      unfold position_in in *.
      pose proof (find_index_spec (validators q) (my_pub c)) as Hspec.
      destruct (find_index (validators q) (my_pub c)) as [n|]; [|lia].
      by rewrite Nat2Z.id.
  - apply new_peer_info_position_count.
Qed.


(** ** Blink quorums: checksum agreement *)

Lemma wrap64_range z : 0 ≤ wrap64 z ≤ u64_max.
Proof. unfold wrap64, u64_max. pose proof (Z.mod_pos_bound z 18446744073709551616). lia. Qed.

(** X7: the checksum [get_blink_quorums] computes when it is given none (as
    the submitter calls it) is a [uint64_t] that the same call accepts as
    input checksum (as the receiving nodes call it), with the same quorums;
    every other input checksum is refused as a wrong quorum checksum.  When
    the quorums cannot be built, the outcome is the same whatever the input
    checksum. *)
Theorem blink_checksum_agreement E h snl :
  match get_blink_quorums E h snl None with
  | Ret (qs, cs) =>
      0 ≤ cs ≤ u64_max ∧
      ∀ c, get_blink_quorums E h snl (Some c) =
           if decide (c = cs) then Ret (qs, cs)
           else Throw (runtime_error ("wrong quorum checksum: expected " +:+ pretty cs +:+
                                      ", received " +:+ pretty c))
  | Throw e => ∀ c, get_blink_quorums E h snl (Some c) = Throw e
  | Undefined w => ∀ c, get_blink_quorums E h snl (Some c) = Undefined w
  end.
Proof.
  rewrite get_blink_quorums_unfold.
  assert (Hsome : ∀ c, get_blink_quorums E h snl (Some c) =
    (r ←! get_blink_quorums_loop E snl h [0; 1] [] 0;
     if decide (c ≠ r.2) then
       Throw (runtime_error ("wrong quorum checksum: expected " +:+ pretty r.2 +:+
                             ", received " +:+ pretty c))
     else Ret r)) by (intros c; apply get_blink_quorums_unfold).
  assert (Hrange : ∀ r, get_blink_quorums_loop E snl h [0; 1] [] 0 = Ret r → 0 ≤ r.2 ≤ u64_max).
  { simpl. intros r. repeat (case_decide || destruct (get_quorum _ _ _)); try done.
    intros [= <-]. simpl. apply wrap64_range. }
  destruct (get_blink_quorums_loop E snl h [0; 1] [] 0) as [[qs cs]|e|w] eqn:Hloop; simpl.
  - split; [by apply (Hrange (qs, cs))|]. intros c. rewrite Hsome. simpl.
    destruct (decide (c = cs)) as [->|Hc].
    + by rewrite decide_False by (intros ?; done).
    + by rewrite decide_True.
  - intros c. by rewrite Hsome.
  - intros c. by rewrite Hsome.
Qed.

(** X8: the quorums [get_blink_quorums] returns are one per subquorum, each
    the quorum the directory holds at that subquorum's (non-zero) quorum
    height and each with between [BLINK_MIN_VOTES] and [BLINK_SUBQUORUM_SIZE]
    validators; the checksum is the sum of theirs modulo 2^64. *)
Theorem blink_quorums_returned E h snl input_checksum qs cs :
  get_blink_quorums E h snl input_checksum = Ret (qs, cs) →
  ∃ q0 q1,
    qs = [q0; q1] ∧ cs = blink_checksum E q0 q1 ∧
    quorum_height E h 0 ≠ 0 ∧ get_quorum snl blink (quorum_height E h 0) = Some q0 ∧
    quorum_height E h 1 ≠ 0 ∧ get_quorum snl blink (quorum_height E h 1) = Some q1 ∧
    size_in_range E q0 ∧ size_in_range E q1 ∧
    (∀ c, input_checksum = Some c → c = cs).
Proof.
  rewrite get_blink_quorums_unfold. simpl. unfold size_in_range.
  destruct (decide (quorum_height E h 0 = 0)) as [|N0]; [done|].
  destruct (get_quorum snl blink (quorum_height E h 0)) as [q0|] eqn:Hq0; [|done].
  destruct (decide (len (validators q0) < BLINK_MIN_VOTES E ∨ _)) as [|G0]; [done|].
  destruct (decide (quorum_height E h 1 = 0)) as [|N1]; [done|].
  destruct (get_quorum snl blink (quorum_height E h 1)) as [q1|] eqn:Hq1; [|done].
  destruct (decide (len (validators q1) < BLINK_MIN_VOTES E ∨ _)) as [|G1]; [done|].
  simpl. fold (blink_checksum E q0 q1). intros Hret.
  assert (Hqs : qs = [q0; q1] ∧ cs = blink_checksum E q0 q1 ∧
                ∀ c, input_checksum = Some c → c = cs).
  { destruct input_checksum as [c|].
    - case_decide as Hc; [done|]. injection Hret as <- <-.
      repeat split; try done. by intros ? [= <-].
    - injection Hret as <- <-. done. }
  destruct Hqs as (-> & -> & Hin).
  exists q0, q1. repeat split; try done; lia.
Qed.

Lemma blink_quorums_returned_witness :
  ∃ q0 q1,
    [sample_Q'; sample_Q] = [q0; q1] ∧
    blink_checksum sample_E sample_Q' sample_Q = blink_checksum sample_E q0 q1 ∧
    quorum_height sample_E 100 0 ≠ 0 ∧
    get_quorum sample_snl blink (quorum_height sample_E 100 0) = Some q0 ∧
    quorum_height sample_E 100 1 ≠ 0 ∧
    get_quorum sample_snl blink (quorum_height sample_E 100 1) = Some q1 ∧
    size_in_range sample_E q0 ∧ size_in_range sample_E q1 ∧
    (∀ c, (None : option Z) = Some c → c = blink_checksum sample_E sample_Q' sample_Q).
Proof.
  apply (blink_quorums_returned sample_E 100 sample_snl None).
  vm_compute. reflexivity.
Defined.


(** ** Processing blink signatures: what is stored *)

Lemma elem_of_bool_filter {A} (f : A → bool) (l : list A) x :
  x ∈ List.filter f l ↔ x ∈ l ∧ f x = true.
Proof. rewrite !list_elem_of_In. apply filter_In. Qed.

Lemma add_prechecked_slots btx sq pos a sig sq' pos' :
  btx_slot btx sq pos = Some None →
  btx_slot (add_prechecked_signature btx sq pos a sig).1 sq' pos' =
  if decide (sq' = sq ∧ pos' = pos) then Some (Some (a, sig)) else btx_slot btx sq' pos'.
Proof.
  intros Hslot. unfold add_prechecked_signature. rewrite Hslot. simpl.
  unfold btx_slot, index_Z in *. simpl.
  destruct (decide (0 ≤ sq)) as [Hsq|]; [|done].
  destruct (btx_signatures btx !! Z.to_nat sq) as [row|] eqn:Hrow; [|done].
  simpl in Hslot. destruct (decide (0 ≤ pos)) as [Hpos|]; [|done].
  destruct (decide (0 ≤ sq')) as [Hsq'|Hsq'].
  2:{ rewrite decide_False by lia. done. }
  destruct (decide (sq' = sq)) as [->|Hne].
  - rewrite list_lookup_alter_eq, Hrow. simpl.
    destruct (decide (0 ≤ pos')) as [Hpos'|Hpos'].
    2:{ rewrite decide_False by lia. done. }
    destruct (decide (pos' = pos)) as [->|Hnp].
    + rewrite decide_True by done. rewrite list_lookup_insert_eq; [done|].
      by eapply lookup_lt_Some.
    + rewrite decide_False by tauto. rewrite list_lookup_insert_ne by lia. done.
  - rewrite decide_False by tauto. rewrite list_lookup_alter_ne by lia. done.
Qed.

Lemma add_prechecked_closed btx sq pos a sig :
  btx_slot btx sq pos ≠ Some None → add_prechecked_signature btx sq pos a sig = (btx, false).
Proof.
  intros Hslot. unfold add_prechecked_signature.
  by destruct (btx_slot btx sq pos) as [[|]|].
Qed.

Lemma add_prechecked_identity btx sq pos a sig :
  btx_height (add_prechecked_signature btx sq pos a sig).1 = btx_height btx ∧
  btx_tx_hash (add_prechecked_signature btx sq pos a sig).1 = btx_tx_hash btx.
Proof. unfold add_prechecked_signature. by destruct (btx_slot btx sq pos) as [[|]|]. Qed.

Lemma store_signatures_identity btx l :
  btx_height (store_signatures btx l).1 = btx_height btx ∧
  btx_tx_hash (store_signatures btx l).1 = btx_tx_hash btx.
Proof.
  revert btx. induction l as [|s l IH]; intros btx; [done|]. simpl.
  destruct (IH (add_prechecked_signature btx (sig_subquorum s) (sig_position s)
                  (sig_approval s) (sig_signature s)).1) as [-> ->].
  apply add_prechecked_identity.
Qed.

(** A slot after [store_signatures] is what it was, or it was empty and holds
    the approval and signature of one of the signatures stored. *)
Lemma store_signatures_slots l btx sq pos :
  btx_slot (store_signatures btx l).1 sq pos = btx_slot btx sq pos ∨
  (btx_slot btx sq pos = Some None ∧
   ∃ s, s ∈ l ∧ sig_subquorum s = sq ∧ sig_position s = pos ∧
        btx_slot (store_signatures btx l).1 sq pos
        = Some (Some (sig_approval s, sig_signature s))).
Proof.
  revert btx. induction l as [|s l IH]; intros btx; [by left|]. simpl.
  set (btx1 := (add_prechecked_signature btx _ _ _ _).1).
  destruct (decide (btx_slot btx (sig_subquorum s) (sig_position s) = Some None))
    as [Hopen|Hclosed].
  - pose proof (add_prechecked_slots btx _ _ (sig_approval s) (sig_signature s) sq pos Hopen)
      as Hnew. fold btx1 in Hnew.
    destruct (IH btx1) as [Hsame|(Hempty & s' & Hin & Hsq & Hpos & Hfilled)].
    + rewrite Hsame, Hnew. case_decide as Hhere; [|by left].
      destruct Hhere as [-> ->]. right. split; [done|].
      exists s. split; [by left|done].
    + rewrite Hnew in Hempty. case_decide as Hhere; [done|].
      right. split; [done|]. exists s'. split; [by right|]. done.
  - assert (btx1 = btx) as ->.
    { subst btx1. by rewrite add_prechecked_closed. }
    destruct (IH btx) as [Hsame|(Hempty & s' & Hin & Hrest)]; [by left|].
    right. split; [done|]. exists s'. split; [by right|]. done.
Qed.

Lemma store_signatures_fills l btx s :
  s ∈ l → btx_slot (store_signatures btx l).1 (sig_subquorum s) (sig_position s) ≠ Some None.
Proof.
  revert btx. induction l as [|s0 l IH]; intros btx Hin; [by apply elem_of_nil in Hin|].
  simpl. set (btx1 := (add_prechecked_signature btx _ _ _ _).1).
  apply elem_of_cons in Hin as [->|Hin]; [|by apply IH].
  assert (Hclosed : btx_slot btx1 (sig_subquorum s0) (sig_position s0) ≠ Some None).
  { destruct (decide (btx_slot btx (sig_subquorum s0) (sig_position s0) = Some None))
      as [Hopen|Hclosed].
    - subst btx1. rewrite (add_prechecked_slots _ _ _ _ _ _ _ Hopen).
      by rewrite decide_True.
    - subst btx1. by rewrite add_prechecked_closed. }
  destruct (store_signatures_slots l btx1 (sig_subquorum s0) (sig_position s0))
    as [->|[Hempty _]]; done.
Qed.

Lemma store_signatures_closed l btx :
  Forall (λ s, btx_slot btx (sig_subquorum s) (sig_position s) ≠ Some None) l →
  store_signatures btx l = (btx, []).
Proof.
  induction 1 as [|s l Hs _ IH]; [done|]. simpl.
  rewrite (add_prechecked_closed _ _ _ _ _ Hs). simpl. by rewrite IH.
Qed.

(** The blink tx after [process_blink_signatures] is the one
    [store_signatures] leaves from the signatures that pass the two
    filters. *)
Lemma process_blink_signatures_stored E c btx qs cs sigs reply_tag reply_pubkey from :
  (process_blink_signatures E c btx qs cs sigs reply_tag reply_pubkey from).1 =
  (store_signatures btx
     (List.filter (signature_valid E btx qs) (List.filter (slot_open btx qs) sigs))).1.
Proof.
  unfold process_blink_signatures.
  destruct (decide (List.filter (slot_open btx qs) sigs = [])) as [->|H1]; [done|].
  destruct (decide (List.filter (signature_valid E btx qs) _ = [])) as [->|H2]; [done|].
  case_decide; done.
Qed.

Lemma process_blink_signatures_nothing E c btx qs cs sigs reply_tag reply_pubkey from :
  (store_signatures btx
     (List.filter (signature_valid E btx qs) (List.filter (slot_open btx qs) sigs))).2 = [] →
  process_blink_signatures E c btx qs cs sigs reply_tag reply_pubkey from = (btx, []).
Proof.
  intros Hnone. unfold process_blink_signatures.
  destruct (decide (List.filter (slot_open btx qs) sigs = [])) as [|H1]; [done|].
  destruct (decide (List.filter (signature_valid E btx qs) _ = [])) as [|H2]; [done|].
  rewrite decide_True by done. by rewrite (store_signatures_none _ _ Hnone).
Qed.

Lemma status_none_slot btx sq pos :
  get_signature_status btx sq pos = status_none ↔
  btx_slot btx sq pos = None ∨ btx_slot btx sq pos = Some None.
Proof.
  unfold get_signature_status.
  destruct (btx_slot btx sq pos) as [[[[] sig]|]|]; split; try done; auto; by intros [|].
Qed.

(** X9: once [process_blink_signatures] has run on a list of signatures (each
    for one of the two subquorums), running it again on the same list -
    whatever the checksum, the reply tag, the reply pubkey and the sender -
    leaves the blink tx as it is and sends nothing: known signatures are not
    relayed again. *)
Theorem replayed_signatures_are_ignored E c btx qs cs sigs reply_tag reply_pubkey from
    cs' reply_tag' reply_pubkey' from' :
  subquorums_in_range qs sigs →
  let r := process_blink_signatures E c btx qs cs sigs reply_tag reply_pubkey from in
  process_blink_signatures E c r.1 qs cs' sigs reply_tag' reply_pubkey' from' = (r.1, []).
Proof.
  intros _. cbv zeta. rewrite process_blink_signatures_stored.
  set (s2 := List.filter (signature_valid E btx qs) (List.filter (slot_open btx qs) sigs)).
  set (btx' := (store_signatures btx s2).1).
  apply process_blink_signatures_nothing.
  rewrite store_signatures_closed; [done|].
  apply Forall_forall. intros s Hs.
  apply elem_of_bool_filter in Hs as [Hs Hvalid].
  apply elem_of_bool_filter in Hs as [Hin Hopen].
  assert (Hs2 : s ∈ s2).
  { unfold s2. apply elem_of_bool_filter. split.
    - apply elem_of_bool_filter. split; [done|].
      unfold slot_open in *. case_decide; [done|].
      destruct (decide (get_signature_status btx' _ _ ≠ status_none)) as [|Hnone']; [done|].
      apply dec_stable in Hnone'. rewrite decide_False; [done|]. intros Hne. apply Hne.
      apply status_none_slot. apply status_none_slot in Hnone'.
      subst btx'.
      destruct (store_signatures_slots s2 btx (sig_subquorum s) (sig_position s))
        as [Hsame|[Hempty _]]; [by rewrite <- Hsame|by right].
    - unfold signature_valid in *. subst btx'.
      by destruct (store_signatures_identity btx s2) as [<- <-]. }
  by apply store_signatures_fills.
Qed.

(** X10: whatever signatures [process_blink_signatures] is given (each for one
    of the two subquorums), every slot of the blink tx afterwards is what it
    was before, or it was empty and
    now holds the approval and signature of one of the given signatures for
    that slot, a signature that verifies against the validator at that
    position of that subquorum.  The height and the transaction hash stay. *)
Theorem only_verified_signatures_are_stored E c btx qs cs sigs reply_tag reply_pubkey from
    sq pos :
  subquorums_in_range qs sigs →
  let r := process_blink_signatures E c btx qs cs sigs reply_tag reply_pubkey from in
  btx_height r.1 = btx_height btx ∧ btx_tx_hash r.1 = btx_tx_hash btx ∧
  (btx_slot r.1 sq pos = btx_slot btx sq pos ∨
   (btx_slot btx sq pos = Some None ∧
    ∃ s validator,
      s ∈ sigs ∧ sig_subquorum s = sq ∧ sig_position s = pos ∧
      btx_slot r.1 sq pos = Some (Some (sig_approval s, sig_signature s)) ∧
      index_Z (quorum_at qs (Z.to_nat sq)) pos = Some validator ∧
      check_signature E (blink_hash E (btx_height btx) (btx_tx_hash btx) (sig_approval s))
        validator (sig_signature s) = true)).
Proof.
  intros _. cbv zeta. rewrite process_blink_signatures_stored.
  set (s2 := List.filter (signature_valid E btx qs) (List.filter (slot_open btx qs) sigs)).
  destruct (store_signatures_identity btx s2) as [Hh Hhash].
  split; [done|]. split; [done|].
  destruct (store_signatures_slots s2 btx sq pos)
    as [Hsame|(Hempty & s & Hin & <- & <- & Hfilled)]; [by left|].
  right. split; [done|].
  unfold s2 in Hin.
  apply elem_of_bool_filter in Hin as [Hin Hvalid].
  apply elem_of_bool_filter in Hin as [Hin _].
  unfold signature_valid in Hvalid.
  destruct (index_Z (quorum_at qs (Z.to_nat (sig_subquorum s))) (sig_position s))
    as [validator|] eqn:Hv; [|done].
  exists s, validator. done.
Qed.

(** Replaying the fourteenth approval of the sample blink tx does nothing. *)
Lemma replayed_signatures_are_ignored_witness :
  process_blink_signatures sample_E (sample_core (key32 "A") 100 sample_snl)
    (process_blink_signatures sample_E (sample_core (key32 "A") 100 sample_snl)
       sample_btx13 sample_quorums (blink_checksum sample_E sample_Q' sample_Q)
       [approval_by 1 6] 7 (key32 "z") (key32 "b")).1
    sample_quorums (blink_checksum sample_E sample_Q' sample_Q)
    [approval_by 1 6] 7 (key32 "z") (key32 "c") =
  ((process_blink_signatures sample_E (sample_core (key32 "A") 100 sample_snl)
       sample_btx13 sample_quorums (blink_checksum sample_E sample_Q' sample_Q)
       [approval_by 1 6] 7 (key32 "z") (key32 "b")).1, []).
Proof.
  apply (replayed_signatures_are_ignored sample_E (sample_core (key32 "A") 100 sample_snl)
           sample_btx13 sample_quorums (blink_checksum sample_E sample_Q' sample_Q)
           [approval_by 1 6] 7 (key32 "z") (key32 "b")).
  split; [reflexivity|]. repeat constructor; vm_compute; discriminate.
Defined.

(** The slot of the fourteenth approval was empty and holds it afterwards. *)
Lemma only_verified_signatures_are_stored_witness :
  let r := process_blink_signatures sample_E (sample_core (key32 "A") 100 sample_snl)
             sample_btx13 sample_quorums (blink_checksum sample_E sample_Q' sample_Q)
             [approval_by 1 6] 7 (key32 "z") (key32 "b") in
  btx_height r.1 = 100 ∧ btx_tx_hash r.1 = sample_tx_hash ∧
  (btx_slot r.1 1 6 = btx_slot sample_btx13 1 6 ∨
   (btx_slot sample_btx13 1 6 = Some None ∧
    ∃ s validator,
      s ∈ [approval_by 1 6] ∧ sig_subquorum s = 1 ∧ sig_position s = 6 ∧
      btx_slot r.1 1 6 = Some (Some (sig_approval s, sig_signature s)) ∧
      index_Z (quorum_at sample_quorums (Z.to_nat 1)) 6 = Some validator ∧
      check_signature sample_E
        (blink_hash sample_E (btx_height sample_btx13) (btx_tx_hash sample_btx13)
           (sig_approval s))
        validator (sig_signature s) = true)).
Proof.
  apply (only_verified_signatures_are_stored sample_E (sample_core (key32 "A") 100 sample_snl)
           sample_btx13 sample_quorums (blink_checksum sample_E sample_Q' sample_Q)
           [approval_by 1 6] 7 (key32 "z") (key32 "b") 1 6).
  split; [reflexivity|]. repeat constructor; vm_compute; discriminate.
Defined.


(** ** The wire format of [blink_sign] *)

Lemma blink_sign_data_entries btx cs sigs :
  blink_sign_data btx cs sigs =
  [ ("#", bt_string (btx_tx_hash btx));
    ("h", bt_int (btx_height btx));
    ("i", bt_list ((λ s, bt_int (sig_subquorum s)) <$> sigs));
    ("p", bt_list ((λ s, bt_int (sig_position s)) <$> sigs));
    ("q", bt_int cs);
    ("r", bt_list ((λ s, bt_bool (sig_approval s)) <$> sigs));
    ("s", bt_list ((λ s, bt_string (sig_signature s)) <$> sigs)) ].
Proof. reflexivity. Qed.

Lemma copy_each_fmap copy_value (g : pending_signature → bt_value)
    (upd : pending_signature → pending_signature → pending_signature) sigs base :
  length base = length sigs →
  (∀ b s, s ∈ sigs → copy_value b (g s) = Ret (upd b s)) →
  copy_each copy_value base (g <$> sigs) = Ret (zip_with upd base sigs).
Proof.
  revert base. induction sigs as [|s sigs IH]; intros [|b base] Hlen Hcopy; try done.
  simpl. rewrite Hcopy by (by left). simpl.
  rewrite IH; [done|by injection Hlen|]. intros b' s' Hin. apply Hcopy. by right.
Qed.

Lemma copy_signature_values_fmap copy_value (g : pending_signature → bt_value)
    (upd : pending_signature → pending_signature → pending_signature) sigs base :
  sigs ≠ [] →
  base = [] ∨ length base = length sigs →
  (∀ b s, s ∈ sigs → copy_value b (g s) = Ret (upd b s)) →
  copy_signature_values copy_value base (bt_list (g <$> sigs)) =
  Ret (zip_with upd (if decide (base = []) then replicate (length sigs) default_pending_signature
                     else base) sigs).
Proof.
  intros Hne Hbase Hcopy. unfold copy_signature_values. simpl.
  destruct (decide (base = [])) as [->|Hb].
  - rewrite length_fmap. apply copy_each_fmap; [by rewrite length_replicate|done].
  - destruct Hbase as [|Hlen]; [done|].
    rewrite decide_False by (by destruct sigs).
    rewrite decide_False by (unfold len; rewrite length_fmap; lia).
    by apply copy_each_fmap.
Qed.

Lemma zip_with_nonempty {A B C} (f : A → B → C) l k :
  length l = length k → k ≠ [] → zip_with f l k ≠ [].
Proof. by destruct l, k. Qed.

Lemma signatures_rebuilt sigs :
  zip_with (λ b s, with_signature b (sig_signature s))
    (zip_with (λ b s, with_approval b (sig_approval s))
       (zip_with (λ b s, with_position b (sig_position s))
          (zip_with (λ b s, with_subquorum b (sig_subquorum s))
             (replicate (length sigs) default_pending_signature) sigs) sigs) sigs) sigs
  = sigs.
Proof. induction sigs as [|[a q p sg] sigs IH]; [done|]. simpl. by rewrite IH. Qed.

(** The parsing loop's body, by key. *)
Lemma parse_entry_hash E f v :
  parse_blink_sign_entry E f ("#", v) =
  (hash_str ←! get_string v;
   if decide (str_size hash_str ≠ 32) then
     Throw (invalid_argument "Invalid blink signature data: invalid tx hash")
   else
     Ret {| f_blink_height := f_blink_height f; f_checksum := f_checksum f;
            f_tx_hash := hash_str;
            saw_checksum := saw_checksum f; saw_hash := true;
            saw_i := saw_i f; saw_r := saw_r f; saw_p := saw_p f; saw_s := saw_s f;
            f_signatures := f_signatures f |}).
Proof. reflexivity. Qed.

Lemma parse_entry_h E f v :
  parse_blink_sign_entry E f ("h", v) =
  (h ←! get_int 0 u64_max v;
   Ret {| f_blink_height := h; f_checksum := f_checksum f; f_tx_hash := f_tx_hash f;
          saw_checksum := saw_checksum f; saw_hash := saw_hash f;
          saw_i := saw_i f; saw_r := saw_r f; saw_p := saw_p f; saw_s := saw_s f;
          f_signatures := f_signatures f |}).
Proof. reflexivity. Qed.

Lemma parse_entry_q E f v :
  parse_blink_sign_entry E f ("q", v) =
  (q ←! get_int 0 u64_max v;
   Ret {| f_blink_height := f_blink_height f; f_checksum := q; f_tx_hash := f_tx_hash f;
          saw_checksum := true; saw_hash := saw_hash f;
          saw_i := saw_i f; saw_r := saw_r f; saw_p := saw_p f; saw_s := saw_s f;
          f_signatures := f_signatures f |}).
Proof. reflexivity. Qed.

Lemma parse_entry_i E f v :
  parse_blink_sign_entry E f ("i", v) =
  (sigs ←! copy_signature_values copy_i (f_signatures f) v;
   Ret (set_signatures f "i" sigs)).
Proof. reflexivity. Qed.

Lemma parse_entry_p E f v :
  parse_blink_sign_entry E f ("p", v) =
  (sigs ←! copy_signature_values (copy_p E) (f_signatures f) v;
   Ret (set_signatures f "p" sigs)).
Proof. reflexivity. Qed.

Lemma parse_entry_r E f v :
  parse_blink_sign_entry E f ("r", v) =
  (sigs ←! copy_signature_values copy_r (f_signatures f) v;
   Ret (set_signatures f "r" sigs)).
Proof. reflexivity. Qed.

Lemma parse_entry_s E f v :
  parse_blink_sign_entry E f ("s", v) =
  (sigs ←! copy_signature_values copy_s (f_signatures f) v;
   Ret (set_signatures f "s" sigs)).
Proof. reflexivity. Qed.

Lemma copy_signature_values_nil copy_value :
  copy_signature_values copy_value [] (bt_list []) = Ret [].
Proof. reflexivity. Qed.

(** The parsing loop on a relayed dictionary, up to the list [s]: the
    entries prepared from [i], [p] and [r] are as many as the signatures and
    lack only the signature bytes. *)
Lemma blink_sign_parse_to_s E btx cs sigs hash0 i0 r0 p0 s0 :
  sigs ≠ [] →
  Forall (relayable_signature E) sigs →
  1 ≤ btx_height btx ≤ u64_max → 0 ≤ cs ≤ u64_max → str_size (btx_tx_hash btx) = 32 →
  ∃ base,
    length base = length sigs ∧
    zip_with (λ b s, with_signature b (sig_signature s)) base sigs = sigs ∧
    parse_blink_sign E (declared_fields hash0 i0 r0 p0 s0) (blink_sign_data btx cs sigs) =
      (out ←! copy_each copy_s base ((λ s, bt_string (sig_signature s)) <$> sigs);
       Ret (fields_read (btx_height btx) cs (btx_tx_hash btx) out)).
Proof.
  intros Hne Hwire Hh Hcs Hhash.
  rewrite blink_sign_data_entries. cbn [parse_blink_sign].
  rewrite parse_entry_hash. cbn [get_string obind].
  rewrite decide_False by (intros Hn; apply Hn, Hhash). cbn [obind].
  rewrite parse_entry_h. cbn [get_int obind]. rewrite decide_True by lia. cbn [obind].
  rewrite parse_entry_i. cbn [f_signatures declared_fields].
  rewrite Forall_forall in Hwire.
  assert (Hi : ∀ b s, s ∈ sigs →
            copy_i b (bt_int (sig_subquorum s)) = Ret (with_subquorum b (sig_subquorum s))).
  { intros b s Hs. destruct (Hwire s Hs) as (Hq & _). unfold copy_i, NUM_BLINK_QUORUMS in *.
    simpl. rewrite decide_True by (unfold u8_max; lia). simpl. by rewrite decide_False by lia. }
  assert (Hp : ∀ b s, s ∈ sigs →
            copy_p E b (bt_int (sig_position s)) = Ret (with_position b (sig_position s))).
  { intros b s Hs. destruct (Hwire s Hs) as (_ & Hpos & Hmax & _). unfold copy_p. simpl.
    rewrite decide_True by (unfold int_min; lia). simpl. by rewrite decide_False by lia. }
  assert (Hr : ∀ b s, s ∈ sigs →
            copy_r b (bt_bool (sig_approval s)) = Ret (with_approval b (sig_approval s))).
  { intros b s _. unfold copy_r, bt_bool. by destruct (sig_approval s). }
  rewrite (copy_signature_values_fmap copy_i _ _ sigs [] Hne (or_introl eq_refl) Hi).
  rewrite decide_True by done. cbn [obind].
  set (l1 := zip_with _ _ sigs).
  assert (Hl1 : length l1 = length sigs).
  { subst l1. rewrite length_zip_with_l_eq; by rewrite length_replicate. }
  rewrite parse_entry_p. cbn [f_signatures set_signatures].
  rewrite (copy_signature_values_fmap (copy_p E) _ _ sigs l1 Hne (or_intror Hl1) Hp).
  rewrite decide_False by (intros Hn; by rewrite Hn in Hl1; destruct sigs).
  cbn [obind].
  set (l2 := zip_with _ l1 sigs).
  assert (Hl2 : length l2 = length sigs).
  { subst l2. by rewrite length_zip_with_l_eq. }
  rewrite parse_entry_q. cbn [get_int obind]. rewrite decide_True by lia. cbn [obind].
  rewrite parse_entry_r. cbn [f_signatures set_signatures].
  rewrite (copy_signature_values_fmap copy_r _ _ sigs l2 Hne (or_intror Hl2) Hr).
  rewrite decide_False by (intros Hn; by rewrite Hn in Hl2; destruct sigs).
  cbn [obind].
  set (l3 := zip_with _ l2 sigs).
  assert (Hl3 : length l3 = length sigs).
  { subst l3. by rewrite length_zip_with_l_eq. }
  exists l3. split; [done|]. split; [subst l3 l2 l1; apply signatures_rebuilt|].
  rewrite parse_entry_s. cbn [f_signatures set_signatures].
  unfold copy_signature_values. cbn [get_list obind].
  rewrite decide_False by (intros Hn; by rewrite Hn in Hl3; destruct sigs).
  rewrite decide_False by (by destruct sigs).
  rewrite decide_False by (unfold len; rewrite length_fmap; lia).
  destruct (copy_each copy_s l3 _) as [out| |]; reflexivity.
Qed.

(** A null signature in the list [s] is refused, the sizes being right. *)
Lemma copy_each_s_null base sigs :
  length base = length sigs →
  Forall (λ s, str_size (sig_signature s) = 64) sigs →
  Exists (λ s, is_null (sig_signature s) = true) sigs →
  copy_each copy_s base ((λ s, bt_string (sig_signature s)) <$> sigs) =
  Throw (invalid_argument "Invalid blink signature data: invalid null signature").
Proof.
  revert base. induction sigs as [|s sigs IH]; intros [|b base] Hlen Hsize Hnull; try done.
  { by apply Exists_nil in Hnull. }
  apply Forall_cons in Hsize as [Hs Hsize]. rewrite fmap_cons. cbn [copy_each].
  unfold copy_s at 1. cbn [get_string obind].
  rewrite decide_False by (intros Hn; apply Hn, Hs).
  destruct (is_null (sig_signature s)) eqn:Hn; [reflexivity|]. cbn [obind].
  apply Exists_cons in Hnull as [Hhead|Htail]; [congruence|].
  rewrite IH; [reflexivity|by injection Hlen|done|done].
Qed.

(** X11: the [blink_sign] dictionary that [process_blink_signatures] builds
    for a non-zero height, a 32-byte hash, a [uint64_t] checksum and
    signature entries with a subquorum below [NUM_BLINK_QUORUMS], an [int]
    position below [BLINK_SUBQUORUM_SIZE] and 64 signature bytes is read
    back by the parsing loop of [handle_blink_signature] - whatever the
    uninitialised locals held - in one of two ways.  If no signature is
    null, the loop returns the same height, hash, checksum and list of
    signatures with every field seen, and the check for missing fields
    passes.  If some signature is null (all bytes zero), the loop throws
    [invalid null signature]. *)
Theorem blink_sign_round_trip E btx cs sigs hash0 i0 r0 p0 s0 :
  Forall (relayable_signature E) sigs →
  1 ≤ btx_height btx ≤ u64_max → 0 ≤ cs ≤ u64_max → str_size (btx_tx_hash btx) = 32 →
  let parsed :=
    parse_blink_sign E (declared_fields hash0 i0 r0 p0 s0) (blink_sign_data btx cs sigs) in
  let f := fields_read (btx_height btx) cs (btx_tx_hash btx) sigs in
  (Forall (λ s, is_null (sig_signature s) = false) sigs →
     parsed = Ret f ∧
     negb (bool_decide (f_blink_height f ≠ 0) && saw_hash f && saw_checksum f &&
           saw_i f && saw_r f && saw_p f && saw_s f) = false) ∧
  (Exists (λ s, is_null (sig_signature s) = true) sigs →
     parsed =
       Throw (invalid_argument "Invalid blink signature data: invalid null signature")).
Proof.
  intros Hwire Hh Hcs Hhash. cbv zeta.
  destruct (decide (sigs = [])) as [->|Hne].
  { split; [|by intros ?%Exists_nil]. intros _. split.
    2:{ simpl. rewrite bool_decide_eq_true_2 by lia. done. }
    rewrite blink_sign_data_entries. cbn [parse_blink_sign].
    rewrite parse_entry_hash. cbn [get_string obind].
    rewrite decide_False by (intros Hn; apply Hn, Hhash). cbn [obind].
    rewrite parse_entry_h. cbn [get_int obind]. rewrite decide_True by lia. cbn [obind].
    rewrite parse_entry_i. cbn [f_signatures declared_fields].
    rewrite !fmap_nil, copy_signature_values_nil. cbn [obind].
    rewrite parse_entry_p. cbn [f_signatures set_signatures].
    rewrite copy_signature_values_nil. cbn [obind].
    rewrite parse_entry_q. cbn [get_int obind]. rewrite decide_True by lia. cbn [obind].
    rewrite parse_entry_r. cbn [f_signatures set_signatures].
    rewrite copy_signature_values_nil. cbn [obind].
    rewrite parse_entry_s. cbn [f_signatures set_signatures].
    rewrite copy_signature_values_nil. cbn [obind]. reflexivity. }
  destruct (blink_sign_parse_to_s E btx cs sigs hash0 i0 r0 p0 s0 Hne Hwire Hh Hcs Hhash)
    as (base & Hlen & Hrebuilt & ->).
  assert (Hsize : Forall (λ s, str_size (sig_signature s) = 64) sigs).
  { eapply Forall_impl; [exact Hwire|]. by intros s (_ & _ & _ & ?). }
  split.
  - intros Hnn. split.
    2:{ simpl. rewrite bool_decide_eq_true_2 by lia. done. }
    rewrite (copy_each_fmap copy_s (λ s, bt_string (sig_signature s))
               (λ b s, with_signature b (sig_signature s)) sigs base Hlen).
    { cbn [obind]. by rewrite Hrebuilt. }
    intros b s Hin. rewrite Forall_forall in Hsize, Hnn. unfold copy_s. simpl.
    rewrite decide_False by (intros Hn; apply Hn, Hsize, Hin). by rewrite (Hnn s Hin).
  - intros Hnull. by rewrite (copy_each_s_null base sigs Hlen Hsize Hnull).
Qed.

(** The relayed approval of the sample blink tx is read back as it was
    sent. *)
Lemma blink_sign_round_trip_witness :
  parse_blink_sign sample_E (declared_fields "" false false false false)
    (blink_sign_data sample_btx 5 [approval_by 1 6]) =
  Ret (fields_read 100 5 sample_tx_hash [approval_by 1 6]).
Proof.
  refine (proj1 (proj1 (blink_sign_round_trip sample_E sample_btx 5 [approval_by 1 6]
                          "" false false false false _ _ _ _) _)).
  - repeat constructor; vm_compute; try discriminate; reflexivity.
  - vm_compute. split; discriminate.
  - vm_compute. split; discriminate.
  - reflexivity.
  - repeat constructor.
Defined.

(** A relayed dictionary whose one signature is 64 zero bytes is refused. *)
Example blink_sign_null_signature_refused :
  parse_blink_sign sample_E (declared_fields "" false false false false)
    (blink_sign_data sample_btx 5
       [{| sig_approval := true; sig_subquorum := 1; sig_position := 6;
           sig_signature := zero_bytes 64 |}]) =
  Throw (invalid_argument "Invalid blink signature data: invalid null signature").
Proof. vm_compute. reflexivity. Qed.


(** ** Input validation of [blink_sign] *)

Lemma copy_each_Forall (P : pending_signature → Prop) copy_value sigs results out :
  (∀ b v b', P b → copy_value b v = Ret b' → P b') →
  Forall P sigs → copy_each copy_value sigs results = Ret out →
  Forall P out ∧ length out = length sigs.
Proof.
  intros Hcopy. revert results out.
  induction sigs as [|s sigs IH]; intros results out Hall Hrun.
  { simpl in Hrun. by injection Hrun as <-. }
  destruct results as [|r results]; [simpl in Hrun; by injection Hrun as <-|].
  simpl in Hrun. apply Forall_cons in Hall as [Hs Hall].
  destruct (copy_value s r) as [s'| |] eqn:Hsr; try done. simpl in Hrun.
  destruct (copy_each copy_value sigs results) as [rest| |] eqn:Hrest; try done.
  simpl in Hrun. injection Hrun as <-.
  destruct (IH results rest Hall Hrest) as [Hrest' Hlen].
  split; [|simpl; by rewrite Hlen]. constructor; [by eapply Hcopy|done].
Qed.

Lemma copy_signature_values_Forall (P : pending_signature → Prop) copy_value sigs val out :
  (∀ b v b', P b → copy_value b v = Ret b' → P b') →
  P default_pending_signature →
  Forall P sigs → copy_signature_values copy_value sigs val = Ret out →
  Forall P out.
Proof.
  intros Hcopy Hdef Hall. unfold copy_signature_values.
  destruct val as [| |results|]; try done. simpl.
  repeat case_decide; try done; intros Hrun.
  - apply (copy_each_Forall P) in Hrun as [? _]; [done|done|].
    by apply Forall_replicate.
  - by apply (copy_each_Forall P) in Hrun as [? _].
Qed.

Lemma validated_default E :
  0 < BLINK_SUBQUORUM_SIZE E → validated_signature E default_pending_signature.
Proof. intros Hsize. repeat split; try done; try lia. by left. Qed.

Lemma copy_i_validated E b v b' :
  validated_signature E b → copy_i b v = Ret b' → validated_signature E b'.
Proof.
  intros (Hq & Hrest). unfold copy_i. destruct v as [|z| |]; try done. simpl.
  case_decide as Hz; [|done]. simpl. case_decide as Hn; [done|]. intros [= <-].
  split; [simpl; lia|done].
Qed.

Lemma copy_p_validated E b v b' :
  validated_signature E b → copy_p E b v = Ret b' → validated_signature E b'.
Proof.
  intros (Hq & Hp & Hrest). unfold copy_p. destruct v as [|z| |]; try done. simpl.
  case_decide as Hz; [|done]. simpl. case_decide as Hn; [done|]. intros [= <-].
  split; [done|]. split; [simpl; lia|done].
Qed.

Lemma copy_r_validated E b v b' :
  validated_signature E b → copy_r b v = Ret b' → validated_signature E b'.
Proof.
  intros Hb. unfold copy_r. destruct v as [|z| |]; try done. simpl.
  case_decide; [|done]. simpl. by intros [= <-].
Qed.

Lemma copy_s_validated E b v b' :
  validated_signature E b → copy_s b v = Ret b' → validated_signature E b'.
Proof.
  intros (Hq & Hp & _). unfold copy_s. destruct v as [sg| | |]; try done. simpl.
  case_decide as Hz; [done|]. destruct (is_null sg) eqn:Hnull; [done|]. intros [= <-].
  split; [done|]. split; [done|]. simpl. split; [done|by right].
Qed.

Lemma parse_blink_sign_entry_validated E f input f' :
  0 < BLINK_SUBQUORUM_SIZE E →
  Forall (validated_signature E) (f_signatures f) →
  parse_blink_sign_entry E f input = Ret f' →
  Forall (validated_signature E) (f_signatures f').
Proof.
  intros Hsize Hall. destruct input as [k v]. unfold parse_blink_sign_entry. simpl.
  destruct k as [|key [|]]; try done.
  pose proof (validated_default E Hsize) as Hdef.
  repeat case_decide; subst; intros Hparse;
    repeat match type of Hparse with
    | obind (get_int _ _ _) _ = Ret _ =>
        destruct (get_int _ _ _); simpl in Hparse; try done
    | obind (get_string _) _ = Ret _ =>
        destruct (get_string _); simpl in Hparse; try done
    | (if ?b then _ else _) = Ret _ => destruct b; simpl in Hparse; try done
    end;
    try discriminate Hparse;
    try (injection Hparse as <-; by simpl).
  - destruct (copy_signature_values copy_i _ _) as [out| |] eqn:Hc; try done.
    injection Hparse as <-. simpl.
    by eapply (copy_signature_values_Forall _ copy_i), Hc; [apply copy_i_validated|..].
  - destruct (copy_signature_values copy_r _ _) as [out| |] eqn:Hc; try done.
    injection Hparse as <-. simpl.
    by eapply (copy_signature_values_Forall _ copy_r), Hc; [apply copy_r_validated|..].
  - destruct (copy_signature_values (copy_p E) _ _) as [out| |] eqn:Hc; try done.
    injection Hparse as <-. simpl.
    by eapply (copy_signature_values_Forall _ (copy_p E)), Hc; [apply copy_p_validated|..].
  - destruct (copy_signature_values copy_s _ _) as [out| |] eqn:Hc; try done.
    injection Hparse as <-. simpl.
    by eapply (copy_signature_values_Forall _ copy_s), Hc; [apply copy_s_validated|..].
Qed.

Lemma parse_blink_sign_validated E f data f' :
  0 < BLINK_SUBQUORUM_SIZE E →
  Forall (validated_signature E) (f_signatures f) →
  parse_blink_sign E f data = Ret f' →
  Forall (validated_signature E) (f_signatures f').
Proof.
  intros Hsize. revert f. induction data as [|input data IH]; intros f Hall; simpl.
  - by intros [= <-].
  - destruct (parse_blink_sign_entry E f input) as [f1| |] eqn:Hentry; try done. simpl.
    apply IH. by eapply parse_blink_sign_entry_validated.
Qed.

(** X12: whatever dictionary a [blink_sign] message carries, every signature
    entry the parsing loop of [handle_blink_signature] returns names one of
    the two subquorums and a position below [BLINK_SUBQUORUM_SIZE], and has
    a 64-byte signature. *)
Theorem parsed_signatures_are_validated E hash0 i0 r0 p0 s0 data f :
  0 < BLINK_SUBQUORUM_SIZE E →
  parse_blink_sign E (declared_fields hash0 i0 r0 p0 s0) data = Ret f →
  Forall (validated_signature E) (f_signatures f).
Proof.
  intros Hsize Hparse.
  by apply (parse_blink_sign_validated E (declared_fields hash0 i0 r0 p0 s0) data f).
Qed.

Lemma parsed_signatures_are_validated_witness :
  Forall (validated_signature sample_E) [approval_by 1 6].
Proof.
  apply (parsed_signatures_are_validated sample_E "" false false false false
           (blink_sign_data sample_btx 5 [approval_by 1 6])
           (fields_read 100 5 sample_tx_hash [approval_by 1 6])).
  - reflexivity.
  - vm_compute. reflexivity.
Defined.

Lemma copy_signature_values_length copy_value sigs results out :
  copy_signature_values copy_value sigs (bt_list results) = Ret out →
  length out = length results ∧ (sigs = [] ∨ length sigs = length results).
Proof.
  unfold copy_signature_values. simpl.
  assert (Hlen : ∀ l r o, copy_each copy_value l r = Ret o → length o = length l).
  { intros l r o. apply (copy_each_Forall (λ _, True)); [done|].
    by apply Forall_forall. }
  destruct (decide (sigs = [])) as [->|Hne].
  - intros Hrun. apply Hlen in Hrun. rewrite length_replicate in Hrun. auto.
  - case_decide; [done|]. case_decide as Hl; [done|]. intros Hrun. apply Hlen in Hrun.
    unfold len in Hl. assert (length sigs = length results) by lia.
    split; [congruence|by right].
Qed.

(** X13: when a [blink_sign] message with all seven fields is accepted by the
    parsing loop, there are as many signature entries as the list [s] has
    elements, and each of the lists [i], [p], [r] is followed by a list of
    the same length unless it is empty. *)
Theorem blink_sign_list_lengths E hash0 i0 r0 p0 s0 hash height i_list p_list checksum
    r_list s_list f :
  parse_blink_sign E (declared_fields hash0 i0 r0 p0 s0)
    (blink_sign_message hash height i_list p_list checksum r_list s_list) = Ret f →
  length (f_signatures f) = length s_list ∧
  (i_list = [] ∨ length i_list = length p_list) ∧
  (p_list = [] ∨ length p_list = length r_list) ∧
  (r_list = [] ∨ length r_list = length s_list).
Proof.
  unfold blink_sign_message. cbn [parse_blink_sign].
  rewrite parse_entry_hash.
  destruct (get_string hash) as [hs| |]; try done. cbn [obind].
  case_decide; [done|]. cbn [obind].
  rewrite parse_entry_h.
  destruct (get_int 0 u64_max height) as [h| |]; try done. cbn [obind].
  rewrite parse_entry_i. cbn [f_signatures declared_fields].
  destruct (copy_signature_values copy_i [] (bt_list i_list)) as [l1| |] eqn:H1; try done.
  cbn [obind]. rewrite parse_entry_p. cbn [f_signatures set_signatures].
  destruct (copy_signature_values (copy_p E) l1 (bt_list p_list)) as [l2| |] eqn:H2; try done.
  cbn [obind]. rewrite parse_entry_q. cbn [f_signatures set_signatures].
  destruct (get_int 0 u64_max checksum) as [q| |]; try done. cbn [obind].
  rewrite parse_entry_r. cbn [f_signatures set_signatures].
  destruct (copy_signature_values copy_r l2 (bt_list r_list)) as [l3| |] eqn:H3; try done.
  cbn [obind]. rewrite parse_entry_s. cbn [f_signatures set_signatures].
  destruct (copy_signature_values copy_s l3 (bt_list s_list)) as [l4| |] eqn:H4; try done.
  cbn [obind]. intros [= <-]. cbn [f_signatures set_signatures].
  apply copy_signature_values_length in H1 as [L1 _], H2 as [L2 B2], H3 as [L3 B3],
    H4 as [L4 B4].
  split; [done|].
  assert (Hnil : ∀ (A B : Type) (l : list A) (k : list B),
            length l = length k → l = [] → k = []).
  { intros A B l k Hlen ->. by destruct k. }
  split; [|split].
  - destruct B2 as [->|B2]; [left; by destruct i_list|right; congruence].
  - destruct B3 as [->|B3]; [left; by destruct p_list|right; congruence].
  - destruct B4 as [->|B4]; [left; by destruct r_list|right; congruence].
Qed.

Lemma blink_sign_list_lengths_witness :
  length [approval_by 1 6] = length [bt_string (sig_signature (approval_by 1 6))] ∧
  ([bt_int 1] = [] ∨ length [bt_int 1] = length [bt_int 6]) ∧
  ([bt_int 6] = [] ∨ length [bt_int 6] = length [bt_int 1]) ∧
  ([bt_int 1] = [] ∨
   length [bt_int 1] = length [bt_string (sig_signature (approval_by 1 6))]).
Proof.
  apply (blink_sign_list_lengths sample_E "" false false false false
           (bt_string sample_tx_hash) (bt_int 100) [bt_int 1] [bt_int 6] (bt_int 5)
           [bt_int 1] [bt_string (sig_signature (approval_by 1 6))]
           (fields_read 100 5 sample_tx_hash [approval_by 1 6])).
  vm_compute. reflexivity.
Defined.

(** With an empty list [i], the entries of a message take the first
    subquorum: the lists need not all have the same length. *)
Example blink_sign_with_empty_subquorum_list :
  f_signatures <$>
    (match parse_blink_sign sample_E (declared_fields "" false false false false)
             (blink_sign_message (bt_string sample_tx_hash) (bt_int 100) [] [bt_int 6]
                (bt_int 5) [bt_int 1] [bt_string (sig_signature (approval_by 0 6))]) with
     | Ret f => Some f | _ => None end) =
  Some [approval_by 0 6].
Proof. vm_compute. reflexivity. Qed.


(** ** [handle_blink]: the paths through the handler *)

Lemma get_blink_quorums_echo E h snl cs qs cs' :
  get_blink_quorums E h snl (Some cs) = Ret (qs, cs') → cs' = cs.
Proof.
  rewrite get_blink_quorums_unfold.
  destruct (get_blink_quorums_loop E snl h [0; 1] [] 0) as [[qs0 cs0]| |]; try done.
  simpl. case_decide as Hc; [done|]. by intros [= _ <-].
Qed.

Lemma handle_blink_with_quorums_accepted E c blinks m tag h cs tx_data tx_hash qs :
  (∀ md, blinks_find blinks h tx_hash = Some md → btxptr md = None) →
  blink_acceptable E c m tx_data tx_hash qs →
  handle_blink_with_quorums E c blinks m tag h cs tx_data tx_hash qs =
  accepted_blink E c blinks m tag h cs tx_data tx_hash qs.
Proof.
  intros Hnew (Hmember & Hparse & Hstrong).
  unfold handle_blink_with_quorums. fold (blink_pinfo E c m qs).
  rewrite decide_False by tauto. rewrite Hparse.
  rewrite decide_False by tauto. rewrite decide_False by done.
  assert (Hnone : btxptr (default empty_metadata (blinks_find blinks h tx_hash)) = None).
  { destruct (blinks_find blinks h tx_hash) as [md|] eqn:Hf; [by apply Hnew|done]. }
  rewrite Hnone. simpl. reflexivity.
Qed.

Lemma handle_blink_with_quorums_refused E c blinks m tag h cs tx_data tx_hash qs :
  ¬ blink_acceptable E c m tx_data tx_hash qs →
  ∃ e, handle_blink_with_quorums E c blinks m tag h cs tx_data tx_hash qs =
       (blinks, nostart tag e).
Proof.
  intros Hno. unfold handle_blink_with_quorums. fold (blink_pinfo E c m qs).
  case_decide as Hmember; [by eauto|].
  destruct (parse_and_validate_tx_from_blob E tx_data) as [actual|] eqn:Hparse; [|by eauto].
  case_decide as Hhash; [by eauto|].
  case_decide as Hstrong; [by eauto|].
  exfalso. apply Hno. unfold blink_acceptable. rewrite Hparse.
  split; [lia|]. split; [by f_equal|done].
Qed.

(** The outcomes of [handle_blink] that are not an exception. *)
Lemma handle_blink_cases E c blinks m blinks' out :
  handle_blink E c blinks m = Ret (blinks', out) →
  (blinks' = blinks ∧ out = []) ∨
  ∃ data, m_data m = [bt_dict data] ∧
    ((blinks' = blinks ∧ ∃ e, out = nostart (get_or 0 u64_max data "!" 0) e) ∨
     (∃ h tx_hash md,
        blinks_find blinks h tx_hash = Some md ∧ is_Some (btxptr md) ∧ out = [] ∧
        blinks' = blinks_set blinks h tx_hash
                    {| btxptr := btxptr md; pending_sigs := pending_sigs md;
                       reply_pubkey := m_pubkey m;
                       reply_tag := get_or 0 u64_max data "!" 0 |} ∧
        get_or 0 u64_max data "!" 0 ≠ 0 ∧ reply_tag md = 0) ∨
     (∃ h cs tx_data tx_hash qs,
        reaches_quorums c blinks m (get_or 0 u64_max data "!" 0) h cs tx_data tx_hash ∧
        get_blink_quorums E h (get_service_node_list c) (Some cs) = Ret (qs, cs) ∧
        blink_acceptable E c m tx_data tx_hash qs ∧
        (blinks', out) =
          accepted_blink E c blinks m (get_or 0 u64_max data "!" 0) h cs tx_data tx_hash qs)).
Proof.
  unfold handle_blink. case_decide as Hlen; [intros [= <- <-]; by left|].
  destruct (m_data m) as [|v [|v' rest]] eqn:Hdata;
    [unfold len in Hlen; simpl in Hlen; lia | | unfold len in Hlen; simpl in Hlen; lia].
  simpl. destruct v as [| | |data]; try done. simpl.
  set (tag := get_or 0 u64_max data "!" 0).
  unfold dict_at. destruct (dict_find data "h") as [hv|] eqn:Hh; [|done]. simpl.
  destruct hv as [|h| |]; try done. simpl.
  destruct (decide (0 ≤ h ≤ u64_max)) as [Hhr|]; [|done]. simpl.
  case_decide as Hlo; [intros [= <- <-]; right; exists data; split; [done|]; left; eauto|].
  case_decide as Hhi; [intros [= <- <-]; right; exists data; split; [done|]; left; eauto|].
  destruct (dict_find data "t") as [t|] eqn:Ht;
    [|intros [= <- <-]; right; exists data; split; [done|]; left; eauto].
  destruct t as [tx_data| | |]; try done. simpl.
  destruct (dict_find data "#") as [hv|] eqn:Hhash; [|done]. simpl.
  destruct hv as [tx_hash| | |]; try done. simpl.
  case_decide as Hsz; [intros [= <- <-]; right; exists data; split; [done|]; left; eauto|].
  assert (Hnew : (∀ md, blinks_find blinks h tx_hash = Some md → btxptr md = None) →
    handle_blink_new E c blinks m tag h data tx_data tx_hash = Ret (blinks', out) →
    (blinks' = blinks ∧ out = []) ∨
    ∃ data0, [bt_dict data] = [bt_dict data0] ∧
      ((blinks' = blinks ∧ ∃ e, out = nostart (get_or 0 u64_max data0 "!" 0) e) ∨
       (∃ h tx_hash md,
          blinks_find blinks h tx_hash = Some md ∧ is_Some (btxptr md) ∧ out = [] ∧
          blinks' = blinks_set blinks h tx_hash
                      {| btxptr := btxptr md; pending_sigs := pending_sigs md;
                         reply_pubkey := m_pubkey m;
                         reply_tag := get_or 0 u64_max data0 "!" 0 |} ∧
          get_or 0 u64_max data0 "!" 0 ≠ 0 ∧ reply_tag md = 0) ∨
       (∃ h cs tx_data tx_hash qs,
          reaches_quorums c blinks m (get_or 0 u64_max data0 "!" 0) h cs tx_data tx_hash ∧
          get_blink_quorums E h (get_service_node_list c) (Some cs) = Ret (qs, cs) ∧
          blink_acceptable E c m tx_data tx_hash qs ∧
          (blinks', out) =
            accepted_blink E c blinks m (get_or 0 u64_max data0 "!" 0) h cs tx_data
              tx_hash qs))).
  { intros Hfresh. unfold handle_blink_new, dict_at.
    destruct (dict_find data "q") as [qv|] eqn:Hq; [|done]. simpl.
    destruct qv as [|cs| |]; try done. simpl.
    destruct (decide (0 ≤ cs ≤ u64_max)) as [Hcsr|]; [|done]. simpl.
    destruct (get_blink_quorums E h (get_service_node_list c) (Some cs))
      as [[qs cs']|e|w] eqn:Hquorums; [|destruct e; try done|done].
    2:{ intros [= <- <-]. right. exists data. split; [done|]. left. eauto. }
    intros [= Hres]. right. exists data. split; [done|].
    destruct (decide (blink_acceptable E c m tx_data tx_hash qs)) as [Hok|Hno].
    - right. right. exists h, cs, tx_data, tx_hash, qs.
      assert (cs' = cs) as -> by (by eapply get_blink_quorums_echo).
      split; [|split; [done|split; [done|]]].
      + exists data. rewrite Hdata. repeat split; try done; try lia.
      + rewrite <- Hres. by apply handle_blink_with_quorums_accepted.
    - left. destruct (handle_blink_with_quorums_refused E c blinks m tag h cs tx_data
                        tx_hash qs Hno) as [e He].
      rewrite He in Hres. injection Hres as <- <-. eauto. }
  destruct (blinks_find blinks h tx_hash) as [md|] eqn:Hfind.
  - destruct (btxptr md) as [btx|] eqn:Hbtx; simpl.
    + case_decide as Htag.
      * intros [= <- <-]. right. exists data. split; [done|]. right. left.
        exists h, tx_hash, md. rewrite Hbtx. repeat split; try done; try tauto.
      * intros [= <- <-]. by left.
    + apply Hnew. intros md' [= <-]. done.
  - apply Hnew. intros md' [=].
Qed.


(** ** [handle_blink]: replies, repetition and the cache *)

Lemma get_or_range lo hi d key fallback :
  lo ≤ fallback ≤ hi → lo ≤ get_or lo hi d key fallback ≤ hi.
Proof.
  intros Hf. unfold get_or. destruct (dict_find d key) as [v|]; [|done].
  destruct v as [|z| |]; simpl; try done. by case_decide.
Qed.

Lemma blinks_find_set blinks h x md h' x' :
  blinks_find (blinks_set blinks h x md) h' x' =
  if decide (h' = h ∧ x' = x) then Some md else blinks_find blinks h' x'.
Proof.
  unfold blinks_find, blinks_set. destruct (decide (h' = h)) as [->|Hh].
  - rewrite lookup_insert_eq. simpl. destruct (decide (x' = x)) as [->|Hx].
    + by rewrite lookup_insert_eq, decide_True.
    + rewrite lookup_insert_ne by done. rewrite decide_False by tauto.
      by destruct (blinks !! h).
  - rewrite lookup_insert_ne by done. by rewrite decide_False by tauto.
Qed.

Lemma relay_to_peers_cmd pi cmd data :
  Forall (λ s, is_cmd cmd s = true) (relay_to_peers pi cmd data).
Proof.
  unfold relay_to_peers. apply Forall_fmap, Forall_forall. intros [x a] _. simpl.
  case_decide; simpl; by apply bool_decide_eq_true.
Qed.

(** The messages of an accepted submission: the relayed [blink], then the
    relayed [blink_sign], then at most one verdict, sent only with a tag. *)
Lemma accepted_blink_messages E c blinks m tag h cs tx_data tx_hash qs :
  ∃ blink_relays sign_relays verdict,
    (accepted_blink E c blinks m tag h cs tx_data tx_hash qs).2 =
      (blink_relays ++ sign_relays ++ verdict)%list ∧
    blink_relays = relay_to_peers (blink_pinfo E c m qs) "blink"
                     (blink_relay_data h cs tx_data tx_hash) ∧
    Forall (λ s, is_cmd "blink_sign" s = true) sign_relays ∧
    (tag = 0 → verdict = []) ∧ verdicts verdict = verdict.
Proof.
  unfold accepted_blink. cbv zeta. simpl.
  set (sigs := (_ ++ own_signatures _ _ _ _ _)%list).
  destruct (process_blink_signatures_cases E c (blink_tx_for E h tx_hash) qs cs sigs tag
              (m_pubkey m) "") as [->|(sigs' & relayed & _ & Hrel & ->)].
  - exists (relay_to_peers (blink_pinfo E c m qs) "blink"
              (blink_relay_data h cs tx_data tx_hash)), [], []. done.
  - eexists _, relayed, _. split; [reflexivity|]. split; [done|]. split; [done|]. split.
    + intros ->. by rewrite decide_False by (intros [? _]; done).
    + case_decide; [|done]. destruct (_ && _); [done|]. by destruct (_ && _).
Qed.

(** X14: a [blink] message without a tag (no field [!], or one that is not a
    non-zero [uint64_t]) gets no response: whatever [handle_blink] sends for
    it is a [blink] or a [blink_sign] relayed to its peers, never a reply
    and never a verdict. *)
Theorem untagged_blink_gets_no_response E c blinks m data blinks' out :
  m_data m = [bt_dict data] → get_or 0 u64_max data "!" 0 = 0 →
  handle_blink E c blinks m = Ret (blinks', out) →
  Forall (λ s, is_cmd "blink" s || is_cmd "blink_sign" s = true) out.
Proof.
  intros Hdata Htag Hrun.
  destruct (handle_blink_cases E c blinks m blinks' out Hrun)
    as [[_ ->]|(data' & Hdata' & Hcase)]; [done|].
  rewrite Hdata in Hdata'. injection Hdata' as <-. rewrite Htag in Hcase.
  destruct Hcase as [[_ [e ->]]|[(h & x & md & _ & _ & -> & _)|
                     (h & cs & tx_data & tx_hash & qs & _ & _ & _ & Hres)]]; try done.
  destruct (accepted_blink_messages E c blinks m 0 h cs tx_data tx_hash qs)
    as (b & sg & v & Hout & -> & Hsg & Hv & _).
  rewrite <- Hres in Hout. simpl in Hout. rewrite Hout, (Hv eq_refl), app_nil_r.
  apply Forall_app. split.
  - eapply Forall_impl; [apply relay_to_peers_cmd|]. by intros s ->.
  - eapply Forall_impl; [apply Hsg|]. intros s ->. by rewrite orb_true_r.
Qed.

Lemma untagged_blink_gets_no_response_witness :
  Forall (λ s, is_cmd "blink" s || is_cmd "blink_sign" s = true)
    (handle_blink_with_quorums sample_E (sample_core (key32 "A") 100 sample_snl) ∅
       (blink_message (key32 "z") 0 100 (blink_checksum sample_E sample_Q' sample_Q))
       0 100 (blink_checksum sample_E sample_Q' sample_Q) sample_tx_blob sample_tx_hash
       [sample_Q'; sample_Q]).2.
Proof.
  apply (untagged_blink_gets_no_response sample_E (sample_core (key32 "A") 100 sample_snl) ∅
           (blink_message (key32 "z") 0 100 (blink_checksum sample_E sample_Q' sample_Q))
           (blink_data 0 100 (blink_checksum sample_E sample_Q' sample_Q))
           (handle_blink_with_quorums sample_E (sample_core (key32 "A") 100 sample_snl) ∅
              (blink_message (key32 "z") 0 100 (blink_checksum sample_E sample_Q' sample_Q))
              0 100 (blink_checksum sample_E sample_Q' sample_Q) sample_tx_blob
              sample_tx_hash [sample_Q'; sample_Q]).1).
  - reflexivity.
  - reflexivity.
  - vm_compute. reflexivity.
Defined.

Lemma is_cmd_nostart cmd tag e s : s ∈ nostart tag e → is_cmd cmd s = false.
Proof.
  unfold nostart. case_decide; [|by intros ?%elem_of_nil].
  by intros ->%list_elem_of_singleton.
Qed.

(** What holds when [handle_blink] has relayed a submission. *)
Lemma handle_blink_relayed E c blinks m blinks' out s :
  handle_blink E c blinks m = Ret (blinks', out) → s ∈ out → is_cmd "blink" s = true →
  ∃ data h cs tx_data tx_hash qs,
    m_data m = [bt_dict data] ∧
    reaches_quorums c blinks m (get_or 0 u64_max data "!" 0) h cs tx_data tx_hash ∧
    get_blink_quorums E h (get_service_node_list c) (Some cs) = Ret (qs, cs) ∧
    blink_acceptable E c m tx_data tx_hash qs ∧
    (blinks', out) =
      accepted_blink E c blinks m (get_or 0 u64_max data "!" 0) h cs tx_data tx_hash qs.
Proof.
  intros Hrun Hin Hcmd.
  destruct (handle_blink_cases E c blinks m blinks' out Hrun)
    as [[_ ->]|(data & Hdata & Hcase)]; [by apply elem_of_nil in Hin|].
  destruct Hcase as [[_ [e ->]]|[(h & x & md & _ & _ & -> & _)|
                     (h & cs & tx_data & tx_hash & qs & Hreach & Hq & Hok & Hres)]].
  - apply (is_cmd_nostart "blink") in Hin. congruence.
  - by apply elem_of_nil in Hin.
  - by exists data, h, cs, tx_data, tx_hash, qs.
Qed.

(** X15: once [handle_blink] has relayed a submission, the same message
    arriving again at the node (with the chain and the directory as they
    were) is ignored: nothing is sent, and the cache stays as it is. *)
Theorem blink_is_relayed_once E c blinks m blinks1 out1 s :
  handle_blink E c blinks m = Ret (blinks1, out1) →
  s ∈ out1 → is_cmd "blink" s = true →
  handle_blink E c blinks1 m = Ret (blinks1, []).
Proof.
  intros Hrun Hin Hcmd.
  destruct (handle_blink_relayed E c blinks m blinks1 out1 s Hrun Hin Hcmd)
    as (data & h & cs & tx_data & tx_hash & qs & Hdata & Hreach & _ & _ & Hres).
  destruct Hreach as (data' & Hdata' & _ & Hh & Hhr & Hlo & Hhi & Ht & Hhash & Hsz & _).
  rewrite Hdata in Hdata'. injection Hdata' as <-.
  set (tag := get_or 0 u64_max data "!" 0) in *.
  assert (Htag : 0 ≤ tag ≤ u64_max) by (apply get_or_range; unfold u64_max; lia).
  unfold accepted_blink in Hres. injection Hres as -> _.
  unfold handle_blink. rewrite Hdata. simpl.
  unfold dict_at. rewrite Hh. simpl. rewrite decide_True by done. simpl.
  rewrite decide_False by done. rewrite decide_False by done.
  rewrite Ht. simpl. rewrite Hhash. simpl.
  rewrite decide_False by (intros Hne; apply Hne, Hsz).
  rewrite blinks_find_set, decide_True by done. simpl.
  fold tag. rewrite decide_False; [done|].
  intros [Hne Hzero]. case_decide; lia.
Qed.

Lemma blink_is_relayed_once_witness :
  handle_blink sample_E (sample_core (key32 "A") 100 sample_snl)
    (handle_blink_with_quorums sample_E (sample_core (key32 "A") 100 sample_snl) ∅
       (blink_message (key32 "z") 7 100 (blink_checksum sample_E sample_Q' sample_Q))
       7 100 (blink_checksum sample_E sample_Q' sample_Q) sample_tx_blob sample_tx_hash
       [sample_Q'; sample_Q]).1
    (blink_message (key32 "z") 7 100 (blink_checksum sample_E sample_Q' sample_Q)) =
  Ret ((handle_blink_with_quorums sample_E (sample_core (key32 "A") 100 sample_snl) ∅
          (blink_message (key32 "z") 7 100 (blink_checksum sample_E sample_Q' sample_Q))
          7 100 (blink_checksum sample_E sample_Q' sample_Q) sample_tx_blob sample_tx_hash
          [sample_Q'; sample_Q]).1, []).
Proof.
  apply (blink_is_relayed_once sample_E (sample_core (key32 "A") 100 sample_snl) ∅
           (blink_message (key32 "z") 7 100 (blink_checksum sample_E sample_Q' sample_Q))
           _
           (handle_blink_with_quorums sample_E (sample_core (key32 "A") 100 sample_snl) ∅
              (blink_message (key32 "z") 7 100 (blink_checksum sample_E sample_Q' sample_Q))
              7 100 (blink_checksum sample_E sample_Q' sample_Q) sample_tx_blob
              sample_tx_hash [sample_Q'; sample_Q]).2
           (Send (key32 "b") "blink"
              (blink_relay_data 100 (blink_checksum sample_E sample_Q' sample_Q)
                 sample_tx_blob sample_tx_hash) (hint "tcp://2:22020"))).
  - vm_compute. reflexivity.
  - vm_compute. apply list_elem_of_here.
  - reflexivity.
Defined.


Lemma filter_nonempty_elem {A} (P : A → Prop) `{!∀ x, Decision (P x)} (l : list A) :
  len (filter P l) > 0 → ∃ x, x ∈ l ∧ P x.
Proof.
  unfold len. destruct (filter P l) as [|x l'] eqn:Hf; [simpl; lia|]. intros _.
  assert (Hx : x ∈ filter P l) by (rewrite Hf; by left).
  apply list_elem_of_filter in Hx as [? ?]. eauto.
Qed.

(** X16: [handle_blink] relays a submission to its peers only if the
    submission's height is within the accepted window, its transaction
    parses and has the hash the message states, the blink quorums for the
    height could be built with the stated checksum, this node is a validator
    of one of them, and the transaction was not in the blink cache yet; the
    blink tx is then in the cache, with no signatures left pending. *)
Theorem blink_is_relayed_only_when_valid E c blinks m blinks' out s :
  handle_blink E c blinks m = Ret (blinks', out) → s ∈ out → is_cmd "blink" s = true →
  ∃ data h cs tx_data tx_hash qs,
    m_data m = [bt_dict data] ∧
    dict_find data "h" = Some (bt_int h) ∧ dict_find data "q" = Some (bt_int cs) ∧
    dict_find data "t" = Some (bt_string tx_data) ∧
    dict_find data "#" = Some (bt_string tx_hash) ∧
    ¬ h < sub64 (get_current_blockchain_height c) 2 ∧
    ¬ h > add64 (get_current_blockchain_height c) 2 ∧
    parse_and_validate_tx_from_blob E tx_data = Some tx_hash ∧
    get_blink_quorums E h (get_service_node_list c) (Some cs) = Ret (qs, cs) ∧
    (∃ q, q ∈ qs ∧ my_pub c ∈ validators q) ∧
    (∀ md, blinks_find blinks h tx_hash = Some md → btxptr md = None) ∧
    (∃ md btx, blinks_find blinks' h tx_hash = Some md ∧ btxptr md = Some btx ∧
               pending_sigs md = []) ∧
    s ∈ relay_to_peers (blink_pinfo E c m qs) "blink" (blink_relay_data h cs tx_data tx_hash).
Proof.
  intros Hrun Hin Hcmd.
  destruct (handle_blink_relayed E c blinks m blinks' out s Hrun Hin Hcmd)
    as (data & h & cs & tx_data & tx_hash & qs & Hdata & Hreach & Hq & Hok & Hres).
  destruct Hreach as (data' & Hdata' & _ & Hh & Hhr & Hlo & Hhi & Ht & Hhash & Hsz & Hnew
                      & Hcs & _).
  rewrite Hdata in Hdata'. injection Hdata' as <-.
  exists data, h, cs, tx_data, tx_hash, qs.
  destruct Hok as (Hmember & Hparse & Hstrong).
  repeat (split; [done|]). split; [|split; [done|split]].
  - unfold blink_pinfo in Hmember. rewrite new_peer_info_position_count in Hmember.
    by apply filter_nonempty_elem in Hmember.
  - injection Hres as -> _. eexists _, _. rewrite blinks_find_set, decide_True by done.
    split; [reflexivity|]. done.
  - destruct (accepted_blink_messages E c blinks m (get_or 0 u64_max data "!" 0) h cs
                tx_data tx_hash qs) as (b & sg & v & Hout & -> & Hsg & _ & Hv).
    rewrite <- Hres in Hout. simpl in Hout. rewrite Hout in Hin.
    apply elem_of_app in Hin as [Hin|Hin]; [done|]. exfalso.
    apply elem_of_app in Hin as [Hin|Hin].
    + rewrite Forall_forall in Hsg. specialize (Hsg s Hin).
      destruct s as [to cmd d o|]; [|done]. simpl in *.
      apply bool_decide_eq_true in Hcmd, Hsg. congruence.
    + rewrite <- Hv in Hin. unfold verdicts in Hin.
      apply elem_of_bool_filter in Hin as [_ Hverdict].
      destruct s as [to cmd d o|]; [|done]. simpl in *.
      apply bool_decide_eq_true in Hcmd. subst cmd. done.
Qed.

Lemma blink_is_relayed_only_when_valid_witness :
  ∃ data h cs tx_data tx_hash qs,
    m_data (blink_message (key32 "z") 7 100 (blink_checksum sample_E sample_Q' sample_Q))
      = [bt_dict data] ∧
    dict_find data "h" = Some (bt_int h) ∧ dict_find data "q" = Some (bt_int cs) ∧
    dict_find data "t" = Some (bt_string tx_data) ∧
    dict_find data "#" = Some (bt_string tx_hash) ∧
    ¬ h < sub64 100 2 ∧ ¬ h > add64 100 2 ∧
    parse_and_validate_tx_from_blob sample_E tx_data = Some tx_hash ∧
    get_blink_quorums sample_E h sample_snl (Some cs) = Ret (qs, cs) ∧
    (∃ q, q ∈ qs ∧ key32 "A" ∈ validators q) ∧
    (∀ md, blinks_find (∅ : blinks_t) h tx_hash = Some md → btxptr md = None) ∧
    (∃ md btx,
       blinks_find
         (handle_blink_with_quorums sample_E (sample_core (key32 "A") 100 sample_snl) ∅
            (blink_message (key32 "z") 7 100 (blink_checksum sample_E sample_Q' sample_Q))
            7 100 (blink_checksum sample_E sample_Q' sample_Q) sample_tx_blob
            sample_tx_hash [sample_Q'; sample_Q]).1 h tx_hash = Some md ∧
       btxptr md = Some btx ∧ pending_sigs md = []) ∧
    Send (key32 "b") "blink"
      (blink_relay_data 100 (blink_checksum sample_E sample_Q' sample_Q)
         sample_tx_blob sample_tx_hash) (hint "tcp://2:22020")
    ∈ relay_to_peers
        (blink_pinfo sample_E (sample_core (key32 "A") 100 sample_snl)
           (blink_message (key32 "z") 7 100 (blink_checksum sample_E sample_Q' sample_Q)) qs)
        "blink" (blink_relay_data h cs tx_data tx_hash).
Proof.
  apply (blink_is_relayed_only_when_valid sample_E (sample_core (key32 "A") 100 sample_snl) ∅
           (blink_message (key32 "z") 7 100 (blink_checksum sample_E sample_Q' sample_Q))
           _
           (handle_blink_with_quorums sample_E (sample_core (key32 "A") 100 sample_snl) ∅
              (blink_message (key32 "z") 7 100 (blink_checksum sample_E sample_Q' sample_Q))
              7 100 (blink_checksum sample_E sample_Q' sample_Q) sample_tx_blob
              sample_tx_hash [sample_Q'; sample_Q]).2).
  - vm_compute. reflexivity.
  - vm_compute. apply list_elem_of_here.
  - reflexivity.
Defined.

(** ** The blink cache *)

Lemma cache_wf_set E blinks h x md :
  cache_wf E blinks →
  Forall (validated_signature E) (pending_sigs md) →
  (∀ btx, btxptr md = Some btx → btx_height btx = h ∧ btx_tx_hash btx = x) →
  cache_wf E (blinks_set blinks h x md).
Proof.
  intros Hwf Hsigs Hbtx h' x' md'. rewrite blinks_find_set. case_decide as Hkey.
  - destruct Hkey as [-> ->]. by intros [= <-].
  - apply Hwf.
Qed.

Lemma process_blink_signatures_identity E c btx qs cs sigs reply_tag reply_pubkey from :
  btx_height (process_blink_signatures E c btx qs cs sigs reply_tag reply_pubkey from).1
    = btx_height btx ∧
  btx_tx_hash (process_blink_signatures E c btx qs cs sigs reply_tag reply_pubkey from).1
    = btx_tx_hash btx.
Proof. rewrite process_blink_signatures_stored. apply store_signatures_identity. Qed.

Lemma insert_pending_Forall (P : pending_signature → Prop) delayed sigs :
  Forall P delayed → Forall P sigs → Forall P (foldl insert_pending delayed sigs).
Proof.
  intros Hd Hs. revert delayed Hd. induction Hs as [|s sigs Hs _ IH]; intros delayed Hd; [done|].
  simpl. apply IH. unfold insert_pending. case_decide; [done|].
  apply Forall_app. split; [done|]. by constructor.
Qed.

(** X17: the two handlers keep the blink cache consistent: every blink tx in
    it is stored under its own height and transaction hash - so that a
    signature for a height and hash is checked against the transaction it
    names - and every signature waiting for its transaction has passed the
    input validation. *)
Theorem handlers_keep_cache_consistent E c blinks m hash0 i0 r0 p0 s0 :
  0 < BLINK_SUBQUORUM_SIZE E →
  cache_wf E blinks →
  (∀ blinks' out, handle_blink E c blinks m = Ret (blinks', out) → cache_wf E blinks') ∧
  (∀ blinks' out,
     handle_blink_signature E c blinks hash0 i0 r0 p0 s0 m = Ret (blinks', out) →
     cache_wf E blinks').
Proof.
  intros Hsize Hwf. split.
  - intros blinks' out Hrun.
    destruct (handle_blink_cases E c blinks m blinks' out Hrun)
      as [[-> _]|(data & Hdata & Hcase)]; [done|].
    destruct Hcase as [[-> _]|[(h & x & md & Hfind & _ & _ & -> & _)|
                       (h & cs & tx_data & tx_hash & qs & _ & _ & _ & Hres)]]; [done| |].
    + destruct (Hwf h x md Hfind) as [Hsigs Hbtx]. by apply cache_wf_set.
    + unfold accepted_blink in Hres. injection Hres as -> _.
      apply cache_wf_set; [done|by simpl|]. simpl. intros btx [= <-].
      apply process_blink_signatures_identity.
  - intros blinks' out. unfold handle_blink_signature.
    case_decide; [done|].
    destruct (get_dict _) as [data| |]; try done. simpl.
    destruct (parse_blink_sign E _ data) as [f| |] eqn:Hparse; try done. simpl.
    destruct (negb _); [done|].
    destruct (get_blink_quorums E _ _ _) as [q| |]; try done. simpl.
    pose proof (parse_blink_sign_validated E (declared_fields hash0 i0 r0 p0 s0) data f
                  Hsize (Forall_nil_2 _) Hparse) as Hvalid.
    destruct (blinks_find blinks (f_blink_height f) (f_tx_hash f))
      as [[[btx|] ps rp rt]|] eqn:Hfind.
    + intros [= <- _]. destruct (Hwf _ _ _ Hfind) as [Hsigs Hbtx]. simpl in *.
      apply cache_wf_set; [done|done|]. simpl. intros btx' [= <-].
      destruct (process_blink_signatures_identity E c btx q.1 (f_checksum f)
                  (f_signatures f) rt rp (m_pubkey m)) as [-> ->].
      by apply Hbtx.
    + intros [= <- _]. destruct (Hwf _ _ _ Hfind) as [Hsigs _]. simpl in *.
      apply cache_wf_set; [done| |done]. simpl. by apply insert_pending_Forall.
    + intros [= <- _]. apply cache_wf_set; [done| |done]. simpl.
      by apply insert_pending_Forall.
Qed.

Lemma cache_wf_empty E : cache_wf E ∅.
Proof. intros h x md. unfold blinks_find. by rewrite lookup_empty. Qed.

Lemma handlers_keep_cache_consistent_witness :
  cache_wf sample_E
    (handle_blink_with_quorums sample_E (sample_core (key32 "A") 100 sample_snl) ∅
       (blink_message (key32 "z") 7 100 (blink_checksum sample_E sample_Q' sample_Q))
       7 100 (blink_checksum sample_E sample_Q' sample_Q) sample_tx_blob sample_tx_hash
       [sample_Q'; sample_Q]).1.
Proof.
  refine (proj1 (handlers_keep_cache_consistent sample_E
                   (sample_core (key32 "A") 100 sample_snl) ∅
                   (blink_message (key32 "z") 7 100 (blink_checksum sample_E sample_Q' sample_Q))
                   "" false false false false _ _) _
            (handle_blink_with_quorums sample_E (sample_core (key32 "A") 100 sample_snl) ∅
               (blink_message (key32 "z") 7 100 (blink_checksum sample_E sample_Q' sample_Q))
               7 100 (blink_checksum sample_E sample_Q' sample_Q) sample_tx_blob
               sample_tx_hash [sample_Q'; sample_Q]).2 _).
  - reflexivity.
  - apply cache_wf_empty.
  - vm_compute. reflexivity.
Defined.


Lemma blink_tx_for_slot E h tx_hash sq pos :
  0 ≤ sq < NUM_BLINK_QUORUMS → 0 ≤ pos < BLINK_SUBQUORUM_SIZE E →
  btx_slot (blink_tx_for E h tx_hash) sq pos = Some None.
Proof.
  intros Hsq Hpos. unfold btx_slot, blink_tx_for, new_blink_tx, index_Z.
  cbn [btx_signatures]. rewrite decide_True by lia.
  rewrite lookup_replicate_2 by (unfold NUM_BLINK_QUORUMS in *; lia).
  cbn [mbind option_bind]. rewrite decide_True by lia.
  rewrite lookup_replicate_2 by lia. done.
Qed.

(** X18: a signature that arrived before its transaction and waits in the
    cache is not lost: when [handle_blink] accepts the transaction, a
    waiting signature that verifies against the validator at its position
    has its slot of the new blink tx filled. *)
Theorem early_signature_is_counted E c blinks m blinks' out relay data h tx_hash cs qs md s
    validator :
  handle_blink E c blinks m = Ret (blinks', out) →
  relay ∈ out → is_cmd "blink" relay = true →
  m_data m = [bt_dict data] →
  dict_find data "h" = Some (bt_int h) → dict_find data "#" = Some (bt_string tx_hash) →
  dict_find data "q" = Some (bt_int cs) →
  get_blink_quorums E h (get_service_node_list c) (Some cs) = Ret (qs, cs) →
  blinks_find blinks h tx_hash = Some md → s ∈ pending_sigs md →
  0 ≤ sig_subquorum s < NUM_BLINK_QUORUMS → sig_position s < BLINK_SUBQUORUM_SIZE E →
  index_Z (quorum_at qs (Z.to_nat (sig_subquorum s))) (sig_position s) = Some validator →
  check_signature E (blink_hash E h tx_hash (sig_approval s)) validator (sig_signature s)
    = true →
  ∃ md' btx,
    blinks_find blinks' h tx_hash = Some md' ∧ btxptr md' = Some btx ∧
    get_signature_status btx (sig_subquorum s) (sig_position s) ≠ status_none.
Proof.
  intros Hrun Hin Hcmd Hdata Hh Hhash Hcs Hqs Hfind Hs Hsq Hpos Hv Hcheck.
  destruct (handle_blink_relayed E c blinks m blinks' out relay Hrun Hin Hcmd)
    as (data' & h' & cs' & tx_data & tx_hash' & qs' & Hdata' & Hreach & Hq' & _ & Hres).
  rewrite Hdata in Hdata'. injection Hdata' as <-.
  destruct Hreach as (data' & Hdata' & _ & Hh' & _ & _ & _ & _ & Hhash' & _ & _ & Hcs' & _).
  rewrite Hdata in Hdata'. injection Hdata' as <-.
  rewrite Hh in Hh'. injection Hh' as <-. rewrite Hhash in Hhash'. injection Hhash' as <-.
  rewrite Hcs in Hcs'. injection Hcs' as <-. rewrite Hqs in Hq'. injection Hq' as <-.
  unfold accepted_blink in Hres. injection Hres as -> _.
  eexists _, _. rewrite blinks_find_set, decide_True by done.
  split; [reflexivity|]. split; [reflexivity|].
  rewrite Hfind. simpl.
  set (sigs := (pending_sigs md ++ _)%list).
  rewrite process_blink_signatures_stored.
  set (btx0 := blink_tx_for E h tx_hash).
  set (s2 := List.filter (signature_valid E btx0 qs) (List.filter (slot_open btx0 qs) sigs)).
  assert (Hp0 : 0 ≤ sig_position s).
  { unfold index_Z in Hv. by case_decide. }
  assert (Hempty : btx_slot btx0 (sig_subquorum s) (sig_position s) = Some None).
  { apply blink_tx_for_slot; lia. }
  assert (Hs2 : s ∈ s2).
  { unfold s2. apply elem_of_bool_filter. split.
    - apply elem_of_bool_filter. split; [apply elem_of_app; by left|].
      unfold slot_open. rewrite decide_False.
      + rewrite decide_False; [done|]. intros Hne. apply Hne, status_none_slot. by right.
      + unfold index_Z in Hv. rewrite decide_True in Hv by done.
        apply lookup_lt_Some in Hv. unfold len. lia.
    - unfold signature_valid. by rewrite Hv. }
  pose proof (store_signatures_fills s2 btx0 s Hs2) as Hfilled.
  destruct (store_signatures_slots s2 btx0 (sig_subquorum s) (sig_position s))
    as [Hsame|(_ & s' & _ & _ & _ & Hnow)].
  - by rewrite Hsame in Hfilled.
  - unfold get_signature_status. rewrite Hnow. by destruct (sig_approval s').
Qed.

(** B's approval waits in the cache of node A; when the transaction arrives,
    B's slot of the blink tx is filled. *)
Lemma early_signature_is_counted_witness :
  ∃ md' btx,
    blinks_find
      (handle_blink_with_quorums sample_E (sample_core (key32 "A") 100 sample_snl)
         (blinks_set ∅ 100 sample_tx_hash
            {| btxptr := None; pending_sigs := [approval_by 1 1];
               reply_pubkey := ""; reply_tag := 0 |})
         (blink_message (key32 "z") 7 100 (blink_checksum sample_E sample_Q' sample_Q))
         7 100 (blink_checksum sample_E sample_Q' sample_Q) sample_tx_blob sample_tx_hash
         [sample_Q'; sample_Q]).1 100 sample_tx_hash = Some md' ∧
    btxptr md' = Some btx ∧
    get_signature_status btx (sig_subquorum (approval_by 1 1))
      (sig_position (approval_by 1 1)) ≠ status_none.
Proof.
  apply (early_signature_is_counted sample_E (sample_core (key32 "A") 100 sample_snl)
           (blinks_set ∅ 100 sample_tx_hash
              {| btxptr := None; pending_sigs := [approval_by 1 1];
                 reply_pubkey := ""; reply_tag := 0 |})
           (blink_message (key32 "z") 7 100 (blink_checksum sample_E sample_Q' sample_Q))
           _
           (handle_blink_with_quorums sample_E (sample_core (key32 "A") 100 sample_snl)
              (blinks_set ∅ 100 sample_tx_hash
                 {| btxptr := None; pending_sigs := [approval_by 1 1];
                    reply_pubkey := ""; reply_tag := 0 |})
              (blink_message (key32 "z") 7 100 (blink_checksum sample_E sample_Q' sample_Q))
              7 100 (blink_checksum sample_E sample_Q' sample_Q) sample_tx_blob
              sample_tx_hash [sample_Q'; sample_Q]).2
           (Send (key32 "b") "blink"
              (blink_relay_data 100 (blink_checksum sample_E sample_Q' sample_Q)
                 sample_tx_blob sample_tx_hash) (hint "tcp://2:22020"))
           (blink_data 7 100 (blink_checksum sample_E sample_Q' sample_Q))
           100 sample_tx_hash (blink_checksum sample_E sample_Q' sample_Q)
           [sample_Q'; sample_Q]
           {| btxptr := None; pending_sigs := [approval_by 1 1];
              reply_pubkey := ""; reply_tag := 0 |}
           (approval_by 1 1) (key32 "B")).
  - vm_compute. reflexivity.
  - vm_compute. apply list_elem_of_here.
  - reflexivity.
  - reflexivity.
  - reflexivity.
  - reflexivity.
  - reflexivity.
  - vm_compute. reflexivity.
  - vm_compute. reflexivity.
  - apply list_elem_of_here.
  - vm_compute. split; [discriminate|reflexivity].
  - reflexivity.
  - reflexivity.
  - vm_compute. reflexivity.
Defined.


(** ** Submitting a blink *)

Lemma length_omap_total {A B} (f : A → option B) (l : list A) :
  Forall (λ a, is_Some (f a)) l → length (omap f l) = length l.
Proof.
  induction 1 as [|a l [b Hb] _ IH]; [done|]. simpl. rewrite Hb. simpl. f_equal. exact IH.
Qed.

(** What [send_blink] leaves when the returned future is pending. *)
Lemma send_blink_pending_future E c rnd now now_created pending tx_blob :
  (∀ l, shuffle rnd l ≡ₚ l) →
  sb_future (send_blink E c rnd now now_created pending tx_blob) = Ret None →
  ∃ tag tx_hash qs cs,
    parse_and_validate_tx_from_blob E tx_blob = Some tx_hash ∧
    get_blink_quorums E (get_current_blockchain_height c) (get_service_node_list c) None
      = Ret (qs, cs) ∧
    tag ∈ draws rnd ∧ tag ≠ 0 ∧ (sweep now tx_hash pending).1.1 !! tag = None ∧
    sb_pending (send_blink E c rnd now now_created pending tx_blob) =
      <[tag := new_submission tx_hash now_created
                 (len (sb_sent (send_blink E c rnd now now_created pending tx_blob)))]>
        (sweep now tx_hash pending).1.1 ∧
    (length (sb_sent (send_blink E c rnd now now_created pending tx_blob)) ≤ 4)%nat ∧
    Forall (λ s, ∃ x addr,
              entry_node E (get_service_node_list c) qs x addr ∧
              s = Send x "blink"
                    (blink_submission tag tx_hash (get_current_blockchain_height c) cs tx_blob)
                    (hint addr))
      (sb_sent (send_blink E c rnd now now_created pending tx_blob)).
Proof.
  intros Hperm. unfold send_blink.
  destruct (parse_and_validate_tx_from_blob E tx_blob) as [tx_hash|] eqn:Hparse; [|done].
  destruct (sweep now tx_hash pending) as [[kept resolved] found] eqn:Hsweep.
  cbv beta iota.
  destruct found; [done|]. case_decide; [done|].
  destruct (choose_tag (draws rnd) kept) as [tag|] eqn:Htag; [|done].
  pose proof (choose_tag_unused _ _ _ Htag) as [Hnz Hfree].
  assert (Hdrawn : tag ∈ draws rnd).
  { unfold choose_tag in Htag. apply find_some in Htag as [Hin _].
    by apply list_elem_of_In. }
  unfold send_to_quorum.
  destruct (get_blink_quorums E _ _ None) as [[qs cs]| |] eqn:Hq; try done.
  cbn [sb_pending sb_sent sb_future].
  intros _. exists tag, tx_hash, qs, cs. rewrite Hsweep. cbn [fst].
  set (remotes := omap _ (elements _)).
  set (indices := take 4 (shuffle rnd (seq 0 (length remotes)))).
  set (data := bt_dict _).
  assert (Hidx : Forall (λ i, is_Some (remotes !! i)) indices).
  { apply Forall_forall. intros i Hi. apply lookup_lt_is_Some.
    apply subseteq_take in Hi. rewrite (Hperm _) in Hi. apply elem_of_seq in Hi. lia. }
  assert (Hlen : length (omap (λ i, r ← remotes !! i;
                                    Some (Send r.1 "blink" data (hint r.2))) indices)
                 = length indices).
  { apply length_omap_total. eapply Forall_impl; [apply Hidx|].
    intros i [r ->]. simpl. eauto. }
  repeat (split; [done|]). split; [|split].
  - rewrite alter_insert_eq. unfold new_submission, len. cbn [brd_hash promise expiry
      nostart_count bad_count good_count]. by rewrite Hlen.
  - rewrite Hlen. unfold indices. rewrite length_take. lia.
  - apply Forall_forall. intros s Hs. apply list_elem_of_omap in Hs as (i & _ & Hs).
    destruct (remotes !! i) as [[x addr]|] eqn:Hr; [|done]. simpl in Hs.
    injection Hs as <-. exists x, addr. split; [|done].
    apply list_elem_of_lookup_2 in Hr. unfold remotes in Hr.
    apply list_elem_of_omap in Hr as (pubkey & Hcand & Hinfo).
    apply elem_of_elements, elem_of_list_to_set in Hcand.
    destruct (sn_infos (get_service_node_list c) !! pubkey) as [info|] eqn:Hi; [|done].
    simpl in Hinfo. by exists pubkey, info.
Qed.

(** X19: when [send_blink] returns a pending future, the submission is stored
    under a tag that is not zero and was not in use, with its hash, an
    expiry thirty seconds after its creation and all counters at zero; a
    [blink] message with that tag, the transaction hash, the current height,
    the checksum of the blink quorums and the transaction is sent, with a
    connection hint, to at most four active validators of the blink quorums;
    and [remote_count] is the number of messages sent. *)
Theorem send_blink_submits_to_at_most_four E c rnd now now_created pending tx_blob :
  (∀ l, shuffle rnd l ≡ₚ l) →
  sb_future (send_blink E c rnd now now_created pending tx_blob) = Ret None →
  ∃ tag tx_hash qs cs,
    parse_and_validate_tx_from_blob E tx_blob = Some tx_hash ∧
    get_blink_quorums E (get_current_blockchain_height c) (get_service_node_list c) None
      = Ret (qs, cs) ∧
    tag ≠ 0 ∧ (sweep now tx_hash pending).1.1 !! tag = None ∧
    sb_pending (send_blink E c rnd now now_created pending tx_blob) =
      <[tag := new_submission tx_hash now_created
                 (len (sb_sent (send_blink E c rnd now now_created pending tx_blob)))]>
        (sweep now tx_hash pending).1.1 ∧
    (length (sb_sent (send_blink E c rnd now now_created pending tx_blob)) ≤ 4)%nat ∧
    Forall (λ s, ∃ x addr,
              entry_node E (get_service_node_list c) qs x addr ∧
              s = Send x "blink"
                    (blink_submission tag tx_hash (get_current_blockchain_height c) cs tx_blob)
                    (hint addr))
      (sb_sent (send_blink E c rnd now now_created pending tx_blob)).
Proof.
  intros Hperm Hfuture.
  destruct (send_blink_pending_future E c rnd now now_created pending tx_blob Hperm Hfuture)
    as (tag & tx_hash & qs & cs & H1 & H2 & _ & H3 & H4 & H5 & H6 & H7).
  by exists tag, tx_hash, qs, cs.
Qed.

Lemma send_blink_submits_to_at_most_four_witness :
  ∃ tag tx_hash qs cs,
    parse_and_validate_tx_from_blob sample_E sample_tx_blob = Some tx_hash ∧
    get_blink_quorums sample_E 100 sample_snl None = Ret (qs, cs) ∧
    tag ≠ 0 ∧ (sweep 1000 tx_hash (∅ : pending_t)).1.1 !! tag = None ∧
    sb_pending (send_blink sample_E (sample_core (key32 "z") 100 sample_snl) sample_rnd
                  1000 1001 ∅ sample_tx_blob) =
      <[tag := new_submission tx_hash 1001
                 (len (sb_sent (send_blink sample_E (sample_core (key32 "z") 100 sample_snl)
                                  sample_rnd 1000 1001 ∅ sample_tx_blob)))]>
        (sweep 1000 tx_hash (∅ : pending_t)).1.1 ∧
    (length (sb_sent (send_blink sample_E (sample_core (key32 "z") 100 sample_snl) sample_rnd
                        1000 1001 ∅ sample_tx_blob)) ≤ 4)%nat ∧
    Forall (λ s, ∃ x addr,
              entry_node sample_E sample_snl qs x addr ∧
              s = Send x "blink" (blink_submission tag tx_hash 100 cs sample_tx_blob)
                    (hint addr))
      (sb_sent (send_blink sample_E (sample_core (key32 "z") 100 sample_snl) sample_rnd
                  1000 1001 ∅ sample_tx_blob)).
Proof.
  apply (send_blink_submits_to_at_most_four sample_E (sample_core (key32 "z") 100 sample_snl)
           sample_rnd 1000 1001 ∅ sample_tx_blob).
  - intros l. reflexivity.
  - vm_compute. reflexivity.
Defined.

Lemma map_size_alter `{Countable K} {A} (f : A → A) (m : gmap K A) i :
  size (alter f i m) = size m.
Proof.
  destruct (m !! i) as [x|] eqn:Hi.
  - rewrite <- (insert_id m i x Hi) at 1. rewrite alter_insert_eq.
    rewrite map_size_insert_Some; [done|by eauto].
  - by rewrite alter_id'.
Qed.

(** X20: [send_blink] keeps the table of pending submissions within
    [MAX_ACTIVE_PROMISES] entries. *)
Theorem pending_table_stays_bounded E c rnd now now_created pending tx_blob :
  Z.of_nat (size pending) ≤ MAX_ACTIVE_PROMISES →
  Z.of_nat (size (sb_pending (send_blink E c rnd now now_created pending tx_blob)))
    ≤ MAX_ACTIVE_PROMISES.
Proof.
  intros Hbound. unfold send_blink.
  destruct (parse_and_validate_tx_from_blob E tx_blob) as [tx_hash|]; [|done].
  unfold sweep. simpl.
  set (kept := filter _ pending).
  assert (Hkept : (size kept ≤ size pending)%nat) by apply map_size_filter.
  destruct (existsb _ _); [simpl; lia|]. case_decide as Hfull; [simpl; lia|].
  destruct (choose_tag (draws rnd) kept) as [tag|] eqn:Htag; [|simpl; lia].
  apply choose_tag_unused in Htag as [_ Hfree].
  unfold send_to_quorum. destruct (get_blink_quorums _ _ _ _) as [[qs cs]| |]; simpl;
    rewrite ?map_size_alter, map_size_insert_None by done; lia.
Qed.

Lemma pending_table_stays_bounded_witness :
  Z.of_nat (size (sb_pending (send_blink sample_E (sample_core (key32 "z") 100 sample_snl)
                                sample_rnd 1000 1001 {[ 6 := sample_pending 10 ]}
                                "another blink transaction")))
    ≤ MAX_ACTIVE_PROMISES.
Proof.
  apply (pending_table_stays_bounded sample_E (sample_core (key32 "z") 100 sample_snl)
           sample_rnd 1000 1001 {[ 6 := sample_pending 10 ]} "another blink transaction").
  rewrite map_size_singleton. unfold MAX_ACTIVE_PROMISES. lia.
Defined.

Lemma get_blink_quorums_own_checksum E h snl qs cs :
  get_blink_quorums E h snl None = Ret (qs, cs) →
  get_blink_quorums E h snl (Some cs) = Ret (qs, cs) ∧ 0 ≤ cs ≤ u64_max.
Proof.
  rewrite !get_blink_quorums_unfold.
  assert (Hrange : ∀ r, get_blink_quorums_loop E snl h [0; 1] [] 0 = Ret r → 0 ≤ r.2 ≤ u64_max).
  { simpl. intros r. repeat (case_decide || destruct (get_quorum _ _ _)); try done.
    intros [= <-]. simpl. apply wrap64_range. }
  destruct (get_blink_quorums_loop E snl h [0; 1] [] 0) as [[qs0 cs0]| |] eqn:Hloop;
    try done. simpl. intros [= -> ->].
  split; [by rewrite decide_False by (intros ?; done)|]. by apply (Hrange (qs, cs)).
Qed.

(** X21: a [blink] message that [send_blink] sends is not refused for its
    form, its height or its quorum checksum by a node that sees the same
    chain height and service node list and has not seen the transaction:
    [handle_blink] there goes on with the blink quorums the submitter
    computed. *)
Theorem submitted_blink_reaches_the_quorums E c rnd now now_created pending tx_blob
    c' blinks sender x data opt :
  (∀ l, shuffle rnd l ≡ₚ l) → Forall (λ t, 0 ≤ t ≤ u64_max) (draws rnd) →
  (∀ tx_hash, parse_and_validate_tx_from_blob E tx_blob = Some tx_hash →
              str_size tx_hash = 32) →
  Send x "blink" data opt ∈ sb_sent (send_blink E c rnd now now_created pending tx_blob) →
  get_current_blockchain_height c' = get_current_blockchain_height c →
  get_service_node_list c' = get_service_node_list c →
  2 ≤ get_current_blockchain_height c ≤ u64_max - 2 →
  (∀ h tx_hash md, blinks_find blinks h tx_hash = Some md → btxptr md = None) →
  ∃ tag tx_hash qs cs,
    parse_and_validate_tx_from_blob E tx_blob = Some tx_hash ∧
    get_blink_quorums E (get_current_blockchain_height c) (get_service_node_list c) None
      = Ret (qs, cs) ∧
    tag ≠ 0 ∧
    handle_blink E c' blinks {| m_pubkey := sender; m_sn := false; m_data := [data] |} =
      Ret (handle_blink_with_quorums E c' blinks
             {| m_pubkey := sender; m_sn := false; m_data := [data] |}
             tag (get_current_blockchain_height c) cs tx_blob tx_hash qs).
Proof.
  intros Hperm Hdraws Hhash Hsent Hheight Hsnl Hrange Hfresh.
  assert (Hfuture : sb_future (send_blink E c rnd now now_created pending tx_blob) = Ret None).
  { revert Hsent. unfold send_blink.
    destruct (parse_and_validate_tx_from_blob E tx_blob) as [tx_hash|];
      [|by intros ?%elem_of_nil].
    destruct (sweep now tx_hash pending) as [[kept resolved] found]. simpl.
    destruct found; [by intros ?%elem_of_nil|]. case_decide; [by intros ?%elem_of_nil|].
    destruct (choose_tag _ _); [|by intros ?%elem_of_nil].
    unfold send_to_quorum.
    destruct (get_blink_quorums _ _ _ _) as [[qs cs]| |]; simpl;
      try (by intros ?%elem_of_nil). done. }
  destruct (send_blink_pending_future E c rnd now now_created pending tx_blob Hperm Hfuture)
    as (tag & tx_hash & qs & cs & Hparse & Hq & Hdrawn & Hnz & _ & _ & _ & Hall).
  rewrite Forall_forall in Hall. destruct (Hall _ Hsent) as (x' & addr & _ & Heq).
  injection Heq as _ -> _.
  exists tag, tx_hash, qs, cs. repeat (split; [done|]).
  destruct (get_blink_quorums_own_checksum _ _ _ _ _ Hq) as [Hown Hcs].
  rewrite Forall_forall in Hdraws. specialize (Hdraws tag Hdrawn).
  rewrite (handle_blink_reaches_quorums E c' blinks _ tag (get_current_blockchain_height c)
             cs tx_blob tx_hash).
  - by rewrite Hsnl, Hown.
  - eexists. split; [reflexivity|]. simpl.
    split; [unfold get_or; simpl; by rewrite decide_True|].
    split; [reflexivity|]. split; [unfold u64_max in *; lia|].
    rewrite Hheight. unfold sub64, add64, wrap64, u64_max in *.
    rewrite !Z.mod_small by lia.
    split; [lia|]. split; [lia|]. split; [reflexivity|]. split; [reflexivity|].
    split; [by eapply Hhash|]. split; [by eauto|]. split; [reflexivity|done].
Qed.

(** The submission of the sample transaction, as it arrives at node O. *)
Lemma submitted_blink_reaches_the_quorums_witness :
  ∃ tag tx_hash qs cs,
    parse_and_validate_tx_from_blob sample_E sample_tx_blob = Some tx_hash ∧
    get_blink_quorums sample_E 100 sample_snl None = Ret (qs, cs) ∧
    tag ≠ 0 ∧
    handle_blink sample_E (sample_core (key32 "O") 100 sample_snl) ∅
      {| m_pubkey := key32 "z"; m_sn := false;
         m_data := [blink_submission 5 sample_tx_hash 100
                      (blink_checksum sample_E sample_Q' sample_Q) sample_tx_blob] |} =
      Ret (handle_blink_with_quorums sample_E (sample_core (key32 "O") 100 sample_snl) ∅
             {| m_pubkey := key32 "z"; m_sn := false;
                m_data := [blink_submission 5 sample_tx_hash 100
                             (blink_checksum sample_E sample_Q' sample_Q) sample_tx_blob] |}
             tag 100 cs sample_tx_blob tx_hash qs).
Proof.
  apply (submitted_blink_reaches_the_quorums sample_E (sample_core (key32 "z") 100 sample_snl)
           sample_rnd 1000 1001 ∅ sample_tx_blob
           (sample_core (key32 "O") 100 sample_snl) ∅ (key32 "z") (key32 "o")
           (blink_submission 5 sample_tx_hash 100
              (blink_checksum sample_E sample_Q' sample_Q) sample_tx_blob)
           (hint "tcp://15:22020")).
  - intros l. reflexivity.
  - repeat constructor; vm_compute; discriminate.
  - intros tx_hash. vm_compute. by intros [= <-].
  - vm_compute. apply list_elem_of_here.
  - reflexivity.
  - reflexivity.
  - vm_compute. split; discriminate.
  - intros h tx_hash md. unfold blinks_find. by rewrite lookup_empty.
Defined.


(** ** Responses of the entry nodes, one after the other *)

(** The three handlers are [common_blink_response] on the tag of the
    message, when that is a [uint64_t]. *)
Lemma handle_response_common r sender tag pending :
  handle_response r (response_message sender r tag) pending =
  if decide (0 ≤ tag ≤ u64_max) then
    Ret (common_blink_response tag (response_result r).1 (response_result r).2
           (match r with bl_nostart_response _ => true | _ => false end)
           (match r with bl_bad_response => true | _ => false end)
           (match r with bl_good_response => true | _ => false end) pending)
  else Throw bad_integer.
Proof.
  destruct r; simpl;
    unfold handle_blink_not_started, handle_blink_failure, handle_blink_success; simpl;
    unfold dict_at; simpl; by case_decide.
Qed.

Lemma common_blink_response_step tag res msg n b g pending :
  let out := common_blink_response tag res msg n b g pending in
  (out.2 = [] ∧ (∀ t, is_Some (out.1 !! t) ↔ is_Some (pending !! t)) ∧
   ∀ t, t ≠ tag → out.1 !! t = pending !! t) ∨
  (out.2 = [(tag, (res, msg))] ∧ is_Some (pending !! tag) ∧ out.1 = delete tag pending).
Proof.
  cbv zeta. unfold common_blink_response.
  destruct (pending !! tag) as [pbr|] eqn:Hl; [|by left].
  assert (Hins : ∀ v, (∀ t, is_Some (<[tag := v]> pending !! t) ↔ is_Some (pending !! t)) ∧
                      ∀ t, t ≠ tag → <[tag := v]> pending !! t = pending !! t).
  { intros v. split.
    - intros t. destruct (decide (t = tag)) as [->|Hne].
      + rewrite lookup_insert_eq, Hl. split; eauto.
      + by rewrite lookup_insert_ne.
    - intros t Hne. by rewrite lookup_insert_ne. }
  case_decide; [destruct (promise pbr)|]; simpl; auto.
Qed.

(** One response either leaves the keys of the table as they are and resolves
    nothing, or resolves the promise of its tag and erases the entry. *)
Lemma handle_response_step r sender tag pending pending' resolved :
  handle_response r (response_message sender r tag) pending = Ret (pending', resolved) →
  (resolved = [] ∧ (∀ t, is_Some (pending' !! t) ↔ is_Some (pending !! t)) ∧
   ∀ t, t ≠ tag → pending' !! t = pending !! t) ∨
  (resolved = [(tag, response_result r)] ∧ is_Some (pending !! tag) ∧
   pending' = delete tag pending).
Proof.
  rewrite handle_response_common. case_decide; [|done]. intros [= Hres].
  pose proof (common_blink_response_step tag (response_result r).1 (response_result r).2
                (match r with bl_nostart_response _ => true | _ => false end)
                (match r with bl_bad_response => true | _ => false end)
                (match r with bl_good_response => true | _ => false end) pending) as Hstep.
  cbv zeta in Hstep. rewrite Hres in Hstep. simpl in Hstep.
  by rewrite <- surjective_pairing in Hstep.
Qed.

Lemma run_responses_tags arrivals pending t :
  t ∈ (run_responses arrivals pending).2.*1 → is_Some (pending !! t).
Proof.
  revert pending. induction arrivals as [|a arrivals IH]; intros pending; simpl.
  { by intros ?%elem_of_nil. }
  destruct (handle_response _ _ pending) as [[pending' resolved]| |] eqn:Hstep;
    [|by apply IH..].
  simpl. rewrite fmap_app, elem_of_app.
  destruct (handle_response_step _ _ _ _ _ _ Hstep)
    as [(-> & Hkeys & _)|(-> & Hsome & ->)].
  - intros [?%elem_of_nil|Hin]; [done|]. apply Hkeys. by apply IH.
  - intros [Hin|Hin].
    + apply list_elem_of_singleton in Hin. by subst.
    + apply IH in Hin. destruct Hin as [v Hv]. apply lookup_delete_Some in Hv as [_ Hv].
      eauto.
Qed.

(** X22: whatever responses arrive, in whatever order and with whatever tags,
    the promise of a submission is resolved at most once: no tag occurs
    twice among the promises resolved. *)
Theorem each_promise_is_resolved_once arrivals pending :
  NoDup (run_responses arrivals pending).2.*1.
Proof.
  revert pending. induction arrivals as [|a arrivals IH]; intros pending; simpl.
  { constructor. }
  destruct (handle_response _ _ pending) as [[pending' resolved]| |] eqn:Hstep;
    [|by apply IH..].
  simpl. rewrite fmap_app.
  destruct (handle_response_step _ _ _ _ _ _ Hstep)
    as [(-> & _)|(-> & Hsome & ->)]; [by apply IH|].
  simpl. constructor; [|by apply IH].
  intros Hin. apply run_responses_tags in Hin. destruct Hin as [v Hv].
  by rewrite lookup_delete_eq in Hv.
Qed.

Lemma good_for_cons tag a arrivals :
  len (filter (good_for tag) (a :: arrivals)) =
  (if decide (good_for tag a) then 1 else 0) + len (filter (good_for tag) arrivals).
Proof. rewrite filter_cons. unfold len. case_decide; simpl; lia. Qed.

Lemma majority_of_good_aux arrivals pending tag pbr :
  pending_wf pending → pending !! tag = Some pbr →
  (tag, (blink_result.accepted, "")) ∈ (run_responses arrivals pending).2 →
  good_count pbr + len (filter (good_for tag) arrivals) > Z.quot (remote_count pbr) 2.
Proof.
  revert pending pbr. induction arrivals as [|a arrivals IH]; intros pending pbr Hwf Hl; simpl.
  { by intros ?%elem_of_nil. }
  rewrite good_for_cons.
  assert (Hnn : 0 ≤ len (filter (good_for tag) arrivals)) by (unfold len; lia).
  destruct a as [r sender t]. simpl.
  destruct (handle_response r (response_message sender r t) pending)
    as [[pending' resolved]| |] eqn:Hstep.
  2,3: intros Hin; specialize (IH pending pbr Hwf Hl Hin); case_decide; lia.
  assert (Hrange : 0 ≤ t ≤ u64_max).
  { rewrite handle_response_common in Hstep. by case_decide. }
  assert (Hwf' : pending_wf pending').
  { rewrite handle_response_common, decide_True in Hstep by done.
    injection Hstep as Hstep.
    pose proof (common_blink_response_wf t (response_result r).1 (response_result r).2
                  (match r with bl_nostart_response _ => true | _ => false end)
                  (match r with bl_bad_response => true | _ => false end)
                  (match r with bl_good_response => true | _ => false end) pending Hwf) as H.
    by rewrite Hstep in H. }
  simpl. intros Hin.
  destruct (decide (t = tag)) as [->|Hne].
  - destruct (entry_node_response_reachable r sender tag pending pbr Hrange Hwf Hl)
      as (p' & res' & Hrun & _ & Hyes & Hno).
    rewrite Hstep in Hrun. injection Hrun as <- <-.
    destruct (decide (response_count r pbr + 1 > Z.quot (remote_count pbr) 2)) as [Hgt|Hle].
    + destruct (Hyes Hgt) as [-> ->].
      apply elem_of_cons in Hin as [Heq|Hin].
      * destruct r; try done. simpl in *. rewrite decide_True by done. lia.
      * exfalso. assert (Htag : tag ∈ (run_responses arrivals (delete tag pending)).2.*1).
        { apply list_elem_of_fmap. by exists (tag, (blink_result.accepted, "")). }
        apply run_responses_tags in Htag as [v Hv]. by rewrite lookup_delete_eq in Hv.
    + destruct (Hno Hle) as [-> ->]. simpl in Hin.
      specialize (IH _ (with_response_count r (response_count r pbr + 1) pbr) Hwf'
                    (lookup_insert_eq _ _ _) Hin).
      destruct r; simpl in *; case_decide as Hg; try lia.
      exfalso. by apply Hg.
  - rewrite decide_False by (intros [? _]; done).
    destruct (handle_response_step _ _ _ _ _ _ Hstep)
      as [(-> & _ & Hother)|(-> & Hsome & ->)].
    + simpl in Hin. apply (IH pending' pbr); [done| |done]. by rewrite Hother.
    + apply elem_of_cons in Hin as [Heq|Hin]; [congruence|].
      apply (IH (delete t pending) pbr); [done| |done]. by rewrite lookup_delete_ne.
Qed.

(** X23: the submitter reports a transaction as accepted only on a majority
    of [bl_good] responses: when the promise of a submission whose counters
    are at zero is resolved with [(accepted, "")], more than half of the
    [remote_count] entry nodes' worth of [bl_good] responses with its tag
    have arrived. *)
Theorem accepted_needs_a_majority_of_good arrivals pending tag pbr :
  pending_wf pending → pending !! tag = Some pbr → good_count pbr = 0 →
  (tag, (blink_result.accepted, "")) ∈ (run_responses arrivals pending).2 →
  len (filter (good_for tag) arrivals) > Z.quot (remote_count pbr) 2.
Proof.
  intros Hwf Hl Hzero Hin.
  pose proof (majority_of_good_aux arrivals pending tag pbr Hwf Hl Hin). lia.
Qed.

Lemma accepted_needs_a_majority_of_good_witness :
  len (filter (good_for 5)
         [ {| arr_response := bl_good_response; arr_sender := key32 "o"; arr_tag := 5 |};
           {| arr_response := bl_bad_response; arr_sender := key32 "g"; arr_tag := 5 |};
           {| arr_response := bl_good_response; arr_sender := key32 "k"; arr_tag := 5 |};
           {| arr_response := bl_good_response; arr_sender := key32 "c"; arr_tag := 5 |} ])
  > Z.quot (remote_count (new_submission sample_tx_hash 1001 4)) 2.
Proof.
  apply (accepted_needs_a_majority_of_good _ {[ 5 := new_submission sample_tx_hash 1001 4 ]}).
  - intros t e He. apply lookup_singleton_Some in He as [_ <-]. vm_compute.
    repeat split; discriminate.
  - apply lookup_singleton_eq.
  - reflexivity.
  - vm_compute. apply list_elem_of_here.
Defined.


(** ** Votes *)

Lemma deserialize_vote_validated uninit v vote :
  deserialize_vote uninit v = Ret vote → validated_vote vote.
Proof.
  unfold deserialize_vote, get_enum, dict_at.
  destruct v as [| | |d]; try done. simpl.
  destruct (dict_find d "v") as [[|ver| |]|]; try done. simpl.
  destruct (decide (0 ≤ ver ≤ u8_max)) as [Hver|]; [|done]. simpl.
  destruct (dict_find d "t") as [[|t| |]|]; try done. simpl.
  destruct (decide (0 ≤ t ≤ u8_max)); [|done]. simpl.
  destruct (quorum_type_of_code t) as [ty|]; [|done]. simpl.
  destruct (dict_find d "h") as [[|h| |]|]; try done. simpl.
  destruct (decide (0 ≤ h ≤ u64_max)) as [Hh|]; [|done]. simpl.
  destruct (dict_find d "g") as [[|g| |]|]; try done. simpl.
  destruct (decide (0 ≤ g ≤ u8_max)); [|done]. simpl.
  destruct (quorum_group_of_code g) as [grp|]; [|done]. simpl.
  destruct (decide (grp = invalid)) as [|Hgrp]; [done|].
  destruct (dict_find d "i") as [[|i| |]|]; try done. simpl.
  destruct (decide (0 ≤ i ≤ u16_max)) as [Hi|]; [|done]. simpl.
  destruct (dict_find d "s") as [[sig| | |]|]; try done. simpl.
  destruct (decide (str_size sig ≠ 64)) as [|Hsig]; [done|]. apply dec_stable in Hsig.
  destruct (decide (ty = checkpointing)) as [->|Hty].
  - destruct (dict_find d "bh") as [[bh| | |]|]; try done. simpl.
    destruct (decide (str_size bh ≠ 32)) as [|Hbh]; [done|]. apply dec_stable in Hbh.
    intros [= <-]. unfold validated_vote. simpl. repeat split; try done; lia.
  - destruct (dict_find d "wi") as [[|wi| |]|]; try done. simpl.
    destruct (decide (0 ≤ wi ≤ u16_max)) as [Hwi|]; [|done]. simpl.
    destruct (dict_find d "sc") as [[|sc| |]|]; try done. simpl.
    destruct (decide (0 ≤ sc ≤ u16_max)); [|done]. simpl.
    destruct (new_state_of_code sc); [|done]. simpl.
    intros [= <-]. unfold validated_vote. simpl. repeat split; try done; lia.
Qed.

Lemma deserialize_vote_defined uninit v w : deserialize_vote uninit v ≠ Undefined w.
Proof.
  unfold deserialize_vote, get_enum, dict_at.
  destruct v as [| | |d]; try done. simpl.
  repeat (match goal with
          | |- context [dict_find ?d ?k] => destruct (dict_find d k) as [[| | |]|]
          | |- context [decide ?P] => destruct (decide P)
          | |- context [quorum_type_of_code ?t] => destruct (quorum_type_of_code t)
          | |- context [quorum_group_of_code ?t] => destruct (quorum_group_of_code t)
          | |- context [new_state_of_code ?t] => destruct (new_state_of_code t)
          end; simpl; try done).
Qed.

(** X24: [handle_vote] lets no exception out, whatever the message.  A vote
    is handed to the vote pool only if the message is one dictionary that
    deserializes to a vote with valid fields whose height is not above the
    chain height; and the only messages sent are the relay of a vote that
    passed verification and was new to the pool. *)
Theorem handle_vote_checks_before_pooling E V c uninit m :
  ∃ r, handle_vote E V c uninit m = Ret r ∧
    (∀ vote, vote ∈ hv_submitted r →
       hv_submitted r = [vote] ∧
       (∃ v, m_data m = [v] ∧ deserialize_vote uninit v = Ret vote) ∧
       validated_vote vote ∧ block_height vote ≤ get_current_blockchain_height c) ∧
    (hv_sent r ≠ [] →
       ∃ vote, hv_submitted r = [vote] ∧
               m_verification_failed (add_service_node_vote V vote) = false ∧
               m_added_to_pool (add_service_node_vote V vote) = true ∧
               hv_sent r = relay_votes E V c [vote]).
Proof.
  unfold handle_vote. case_decide as Hlen.
  { exists vote_ignored. split; [done|]. split; [by intros ? ?%elem_of_nil|done]. }
  destruct (m_data m) as [|v [|v' rest]] eqn:Hdata;
    [unfold len in Hlen; simpl in Hlen; lia | | unfold len in Hlen; simpl in Hlen; lia].
  simpl.
  destruct (deserialize_vote uninit v) as [vote|e|w] eqn:Hde.
  2:{ exists vote_ignored. split; [done|]. split; [by intros ? ?%elem_of_nil|done]. }
  2:{ by apply deserialize_vote_defined in Hde. }
  case_decide as Hheight.
  { exists vote_ignored. split; [done|]. split; [by intros ? ?%elem_of_nil|done]. }
  assert (Hsub : ∀ vote', vote' ∈ [vote] →
            [vote] = [vote'] ∧ (∃ v0, [v] = [v0] ∧ deserialize_vote uninit v0 = Ret vote') ∧
            validated_vote vote' ∧ block_height vote' ≤ get_current_blockchain_height c).
  { intros vote' ->%list_elem_of_singleton. split; [done|]. split; [by eauto|].
    split; [by eapply deserialize_vote_validated|lia]. }
  destruct (m_verification_failed (add_service_node_vote V vote)) eqn:Hfailed.
  { eexists. split; [reflexivity|]. simpl. done. }
  destruct (m_added_to_pool (add_service_node_vote V vote)) eqn:Hadded.
  - eexists. split; [reflexivity|]. simpl. split; [done|]. intros _. by exists vote.
  - eexists. split; [reflexivity|]. simpl. done.
Qed.

Lemma relay_votes_cons E V c vote votes :
  relay_votes E V c (vote :: votes) = (relay_vote E V c vote ++ relay_votes E V c votes)%list.
Proof. reflexivity. Qed.

Lemma relay_vote_messages E V c vote s :
  s ∈ relay_vote E V c vote →
  ∃ quorum x opt,
    get_quorum (get_service_node_list c) (type vote) (block_height vote) = Some quorum ∧
    min_votes_for_quorum_type V (type vote) ≤ len (validators quorum) ∧
    my_pub c ∈ validators quorum ∧
    s = Send x "vote" (bt_dict (serialize_vote vote)) opt ∧
    ∃ pubkey info,
      pubkey ∈ validators quorum ∧ pubkey ≠ my_pub c ∧
      sn_infos (get_service_node_list c) !! pubkey = Some info ∧
      is_active info = true ∧ pubkey_x25519 info = x.
Proof.
  unfold relay_vote.
  destruct (get_quorum _ _ _) as [quorum|] eqn:Hq; [|by intros ?%elem_of_nil].
  cbv zeta. case_decide as Hmin; [by intros ?%elem_of_nil|].
  case_decide as Hcount; [by intros ?%elem_of_nil|].
  unfold relay_to_peers. intros ([x a] & -> & Hin)%list_elem_of_fmap.
  apply elem_of_map_to_list in Hin.
  destruct (new_peer_info_peer_origin E c [quorum] true ∅ x a Hin)
    as (pk & info & Hpk & Hme & _ & Hinfo & Hact & Hx & _).
  exists quorum, x, (if decide (a = "") then optional else hint a).
  split; [done|]. split; [lia|]. split.
  - rewrite new_peer_info_position_count in Hcount.
    destruct (decide (my_pub c ∈ validators quorum)) as [|Hout]; [done|].
    exfalso. apply Hcount. by rewrite filter_cons, decide_False.
  - split; [simpl; by case_decide|]. exists pk, info.
    simpl in Hpk. rewrite app_nil_r in Hpk. done.
Qed.

(** X25: every message [relay_votes] sends is a [vote] command that carries
    the serialization of one of the given votes, for a quorum that exists,
    has at least the minimum number of validators for its type and contains
    this node; it goes to the x25519 key of another validator of that quorum
    who is registered and active. *)
Theorem relay_votes_reaches_quorum_peers E V c votes s :
  s ∈ relay_votes E V c votes →
  ∃ vote quorum x opt,
    vote ∈ votes ∧
    get_quorum (get_service_node_list c) (type vote) (block_height vote) = Some quorum ∧
    min_votes_for_quorum_type V (type vote) ≤ len (validators quorum) ∧
    my_pub c ∈ validators quorum ∧
    s = Send x "vote" (bt_dict (serialize_vote vote)) opt ∧
    ∃ pubkey info,
      pubkey ∈ validators quorum ∧ pubkey ≠ my_pub c ∧
      sn_infos (get_service_node_list c) !! pubkey = Some info ∧
      is_active info = true ∧ pubkey_x25519 info = x.
Proof.
  unfold relay_votes. intros (vote & Hs & Hvote)%list_elem_of_bind.
  destruct (relay_vote_messages E V c vote s Hs) as (quorum & x & opt & H).
  by exists vote, quorum, x, opt.
Qed.

Lemma relay_votes_reaches_quorum_peers_witness :
  let c := sample_core (key32 "A") 100 sample_snl in
  let s := Send (key32 "b") "vote" (bt_dict (serialize_vote sample_vote)) (hint "tcp://2:22020") in
  ∃ vote quorum x opt,
    vote ∈ [sample_vote] ∧
    get_quorum (get_service_node_list c) (type vote) (block_height vote) = Some quorum ∧
    min_votes_for_quorum_type sample_V (type vote) ≤ len (validators quorum) ∧
    my_pub c ∈ validators quorum ∧
    s = Send x "vote" (bt_dict (serialize_vote vote)) opt ∧
    ∃ pubkey info,
      pubkey ∈ validators quorum ∧ pubkey ≠ my_pub c ∧
      sn_infos (get_service_node_list c) !! pubkey = Some info ∧
      is_active info = true ∧ pubkey_x25519 info = x.
Proof.
  intros c s.
  apply (relay_votes_reaches_quorum_peers sample_E sample_V c [sample_vote] s).
  vm_compute. apply list_elem_of_here.
Defined.

(** X26: a legal vote that [relay_votes] sent is deserialized by the
    [handle_vote] of a node whose chain has reached the vote's height, and
    handed to its vote pool with every field as it was sent - except
    [state_change.state], which [deserialize_vote] does not assign; for a
    checkpointing vote the pooled vote equals the one sent, and relaying it
    further sends the same dictionary. *)
Theorem relayed_vote_is_pooled E V c c' uninit vote sender x data opt :
  legal_vote vote →
  block_height vote ≤ get_current_blockchain_height c' →
  Send x "vote" data opt ∈ relay_votes E V c [vote] →
  ∃ r, handle_vote E V c' uninit {| m_pubkey := sender; m_sn := true; m_data := [data] |}
         = Ret r ∧
       hv_submitted r = [restored uninit vote] ∧
       (type vote = checkpointing →
          vote_eq (restored uninit vote) vote ∧
          serialize_vote (restored uninit vote) = serialize_vote vote).
Proof.
  intros Hlegal Hheight Hsent.
  unfold relay_votes in Hsent. apply list_elem_of_bind in Hsent as (vote' & Hs & Hvote).
  apply list_elem_of_singleton in Hvote as ->.
  destruct (relay_vote_messages E V c vote _ Hs) as (quorum & x' & opt' & _ & _ & _ & Heq & _).
  injection Heq as _ -> _.
  unfold handle_vote. simpl.
  rewrite (deserialize_serialize_vote uninit vote Hlegal).
  rewrite decide_False by (simpl; lia).
  assert (Hcp : type vote = checkpointing →
            vote_eq (restored uninit vote) vote ∧
            serialize_vote (restored uninit vote) = serialize_vote vote).
  { intros Hty. split.
    - unfold vote_eq, restored. simpl. by rewrite !decide_True.
    - unfold serialize_vote, restored. simpl. by rewrite !decide_True. }
  destruct (m_verification_failed _); [by eexists|].
  destruct (m_added_to_pool _); by eexists.
Qed.

Lemma relayed_vote_is_pooled_witness :
  let c := sample_core (key32 "A") 100 sample_snl in
  let c' := sample_core (key32 "B") 100 sample_snl in
  ∃ r, handle_vote sample_E sample_V c' sample_vote
         {| m_pubkey := key32 "a"; m_sn := true;
            m_data := [bt_dict (serialize_vote sample_vote)] |} = Ret r ∧
       hv_submitted r = [restored sample_vote sample_vote] ∧
       (type sample_vote = checkpointing →
          vote_eq (restored sample_vote sample_vote) sample_vote ∧
          serialize_vote (restored sample_vote sample_vote) = serialize_vote sample_vote).
Proof.
  intros c c'.
  apply (relayed_vote_is_pooled sample_E sample_V c c' sample_vote sample_vote (key32 "a")
           (key32 "b") (bt_dict (serialize_vote sample_vote)) (hint "tcp://2:22020")).
  - vm_compute. repeat split; try discriminate; reflexivity.
  - vm_compute. discriminate.
  - vm_compute. apply list_elem_of_here.
Defined.

(** ** Relaying and delaying blink signatures *)

Lemma store_signatures_sublist l btx s : s ∈ (store_signatures btx l).2 → s ∈ l.
Proof.
  revert btx. induction l as [|s' l IH]; intros btx; simpl; [by intros ?%elem_of_nil|].
  destruct (add_prechecked_signature _ _ _ _ _).2.
  - intros [->|Hin]%elem_of_cons; [by left|]. right. by eapply IH.
  - intros Hin. right. by eapply IH.
Qed.

(** X27: every [blink_sign] message [process_blink_signatures] sends carries
    the height and hash of the blink tx, the checksum, and a non-empty list
    of signatures, each one of the given signatures that found its slot empty
    and verified; it goes to the x25519 key of an active, registered
    validator of the quorums other than this node - and never to the service
    node the signatures were received from. *)
Theorem signatures_are_not_relayed_back E c btx qs cs sigs reply_tag reply_pubkey from
    x data opt :
  Send x "blink_sign" data opt ∈
    (process_blink_signatures E c btx qs cs sigs reply_tag reply_pubkey from).2 →
  let r := process_blink_signatures E c btx qs cs sigs reply_tag reply_pubkey from in
  let sender := get_pubkey_from_x25519 (get_service_node_list c) (x25519_from_string from) in
  (∃ stored,
     stored ≠ [] ∧ data = bt_dict (blink_sign_data r.1 cs stored) ∧
     ∀ s, s ∈ stored →
          s ∈ sigs ∧ slot_open btx qs s = true ∧ signature_valid E btx qs s = true) ∧
  ∃ pubkey info,
    (pubkey ∈ qs ≫= validators) ∧ pubkey ≠ my_pub c ∧
    (from ≠ "" → is_null sender = false → pubkey ≠ sender) ∧
    sn_infos (get_service_node_list c) !! pubkey = Some info ∧
    is_active info = true ∧ pubkey_x25519 info = x.
Proof.
  intros Hin r sender. subst r. revert Hin.
  unfold process_blink_signatures. cbv zeta.
  set (opened := List.filter (slot_open btx qs) sigs).
  case_decide as Ho; [by intros ?%elem_of_nil|].
  set (valid := List.filter (signature_valid E btx qs) opened).
  case_decide as Hv; [by intros ?%elem_of_nil|].
  set (stored := store_signatures btx valid).
  case_decide as Hs; [by intros ?%elem_of_nil|].
  cbn [fst snd]. intros [Hin|Hin]%elem_of_app.
  - unfold relay_to_peers in Hin.
    apply list_elem_of_fmap in Hin as ([x' a] & Heq & Hin).
    apply elem_of_map_to_list in Hin.
    assert (x' = x ∧ data = bt_dict (blink_sign_data stored.1 cs stored.2)) as [-> ->].
    { cbn [fst snd] in Heq. destruct (decide (a = "")); by simplify_eq. }
    split.
    + exists stored.2. split; [done|]. split; [done|].
      intros s Hsin. apply store_signatures_sublist in Hsin.
      unfold valid in Hsin. apply elem_of_bool_filter in Hsin as [Hsin Hvalid].
      unfold opened in Hsin. apply elem_of_bool_filter in Hsin as [Hsin Hopen]. done.
    + apply new_peer_info_peer_origin in Hin
        as (pk & info & Hpk & Hme & Hex & Hinfo & Hact & Hx & _).
      exists pk, info. repeat split; try done.
      intros Hfrom Hnull ->. apply Hex.
      rewrite decide_False by done. fold sender. rewrite Hnull.
      by apply elem_of_singleton.
  - exfalso. repeat case_decide;
      repeat match goal with
             | H : _ ∈ (if ?b then _ else _) |- _ => destruct b
             end;
      try (by apply elem_of_nil in Hin);
      apply list_elem_of_singleton in Hin; discriminate Hin.
Qed.

Lemma signatures_are_not_relayed_back_witness :
  let c := sample_core (key32 "A") 100 sample_snl in
  let cs := blink_checksum sample_E sample_Q' sample_Q in
  let r := process_blink_signatures sample_E c sample_btx13 sample_quorums cs
             [approval_by 1 6] 7 (key32 "z") (key32 "b") in
  let sender := get_pubkey_from_x25519 (get_service_node_list c)
                  (x25519_from_string (key32 "b")) in
  (∃ stored,
     stored ≠ [] ∧
     bt_dict (blink_sign_data r.1 cs [approval_by 1 6]) = bt_dict (blink_sign_data r.1 cs stored) ∧
     ∀ s, s ∈ stored →
          s ∈ [approval_by 1 6] ∧ slot_open sample_btx13 sample_quorums s = true ∧
          signature_valid sample_E sample_btx13 sample_quorums s = true) ∧
  ∃ pubkey info,
    (pubkey ∈ sample_quorums ≫= validators) ∧ pubkey ≠ my_pub c ∧
    (key32 "b" ≠ "" → is_null sender = false → pubkey ≠ sender) ∧
    sn_infos (get_service_node_list c) !! pubkey = Some info ∧
    is_active info = true ∧ pubkey_x25519 info = key32 "h".
Proof.
  intros c cs r.
  apply (signatures_are_not_relayed_back sample_E c sample_btx13 sample_quorums cs
           [approval_by 1 6] 7 (key32 "z") (key32 "b") (key32 "h")
           (bt_dict (blink_sign_data r.1 cs [approval_by 1 6])) optional).
  vm_compute. apply list_elem_of_here.
Defined.








(** ** Submissions refused at once *)

Lemma send_to_quorum_future E c rnd pending fulfilled tag tx_hash tx_blob resp :
  sb_future (send_to_quorum E c rnd pending fulfilled tag tx_hash tx_blob) ≠ Ret (Some resp).
Proof.
  unfold send_to_quorum.
  destruct (get_blink_quorums E _ _ None) as [[quorums checksum]| |]; simpl; congruence.
Qed.

(** X29: when [send_blink] returns a future that already holds its value, the
    value is a rejection, no message is sent and no entry is added to the
    table of pending submissions: either the transaction did not parse (and
    the table is untouched), or the sweep was done and an entry that stays
    has the hash of the transaction, or [MAX_ACTIVE_PROMISES] entries
    stay. *)
Theorem rejected_submission_sends_nothing E c rnd now now_created pending tx_blob resp :
  sb_future (send_blink E c rnd now now_created pending tx_blob) = Ret (Some resp) →
  let r := send_blink E c rnd now now_created pending tx_blob in
  resp.1 = blink_result.rejected ∧ sb_sent r = [] ∧ sb_pending r ⊆ pending ∧
  ((parse_and_validate_tx_from_blob E tx_blob = None ∧
    resp.2 = "Could not parse transaction data" ∧
    sb_pending r = pending ∧ sb_fulfilled r = []) ∨
   (∃ tx_hash,
      parse_and_validate_tx_from_blob E tx_blob = Some tx_hash ∧
      sb_pending r = (sweep now tx_hash pending).1.1 ∧
      sb_fulfilled r = (sweep now tx_hash pending).1.2 ∧
      ((resp.2 = "Transaction was already submitted" ∧
        ∃ tag brd, sb_pending r !! tag = Some brd ∧ brd_hash brd = tx_hash) ∨
       (resp.2 = "Node is busy, try again later" ∧
        Z.of_nat (size (sb_pending r)) >= MAX_ACTIVE_PROMISES)))).
Proof.
  intros Hfut r. subst r. revert Hfut. unfold send_blink.
  destruct (parse_and_validate_tx_from_blob E tx_blob) as [tx_hash|] eqn:Hparse.
  2:{ simpl. intros [= <-]. split; [done|]. split; [done|]. split; [done|]. by left. }
  unfold sweep. cbv zeta.
  set (kept := filter (λ kv : Z * blink_result_data, ¬ swept now kv.2) pending).
  set (resolved := omap _ (map_to_list (filter _ pending))).
  assert (Hsub : kept ⊆ pending) by apply map_filter_subseteq.
  destruct (existsb _ (map_to_list kept)) eqn:Hfound.
  - simpl. intros [= <-]. split; [done|]. split; [done|]. split; [done|].
    right. exists tx_hash. split; [done|]. split; [done|]. split; [done|]. left.
    split; [done|].
    apply existsb_exists in Hfound as ([tag brd] & Hin & Hhash).
    apply list_elem_of_In, elem_of_map_to_list in Hin.
    apply bool_decide_eq_true in Hhash. by exists tag, brd.
  - case_decide as Hbusy.
    + simpl. intros [= <-]. split; [done|]. split; [done|]. split; [done|].
      right. exists tx_hash. split; [done|]. split; [done|]. split; [done|]. by right.
    + destruct (choose_tag (draws rnd) kept) as [tag|]; [|done].
      intros Hfut. by apply send_to_quorum_future in Hfut.
Qed.

Lemma rejected_submission_sends_nothing_witness :
  let c := sample_core (key32 "A") 100 sample_snl in
  let pending : pending_t := {[ 5 := sample_pending 10 ]} in
  let r := send_blink sample_E c sample_rnd 20 20 pending sample_tx_blob in
  let resp := (blink_result.rejected, "Transaction was already submitted") in
  resp.1 = blink_result.rejected ∧ sb_sent r = [] ∧ sb_pending r ⊆ pending ∧
  ((parse_and_validate_tx_from_blob sample_E sample_tx_blob = None ∧
    resp.2 = "Could not parse transaction data" ∧
    sb_pending r = pending ∧ sb_fulfilled r = []) ∨
   (∃ tx_hash,
      parse_and_validate_tx_from_blob sample_E sample_tx_blob = Some tx_hash ∧
      sb_pending r = (sweep 20 tx_hash pending).1.1 ∧
      sb_fulfilled r = (sweep 20 tx_hash pending).1.2 ∧
      ((resp.2 = "Transaction was already submitted" ∧
        ∃ tag brd, sb_pending r !! tag = Some brd ∧ brd_hash brd = tx_hash) ∨
       (resp.2 = "Node is busy, try again later" ∧
        Z.of_nat (size (sb_pending r)) >= MAX_ACTIVE_PROMISES)))).
Proof.
  intros c pending r resp.
  apply (rejected_submission_sends_nothing sample_E c sample_rnd 20 20 pending
           sample_tx_blob resp).
  vm_compute. reflexivity.
Defined.

(** ** Rendering the known signatures *)

Lemma list_ascii_of_string_app a b :
  String.list_ascii_of_string (a +:+ b) =
  (String.list_ascii_of_string a ++ String.list_ascii_of_string b)%list.
Proof. induction a as [|ch a IH]; simpl; [done|]. by rewrite IH. Qed.

Lemma rendered_statuses_app a b :
  rendered_statuses (a +:+ b) = (rendered_statuses a ++ rendered_statuses b)%list.
Proof. unfold rendered_statuses. by rewrite list_ascii_of_string_app, omap_app. Qed.

Lemma rendered_statuses_spaced items :
  rendered_statuses (spaced items) = items ≫= rendered_statuses.
Proof.
  induction items as [|s [|s' rest] IH]; [done| |].
  - simpl. by rewrite app_nil_r.
  - change (spaced (s :: s' :: rest)) with (s +:+ " " +:+ spaced (s' :: rest)).
    rewrite !rendered_statuses_app, IH. reflexivity.
Qed.

Lemma rendered_status_letter st :
  rendered_statuses (String (status_letter st) "") = [st].
Proof. by destruct st. Qed.

Lemma rendered_letters (f : Z → signature_status) l :
  ((λ i, String (status_letter (f i)) "") <$> l) ≫= rendered_statuses = f <$> l.
Proof.
  induction l as [|i l IH]; [done|].
  rewrite !fmap_cons, bind_cons, IH, rendered_status_letter. reflexivity.
Qed.

Lemma bind_imap_ext {A B C} (g : nat → A → B) (h : nat → A → list C) (r : B → list C) l :
  (∀ i x, r (g i x) = h i x) → imap g l ≫= r = mjoin (imap h l).
Proof.
  revert g h. induction l as [|x l IH]; intros g h Hgh; [done|].
  rewrite !imap_cons, bind_cons, Hgh. simpl. f_equal. apply IH. intros i y. apply Hgh.
Qed.

(** X30: the string [debug_known_signatures] prints can be read back: its
    letters, in order, are the statuses of the positions 0 .. size-1 of each
    subquorum in turn - [A] for an approval, [R] for a rejection and [-] for
    no signature - whatever brackets and spaces stand between them. *)
Theorem debug_known_signatures_reads_back btx blink_quorums :
  rendered_statuses (debug_known_signatures btx blink_quorums) =
  mjoin (imap (λ qi q, (λ i, get_signature_status btx (Z.of_nat qi) i)
                         <$> seqZ 0 (len (validators q)))
              blink_quorums).
Proof.
  unfold debug_known_signatures. rewrite rendered_statuses_spaced.
  apply bind_imap_ext. intros qi q. cbv zeta.
  rewrite !rendered_statuses_app, rendered_statuses_spaced, rendered_letters.
  change (rendered_statuses "[") with (@nil signature_status).
  change (rendered_statuses "]") with (@nil signature_status).
  by rewrite app_nil_r.
Qed.

Example debug_known_signatures_sample :
  debug_known_signatures sample_btx13 sample_quorums =
  "[A A A A A A A -] [A A A A A A - -]".
Proof. vm_compute. reflexivity. Qed.

